(** * Exam authoring and result review: a shallow embedding

    The development models three pieces of the admin dashboard:

    - [formatScientificText], the scientific-notation formatter
      (six global regular-expression replacements applied in a row);
    - [smartParseJSON], the question-bank normalizer, with the JSON
      editor's export projection and its Apply-to-Exam handler, and the
      question editor's [changeType];
    - the result screen: percentage and pass classification, attempt
      numbering and the per-question review breakdown.

    Around them it models the handlers that act on the same state: the
    file upload of the data tab, the numeric inputs of the settings tab,
    the adding, cloning, reordering and deleting of questions and the
    adding and removing of options in the builder, and, on the result
    screen, the merge of the results with the user profiles, the
    filters and the figures of the summary.

    Conventions.  A JavaScript string is the list of its UTF-16 code
    units ([jsstring]).  Numbers that travel as data (answer indices,
    minutes, marks found in JSON) are integers in [Z], which stand for
    the doubles that represent them exactly; scores are exact rationals
    in [Q], so that [Math.round] and the comparisons are the mathematical
    ones.  A property that is [undefined] is [None].  An exception is an
    outcome of its own ([Thrown]); the identifiers that [generateId]
    draws from the clock and the random generator are taken from a
    supply [gen : nat -> jsstring].

    The definitions come first: the embedding of the code, then the
    scanners and the notions that the proofs and statements use, then
    sample inputs.  The theorems follow. *)

From Stdlib Require Import String Ascii.
From Stdlib Require Import List NArith ZArith QArith Qround Bool Lia Lqa.
From Stdlib Require Import DecimalString Permutation Sorted.
From Stdlib Require DecimalPos.
Import ListNotations.

Close Scope Q_scope.

(** ** JavaScript strings *)

Definition char := N.
Bind Scope N_scope with char.
Definition jsstring := list char.

(** An ASCII literal as a JavaScript string. *)
Definition str (s : string) : jsstring :=
  map N_of_ascii (list_ascii_of_string s).

Definition char_eqb (a b : char) : bool := N.eqb a b.

Fixpoint jsstring_eqb (a b : jsstring) : bool :=
  match a, b with
  | [], [] => true
  | x :: a', y :: b' => char_eqb x y && jsstring_eqb a' b'
  | _, _ => false
  end.

Definition in_range (lo hi c : char) : bool := (N.leb lo c && N.leb c hi)%bool.

Definition is_digit (c : char) : bool := in_range 48 57 c.      (* \d : 0-9 *)
Definition is_upper (c : char) : bool := in_range 65 90 c.      (* [A-Z] *)
Definition is_lower (c : char) : bool := in_range 97 122 c.     (* [a-z] *)
Definition is_caret (c : char) : bool := char_eqb c 94%N.         (* ^ *)
Definition is_underscore (c : char) : bool := char_eqb c 95%N.    (* _ *)
Definition is_subscript (c : char) : bool := in_range 8320 8329 c. (* [U+2080-U+2089] *)
Definition is_superscript_range (c : char) : bool := in_range 8304 8313 c. (* [U+2070-U+2079] *)

(** [\w] of a regular expression without the unicode flag. *)
Definition is_word (c : char) : bool :=
  (is_digit c || is_upper c || is_lower c || is_underscore c)%bool.

Definition is_word_opt (c : option char) : bool :=
  match c with Some x => is_word x | None => false end.

(** ** The formatter *)

(** The two glyph tables, as code units: "₀₁₂₃₄₅₆₇₈₉" and "⁰¹²³⁴⁵⁶⁷⁸⁹".
    The superscripts one, two and three live in Latin-1 (U+00B9, U+00B2,
    U+00B3), outside the block of the other seven. *)
Definition subscripts : jsstring :=
  [8320; 8321; 8322; 8323; 8324; 8325; 8326; 8327; 8328; 8329]%N.
Definition superscripts : jsstring :=
  [8304; 185; 178; 179; 8308; 8309; 8310; 8311; 8312; 8313]%N.

(** [parseInt(d)] of a one-character string: [None] stands for [NaN]. *)
Definition parseInt_char (d : char) : option nat :=
  if is_digit d then Some (N.to_nat (d - 48)%N) else None.

(** [num.split('').map(d => table[parseInt(d)]).join('')]: an index that
    is [NaN] or out of range reads [undefined], which [join] drops. *)
Definition glyphs_of (table : jsstring) (num : jsstring) : jsstring :=
  flat_map (fun d =>
    match parseInt_char d with
    | Some k => match nth_error table k with Some g => [g] | None => [] end
    | None => []
    end) num.

Definition toSub : jsstring -> jsstring := glyphs_of subscripts.
Definition toSup : jsstring -> jsstring := glyphs_of superscripts.

(** The greedy [\d+] (here possibly empty): the digits taken and the rest. *)
Fixpoint span_digits (s : jsstring) : jsstring * jsstring :=
  match s with
  | c :: rest =>
      if is_digit c then let (ds, r) := span_digits rest in (c :: ds, r)
      else ([], s)
  | [] => ([], [])
  end.

(** A match of a pattern at the head of the input: the text it consumed,
    what the callback returns for it, and the input after it. *)
Record found := Found { matched : jsstring; replacement : jsstring; after : jsstring }.

(** A pattern with its callback: tried at a position, given the code unit
    before the position (for [\b]) and the input from the position on. *)
Definition pattern := option char -> jsstring -> option found.

(** [text.replace(/pattern/g, callback)]: scan from the left; where the
    pattern matches, emit the callback's result and go on after the match;
    elsewhere copy one code unit and try the next position.  The fuel is
    the length of the input; every match below consumes at least two code
    units. *)
Fixpoint replace_go (p : pattern) (fuel : nat) (prev : option char) (s : jsstring)
  : jsstring :=
  match fuel with
  | O => s
  | S fuel' =>
      match s with
      | [] => []
      | c :: rest =>
          match p prev s with
          | Some m =>
              replacement m ++ replace_go p fuel' (Some (last (matched m) c)) (after m)
          | None => c :: replace_go p fuel' (Some c) rest
          end
      end
  end.

Definition replace_all (p : pattern) (s : jsstring) : jsstring :=
  replace_go p (List.length s) None s.

(** A pattern of the shape [X(\d+)] whose one-unit head [X] is tested by
    [head]; the callback yields [keep ++ table glyphs], where [keep] is
    the head itself or nothing. *)
Definition head_then_digits (head : char -> bool) (keep_head : bool)
    (glyphs : jsstring -> jsstring) (s : jsstring) : option found :=
  match s with
  | c :: t =>
      if head c then
        match span_digits t with
        | (d :: ds, rest) =>
            Some (Found (c :: d :: ds)
                        ((if keep_head then [c] else []) ++ glyphs (d :: ds)) rest)
        | ([], _) => None
        end
      else None
  | [] => None
  end.

(** [/\^(\d+)/g, (_, num) => toSup(num)] *)
Definition caret_digits : pattern := fun _ => head_then_digits is_caret false toSup.
(** [/_(\d+)/g, (_, num) => toSub(num)] *)
Definition underscore_digits : pattern := fun _ => head_then_digits is_underscore false toSub.
(** [/([₀-₉])(\d+)/g, (_, prev, num) => prev + toSub(num)] *)
Definition subscript_digits : pattern := fun _ => head_then_digits is_subscript true toSub.
(** [/([⁰-⁹])(\d+)/g, (_, prev, num) => prev + toSup(num)] *)
Definition superscript_digits : pattern :=
  fun _ => head_then_digits is_superscript_range true toSup.

(** [/([A-Z][a-z]?)(\d+)/g, (_, el, num) => el + toSub(num)]: the optional
    lowercase letter is tried first; when no digit follows it the matcher
    backtracks to the capital alone. *)
Definition element_digits : pattern := fun _ s =>
  match s with
  | c :: t =>
      if is_upper c then
        let with_lower :=
          match t with
          | l :: t' =>
              if is_lower l then
                match span_digits t' with
                | (d :: ds, rest) =>
                    Some (Found (c :: l :: d :: ds) ([c; l] ++ toSub (d :: ds)) rest)
                | ([], _) => None
                end
              else None
          | [] => None
          end in
        match with_lower with
        | Some m => Some m
        | None =>
            match span_digits t with
            | (d :: ds, rest) => Some (Found (c :: d :: ds) ([c] ++ toSub (d :: ds)) rest)
            | ([], _) => None
            end
        end
      else None
  | [] => None
  end.

(** [\b]: exactly one of the two neighbours is a word character. *)
Definition word_boundary (prev : option char) (s : jsstring) : bool :=
  xorb (is_word_opt prev) (is_word_opt (hd_error s)).

(** [/\b([a-z])(\d+)/g, (_, char, num) => char + toSup(num)] *)
Definition variable_digits : pattern := fun prev s =>
  if word_boundary prev s then head_then_digits is_lower true toSup s else None.

Definition formatScientificText (text : jsstring) : jsstring :=
  match text with
  | [] => []                                   (* if (!text) return '' *)
  | _ =>
      let newText := text in
      let newText := replace_all caret_digits newText in
      let newText := replace_all underscore_digits newText in
      let newText := replace_all subscript_digits newText in
      let newText := replace_all superscript_digits newText in
      let newText := replace_all element_digits newText in
      let newText := replace_all variable_digits newText in
      newText
  end.


(** ** JSON values

    What [JSON.parse] yields.  The fields of an object are its own
    properties in the order of [Object.keys], with distinct names. *)

#[warnings="-register-all"]
Inductive json : Type :=
| JNull
| JBool (b : bool)
| JNum (n : Z)
| JStr (s : jsstring)
| JArr (items : list json)
| JObj (fields : list (jsstring * json)).

(** [Array.isArray(v)] *)
Definition is_array (v : option json) : bool :=
  match v with Some (JArr _) => true | _ => false end.

(** [typeof v === 'object'], which holds of [null] too *)
Definition typeof_object (v : option json) : bool :=
  match v with Some JNull | Some (JArr _) | Some (JObj _) => true | _ => false end.

(** Truthiness; [None] is [undefined]. *)
Definition truthy (v : option json) : bool :=
  match v with
  | None | Some JNull => false
  | Some (JBool b) => b
  | Some (JNum n) => negb (Z.eqb n 0)
  | Some (JStr s) => match s with [] => false | _ => true end
  | Some (JArr _) | Some (JObj _) => true
  end.

(** [a || b] *)
Definition js_or (a b : option json) : option json := if truthy a then a else b.

(** [String(n)] of an integer. *)
Definition number_to_string (n : Z) : jsstring :=
  str (NilZero.string_of_int (Z.to_int n)).

(** [String(v)]: an array is joined with commas, [null] elements giving
    the empty string; an object prints as [[object Object]]. *)
Fixpoint to_string (v : json) : jsstring :=
  match v with
  | JNull => str "null"
  | JBool true => str "true"
  | JBool false => str "false"
  | JNum n => number_to_string n
  | JStr s => s
  | JArr items =>
      (fix join (l : list json) : jsstring :=
         match l with
         | [] => []
         | x :: rest =>
             match x with JNull => [] | _ => to_string x end
             ++ match rest with [] => [] | _ :: _ => str "," ++ join rest end
         end) items
  | JObj _ => str "[object Object]"
  end.

(** The result of [Number(v)].  What [Number] makes of a string is not
    computed: [NumberOfString s] stands for it. *)
Inductive jsnumber : Type :=
| Num (n : Z)
| NumberOfString (s : jsstring).

Definition to_number (v : json) : jsnumber :=
  match v with
  | JNull => Num 0
  | JBool b => Num (if b then 1 else 0)
  | JNum n => Num n
  | JStr _ | JArr _ | JObj _ => NumberOfString (to_string v)
  end.

Definition index_key (i : nat) : jsstring := number_to_string (Z.of_nat i).

(** [Object.keys(v)] *)
Definition own_keys (v : json) : list jsstring :=
  match v with
  | JObj fields => map fst fields
  | JArr items => map index_key (seq 0 (List.length items))
  | JStr s => map index_key (seq 0 (List.length s))
  | _ => []
  end.

Fixpoint lookup (k : jsstring) (fields : list (jsstring * json)) : option json :=
  match fields with
  | [] => None
  | (k', v) :: rest => if jsstring_eqb k k' then Some v else lookup k rest
  end.

Definition index_of_key (k : jsstring) (n : nat) : option nat :=
  find (fun i => jsstring_eqb k (index_key i)) (seq 0 n).

(** [v[k]] for an own property [k]; [None] is [undefined].  (Inherited
    properties such as [length] are never asked for by the code below.) *)
Definition get (v : json) (k : jsstring) : option json :=
  match v with
  | JObj fields => lookup k fields
  | JArr items =>
      match index_of_key k (List.length items) with
      | Some i => nth_error items i
      | None => None
      end
  | JStr s =>
      match index_of_key k (List.length s) with
      | Some i => option_map (fun c => JStr [c]) (nth_error s i)
      | None => None
      end
  | _ => None
  end.

(** [k.toLowerCase()], as far as a search for an ASCII word can tell: the
    ASCII capitals, the Kelvin sign (to [k]) and the dotted capital I (to
    [i] and a combining dot) are the only units whose lowercase contains
    an ASCII unit; every other unit is kept. *)
Definition lower_char (c : char) : jsstring :=
  if is_upper c then [(c + 32)%N]
  else if char_eqb c 8490 then [107%N]
  else if char_eqb c 304 then [105%N; 775%N]
  else [c].

Definition toLowerCase (s : jsstring) : jsstring := flat_map lower_char s.

Fixpoint starts_with (prefix s : jsstring) : bool :=
  match prefix, s with
  | [], _ => true
  | p :: prefix', c :: s' => char_eqb p c && starts_with prefix' s'
  | _ :: _, [] => false
  end.

(** [s.includes(word)] *)
Fixpoint includes (s word : jsstring) : bool :=
  starts_with word s || match s with [] => false | _ :: s' => includes s' word end.

(** ** Questions and exams *)

Inductive QuestionType : Type := MultipleChoice | TrueFalse | ShortAnswer.

Definition type_name (t : QuestionType) : jsstring :=
  match t with
  | MultipleChoice => str "multiple-choice"
  | TrueFalse => str "true-false"
  | ShortAnswer => str "short-answer"
  end.

Record Question : Type := mkQuestion {
  q_id : jsstring;
  q_type : QuestionType;
  q_text : jsstring;
  q_options : list jsstring;
  q_correctAnswer : Z;
  q_correctAnswerText : option jsstring
}.

(** [Partial<Exam>]: the editor's exam and the metadata found by the
    normalizer.  [num] is the type of the numeric fields. *)
Record PartialExam (num : Type) : Type := mkPartialExam {
  e_id : option jsstring;
  e_title : option jsstring;
  e_description : option jsstring;
  e_durationMinutes : option num;
  e_questionCount : option num;
  e_questions : option (list Question);
  e_totalMarks : option num;
  e_difficulty : option json;
  e_scheduledDate : option jsstring;
  e_isPublished : option bool;
  e_maxAttempts : option num;
  e_shuffleQuestions : option bool;
  e_negativeMarking : option num;
  e_targetClass : option jsstring;
  e_targetDivision : option jsstring
}.

Arguments mkPartialExam {num}.
Arguments e_id {num}.
Arguments e_title {num}.
Arguments e_description {num}.
Arguments e_durationMinutes {num}.
Arguments e_questionCount {num}.
Arguments e_questions {num}.
Arguments e_totalMarks {num}.
Arguments e_difficulty {num}.
Arguments e_scheduledDate {num}.
Arguments e_isPublished {num}.
Arguments e_maxAttempts {num}.
Arguments e_shuffleQuestions {num}.
Arguments e_negativeMarking {num}.
Arguments e_targetClass {num}.
Arguments e_targetDivision {num}.

(** [{}] *)
Definition no_fields {num : Type} : PartialExam num :=
  mkPartialExam None None None None None None None None None None None None None None None.

(** ** The normalizer *)

(** The metadata read off the root. *)
Definition extract_meta (root : json) : PartialExam jsnumber :=
  let field := get root in
  let duration := js_or (field (str "durationMinutes")) (field (str "duration")) in
  {| e_id := None;
     e_title :=
       if truthy (field (str "title")) then option_map to_string (field (str "title"))
       else None;
     e_description :=
       if truthy (field (str "description"))
       then option_map to_string (field (str "description")) else None;
     e_durationMinutes := if truthy duration then option_map to_number duration else None;
     e_questionCount := None;
     e_questions := None;
     e_totalMarks :=
       if truthy (field (str "totalMarks"))
       then option_map to_number (field (str "totalMarks")) else None;
     e_difficulty :=
       if truthy (field (str "difficulty")) then field (str "difficulty") else None;
     e_scheduledDate := None;
     e_isPublished := None;
     e_maxAttempts := option_map to_number (field (str "maxAttempts"));
     e_shuffleQuestions :=
       option_map (fun v => truthy (Some v)) (field (str "shuffleQuestions"));
     e_negativeMarking := option_map to_number (field (str "negativeMarking"));
     e_targetClass := option_map to_string (field (str "targetClass"));
     e_targetDivision := option_map to_string (field (str "targetDivision")) |}.

(** The array of records: [root.questions], else [root.data], else the
    first property holding a non-empty array whose first element is an
    object; [fallback] when there is none. *)
Definition candidate_array (root : json) (fallback : json) : json :=
  match get root (str "questions") with
  | Some (JArr items) => JArr items
  | _ =>
      match get root (str "data") with
      | Some (JArr items) => JArr items
      | _ =>
          match
            find (fun key =>
                    match get root key with
                    | Some (JArr (first :: _)) => typeof_object (Some first)
                    | _ => false
                    end) (own_keys root)
          with
          | Some key => match get root key with Some v => v | None => fallback end
          | None => fallback
          end
      end
  end.

(** What a piece of code yields: a value, or an exception. *)
Inductive outcome (A : Type) : Type :=
| Returned (a : A)
| Thrown.
Arguments Returned {A}.
Arguments Thrown {A}.

(** [Object.keys(item).find(k => words.some(s => k.toLowerCase().includes(s))) || ''] *)
Definition find_key (words : list jsstring) (item : json) : jsstring :=
  match find (fun k => existsb (includes (toLowerCase k)) words) (own_keys item) with
  | Some k => k
  | None => []
  end.

(** The type of a record.  [toLowerCase] is called on whatever truthy
    value the [type] property holds, and throws unless it is a string. *)
Definition resolve_type (item : json) : outcome QuestionType :=
  let ty := get item (str "type") in
  if truthy ty then
    match ty with
    | Some (JStr s) =>
        Returned
          (if includes (toLowerCase s) (str "short") then ShortAnswer
           else if includes (toLowerCase s) (str "true") || jsstring_eqb s (str "tf")
                then TrueFalse
                else MultipleChoice)
    | _ => Thrown
    end
  else Returned MultipleChoice.

(** The options found in a record, before the defaults of its type. *)
Definition found_options (item : json) : list jsstring :=
  let optionsKey := find_key [str "options"; str "choices"; str "answers"] item in
  match get item optionsKey with
  | Some (JArr l) => map to_string l
  | _ => []
  end.

(** The value under the first key that contains "correct" or "answer". *)
Definition correct_field (item : json) : option json :=
  get item (find_key [str "correct"; str "answer"] item).

(** The callback of [potentialArray.map]: [Returned None] is the [null]
    that [filter(Boolean)] removes; [id] is what [generateId()] gives. *)
Definition parse_item (id : jsstring) (item : json) : outcome (option Question) :=
  match item with
  | JObj _ | JArr _ =>
      let textKey := find_key [str "text"; str "question"; str "prompt"] item in
      let text :=
        if truthy (get item textKey)
        then match get item textKey with Some v => to_string v | None => [] end
        else [] in
      match resolve_type item with
      | Thrown => Thrown
      | Returned type =>
          let options := found_options item in
          let options :=
            match type with
            | MultipleChoice =>
                if Nat.ltb (List.length options) 2 then [[]; []; []; []] else options
            | _ => options
            end in
          let options :=
            match type with TrueFalse => [str "True"; str "False"] | _ => options end in
          let correct := correct_field item in
          let correctAnswer := match correct with Some (JNum n) => n | _ => 0%Z end in
          let correctAnswerText :=
            match type with
            | ShortAnswer =>
                match js_or correct (Some (JStr [])) with
                | Some v => to_string v
                | None => []
                end
            | _ => []
            end in
          Returned (Some
            {| q_id := id;
               q_text := formatScientificText text;
               q_type := type;
               q_options := map formatScientificText options;
               q_correctAnswer := correctAnswer;
               q_correctAnswerText := Some (formatScientificText correctAnswerText) |})
      end
  | _ => Returned None
  end.

(** [potentialArray.map(...).filter(Boolean)]; [gen n] is the [n]-th
    identifier that [generateId] hands out. *)
Fixpoint parse_items (gen : nat -> jsstring) (n : nat) (items : list json)
  : outcome (list Question) :=
  match items with
  | [] => Returned []
  | item :: rest =>
      match parse_item (gen n) item with
      | Thrown => Thrown
      | Returned None => parse_items gen n rest
      | Returned (Some q) =>
          match parse_items gen (S n) rest with
          | Thrown => Thrown
          | Returned qs => Returned (q :: qs)
          end
      end
  end.

Record parse_result : Type := mkParseResult {
  questions : list Question;
  meta : PartialExam jsnumber;
  error : option jsstring
}.

Definition structure_error : jsstring :=
  str "Structure Error: JSON must be an array or contain a 'questions' array.".
Definition malformed_error : jsstring := str "Malformed JSON.".

Definition smartParseJSON (gen : nat -> jsstring) (input : json) : parse_result :=
  let potentialArray := JArr [] in
  let meta := no_fields in
  let '(potentialArray, meta) :=
    match input with
    | JArr _ => (input, meta)
    | JObj _ =>
        let root := if truthy (get input (str "exam"))
                    then match get input (str "exam") with Some e => e | None => input end
                    else input in
        (candidate_array root potentialArray, extract_meta root)
    | _ => (potentialArray, meta)
    end in
  if negb (truthy (Some potentialArray)) || negb (is_array (Some potentialArray)) then
    mkParseResult [] no_fields (Some structure_error)
  else
    match potentialArray with
    | JArr items =>
        match parse_items gen 0 items with
        | Returned questions => mkParseResult questions meta None
        | Thrown => mkParseResult [] no_fields (Some malformed_error)
        end
    | _ => mkParseResult [] no_fields (Some malformed_error)
    end.

(** ** The JSON editor *)

(** [JSON.parse(jsonCode)]: a value, or a syntax error with its message. *)
Inductive parsed : Type :=
| Parsed (v : json)
| SyntaxError (message : jsstring).

Definition or_else {A : Type} (a b : option A) : option A :=
  match a with Some _ => a | None => b end.

(** [{ ...prev, ...meta }] *)
Definition spread {num : Type} (prev meta : PartialExam num) : PartialExam num :=
  {| e_id := or_else (e_id meta) (e_id prev);
     e_title := or_else (e_title meta) (e_title prev);
     e_description := or_else (e_description meta) (e_description prev);
     e_durationMinutes := or_else (e_durationMinutes meta) (e_durationMinutes prev);
     e_questionCount := or_else (e_questionCount meta) (e_questionCount prev);
     e_questions := or_else (e_questions meta) (e_questions prev);
     e_totalMarks := or_else (e_totalMarks meta) (e_totalMarks prev);
     e_difficulty := or_else (e_difficulty meta) (e_difficulty prev);
     e_scheduledDate := or_else (e_scheduledDate meta) (e_scheduledDate prev);
     e_isPublished := or_else (e_isPublished meta) (e_isPublished prev);
     e_maxAttempts := or_else (e_maxAttempts meta) (e_maxAttempts prev);
     e_shuffleQuestions := or_else (e_shuffleQuestions meta) (e_shuffleQuestions prev);
     e_negativeMarking := or_else (e_negativeMarking meta) (e_negativeMarking prev);
     e_targetClass := or_else (e_targetClass meta) (e_targetClass prev);
     e_targetDivision := or_else (e_targetDivision meta) (e_targetDivision prev) |}.

Definition set_questions {num : Type} (e : PartialExam num) (qs : option (list Question))
  : PartialExam num :=
  {| e_id := e_id e; e_title := e_title e; e_description := e_description e;
     e_durationMinutes := e_durationMinutes e; e_questionCount := e_questionCount e;
     e_questions := qs;
     e_totalMarks := e_totalMarks e; e_difficulty := e_difficulty e;
     e_scheduledDate := e_scheduledDate e; e_isPublished := e_isPublished e;
     e_maxAttempts := e_maxAttempts e; e_shuffleQuestions := e_shuffleQuestions e;
     e_negativeMarking := e_negativeMarking e; e_targetClass := e_targetClass e;
     e_targetDivision := e_targetDivision e |}.

(** The state that the handlers of the data tab act on. *)
Record editor : Type := mkEditor {
  exam : PartialExam jsnumber;
  jsonError : option jsstring;
  alerts : list jsstring
}.

Definition handleApplyJson (gen : nat -> jsstring) (code : parsed) (st : editor) : editor :=
  match code with
  | Parsed v =>
      let r := smartParseJSON gen v in
      match error r with
      | Some (c :: e) => mkEditor (exam st) (Some (c :: e)) (alerts st)
      | _ =>
          let prev := exam st in
          mkEditor
            (set_questions (spread prev (meta r))
               (match questions r with
                | _ :: _ => Some (questions r)
                | [] => e_questions prev
                end))
            None
            (alerts st ++ [str "JSON applied successfully!"])
      end
  | SyntaxError message =>
      mkEditor (exam st) (Some (str "Invalid JSON syntax: " ++ message)) (alerts st)
  end.

(** The export projection, read back: the value of
    [JSON.parse(JSON.stringify(exportData))], for an exam whose numeric
    fields hold integers.  A property that is [undefined] is left out by
    [JSON.stringify]. *)
Definition property (k : string) (v : option json) : list (jsstring * json) :=
  match v with Some x => [(str k, x)] | None => [] end.

Definition export_question (q : Question) : json :=
  JObj (property "text" (Some (JStr (q_text q)))
        ++ property "type" (Some (JStr (type_name (q_type q))))
        ++ property "options" (Some (JArr (map JStr (q_options q))))
        ++ property "correctAnswer" (Some (JNum (q_correctAnswer q)))
        ++ property "correctAnswerText" (option_map JStr (q_correctAnswerText q))).

Definition export_exam (e : PartialExam Z) : json :=
  JObj (property "title" (option_map JStr (e_title e))
        ++ property "description" (option_map JStr (e_description e))
        ++ property "difficulty" (e_difficulty e)
        ++ property "durationMinutes" (option_map JNum (e_durationMinutes e))
        ++ property "maxAttempts" (option_map JNum (e_maxAttempts e))
        ++ property "shuffleQuestions" (option_map JBool (e_shuffleQuestions e))
        ++ property "negativeMarking" (option_map JNum (e_negativeMarking e))
        ++ property "targetClass" (option_map JStr (e_targetClass e))
        ++ property "targetDivision" (option_map JStr (e_targetDivision e))
        ++ property "questions"
             (option_map (fun qs => JArr (map export_question qs)) (e_questions e))).

(** ** The question editor: [changeType] *)

(** A question object some of whose properties may be missing, as
    [{ ...qs[idx], type }] is when [qs[idx]] is [undefined]. *)
Record question_object : Type := mkObject {
  o_id : option jsstring;
  o_type : option QuestionType;
  o_text : option jsstring;
  o_options : option (list jsstring);
  o_correctAnswer : option Z;
  o_correctAnswerText : option jsstring
}.

(** [{ ...q }] *)
Definition spread_question (q : option Question) : question_object :=
  match q with
  | Some q =>
      mkObject (Some (q_id q)) (Some (q_type q)) (Some (q_text q)) (Some (q_options q))
               (Some (q_correctAnswer q)) (q_correctAnswerText q)
  | None => mkObject None None None None None None
  end.

(** [qs[idx] = q] on an array: past the end the array grows, and the
    slots in between are holes ([None]). *)
Fixpoint array_set {A : Type} (qs : list (option A)) (idx : nat) (q : A)
  : list (option A) :=
  match idx, qs with
  | O, [] => [Some q]
  | O, _ :: rest => Some q :: rest
  | S i, [] => None :: array_set [] i q
  | S i, x :: rest => x :: array_set rest i q
  end.

Definition changeType (idx : nat) (type : QuestionType) (prev_questions : list Question)
  : list (option question_object) :=
  let qs := map (fun q => Some (spread_question (Some q))) prev_questions in
  let q := spread_question (nth_error prev_questions idx) in
  let q := mkObject (o_id q) (Some type) (o_text q) (o_options q) (o_correctAnswer q)
                    (o_correctAnswerText q) in
  let q :=
    match type with
    | TrueFalse =>
        mkObject (o_id q) (o_type q) (o_text q) (Some [str "True"; str "False"])
                 (Some 0%Z) (o_correctAnswerText q)
    | ShortAnswer =>
        mkObject (o_id q) (o_type q) (o_text q) (Some []) (o_correctAnswer q) (Some [])
    | MultipleChoice =>
        mkObject (o_id q) (o_type q) (o_text q) (Some [[]; []; []; []])
                 (Some 0%Z) (o_correctAnswerText q)
    end in
  array_set qs idx q.

(** ** Results *)

Record Result : Type := mkResult {
  r_id : jsstring;
  r_examId : jsstring;
  r_studentId : jsstring;
  r_score : Q;
  r_totalMarks : Q;
  (** [parseDate(submittedAt)?.getTime()]: milliseconds, [None] when
      [parseDate] gives [null] *)
  r_submittedAt : option Z;
  r_answers : list Z
}.

(** A number that a division may yield. *)
Inductive jsreal : Type :=
| NaN
| Infinity (positive : bool)
| Finite (q : Q).

(** [a / b] *)
Definition divide (a b : Q) : jsreal :=
  if Qeq_bool b 0 then
    match Qcompare a 0 with
    | Eq => NaN
    | Gt => Infinity true
    | Lt => Infinity false
    end
  else Finite (a / b)%Q.

(** [x * c] for a positive constant [c] *)
Definition times (x : jsreal) (c : Q) : jsreal :=
  match x with Finite q => Finite (q * c)%Q | _ => x end.

(** [Math.round(x)]: the nearest integer, halves going up. *)
Definition Math_round (x : jsreal) : jsreal :=
  match x with
  | Finite q => Finite (inject_Z (Qfloor (q + (1 # 2))%Q))
  | _ => x
  end.

(** [x >= c] *)
Definition at_least (x : jsreal) (c : Q) : bool :=
  match x with
  | NaN => false
  | Infinity positive => positive
  | Finite q => Qle_bool c q
  end.

(** The row of the results table. *)
Definition percentage (r : Result) : jsreal :=
  Math_round (times (divide (r_score r) (r_totalMarks r)) 100).
Definition isPassed (r : Result) : bool := at_least (percentage r) 50.

(** The pass count of the summary and the colour of the score in the
    review window: [(score / totalMarks) >= 0.5]. *)
Definition passes_by_ratio (r : Result) : bool :=
  at_least (divide (r_score r) (r_totalMarks r)) (1 # 2).

Definition passedCount (filteredResults : list Result) : nat :=
  List.length (filter passes_by_ratio filteredResults).

(** *** Attempt numbering *)

(** [parseDate(r.submittedAt)?.getTime() || 0] *)
Definition time_of (r : Result) : Z :=
  match r_submittedAt r with Some t => t | None => 0%Z end.

(** [Array.prototype.sort] is stable: here by insertion from the right,
    a result going in front of the first one that is not earlier, so that
    results of equal time keep the order in which they arrived. *)
Fixpoint insert_by_time (r : Result) (sorted : list Result) : list Result :=
  match sorted with
  | [] => [r]
  | x :: rest =>
      if Z.leb (time_of r) (time_of x) then r :: sorted
      else x :: insert_by_time r rest
  end.

Fixpoint sort_by_time (l : list Result) : list Result :=
  match l with
  | [] => []
  | r :: rest => insert_by_time r (sort_by_time rest)
  end.

(** [findIndex]: [-1] when nothing is found. *)
Fixpoint findIndex {A : Type} (f : A -> bool) (l : list A) : Z :=
  match l with
  | [] => (-1)%Z
  | x :: rest =>
      if f x then 0%Z
      else let i := findIndex f rest in if Z.eqb i (-1) then (-1)%Z else (i + 1)%Z
  end.

Definition same_attempts (selected r : Result) : bool :=
  jsstring_eqb (r_studentId r) (r_studentId selected)
  && jsstring_eqb (r_examId r) (r_examId selected).

Definition studentExamResults (results : list Result) (selected : Result) : list Result :=
  sort_by_time (filter (same_attempts selected) results).

Definition attemptNumber (results : list Result) (selected : Result) : Z :=
  (findIndex (fun r => jsstring_eqb (r_id r) (r_id selected))
             (studentExamResults results selected) + 1)%Z.

Definition totalAttempts (results : list Result) (selected : Result) : Z :=
  Z.of_nat (List.length (studentExamResults results selected)).

(** *** The answer key breakdown *)

Record verdict : Type := mkVerdict {
  studentAnswerIdx : option Z;      (* [None]: [undefined] *)
  isCorrect : bool;
  isSkipped : bool
}.

Definition review_question (answers : list Z) (idx : nat) (q : Question) : verdict :=
  let studentAnswerIdx := nth_error answers idx in
  {| studentAnswerIdx := studentAnswerIdx;
     isCorrect :=
       match studentAnswerIdx with
       | Some a => Z.eqb a (q_correctAnswer q)
       | None => false
       end;
     isSkipped :=
       match studentAnswerIdx with
       | Some a => Z.eqb a (-1)
       | None => true
       end |}.

Fixpoint review_from (answers : list Z) (idx : nat) (qs : list Question) : list verdict :=
  match qs with
  | [] => []
  | q :: rest => review_question answers idx q :: review_from answers (S idx) rest
  end.

(** [reviewExam.questions.map((q, idx) => ...)] *)
Definition review (answers : list Z) (qs : list Question) : list verdict :=
  review_from answers 0 qs.

(** ** The replacements as one-pass scanners

    Each of the six replacements turns whole runs of ASCII digits into
    glyphs, and whether a run is turned depends on the one or two code
    units in front of it.  The scanners below say so directly; they are
    proved equal to the [replace_all] of the patterns and carry the
    proofs about the formatter. *)

Definition is_digit_opt (c : option char) : bool :=
  match c with Some x => is_digit x | None => false end.

Definition starts_with_digit (s : jsstring) : bool := is_digit_opt (hd_error s).

Definition glyph_of (table : jsstring) (d : char) : char :=
  nth (N.to_nat (d - 48)%N) table d.

(** What stands in front of a digit run: the unit two places before its
    first digit, then the unit just before it. *)
Definition context := option char -> option char -> bool.

(** The head is kept: the run after a context accepted by [ctx] is turned
    into glyphs.  [conv] tells whether the run being read is turned. *)
Fixpoint scan_keep (ctx : context) (g : char -> char) (p2 p1 : option char)
    (conv : bool) (s : jsstring) : jsstring :=
  match s with
  | [] => []
  | c :: rest =>
      if is_digit c then
        let conv' := if is_digit_opt p1 then conv else ctx p2 p1 in
        (if conv' then g c else c) :: scan_keep ctx g p1 (Some c) conv' rest
      else c :: scan_keep ctx g p1 (Some c) false rest
  end.

(** The head is dropped (the caret and the underscore). *)
Fixpoint scan_drop (head : char -> bool) (g : char -> char) (conv : bool)
    (s : jsstring) : jsstring :=
  match s with
  | [] => []
  | c :: rest =>
      if is_digit c then (if conv then g c else c) :: scan_drop head g conv rest
      else if (head c && starts_with_digit rest)%bool then scan_drop head g true rest
      else c :: scan_drop head g false rest
  end.

(** [f] holds of the context of every digit run of [s], read after [p2 p1]. *)
Fixpoint all_runs (f : context) (p2 p1 : option char) (s : jsstring) : bool :=
  match s with
  | [] => true
  | c :: rest =>
      ((if (is_digit c && negb (is_digit_opt p1))%bool then f p2 p1 else true)
       && all_runs f p1 (Some c) rest)%bool
  end.

(** A pattern [\b?X(\d+)] with a kept one-unit head. *)
Definition kept_pattern (lb : option char -> char -> bool) (head : char -> bool)
    (glyphs : jsstring -> jsstring) : pattern :=
  fun prev s =>
    match s with
    | c :: _ => if lb prev c then head_then_digits head true glyphs s else None
    | [] => None
    end.

Definition ctx_of (lb : option char -> char -> bool) (head : char -> bool) : context :=
  fun p2 p1 => match p1 with Some c => (head c && lb p2 c)%bool | None => false end.

Definition head_opt (head : char -> bool) : context :=
  fun _ p1 => match p1 with Some c => head c | None => false end.

Definition no_lookbehind : option char -> char -> bool := fun _ _ => true.
Definition boundary_before : option char -> char -> bool :=
  fun prev c => xorb (is_word_opt prev) (is_word c).

Definition upper_opt (c : option char) : bool :=
  match c with Some x => is_upper x | None => false end.

(** The context of [/([A-Z][a-z]?)(\d+)/]. *)
Definition element_ctx : context := fun p2 p1 =>
  match p1 with
  | Some c =>
      (is_upper c
       || (is_lower c && match p2 with Some b => is_upper b | None => false end))%bool
  | None => false
  end.

(** A lowercase letter with a digit or a non-word unit (or nothing) before it. *)
Definition loose_variable_ctx : context := fun p2 p1 =>
  match p1 with
  | Some c => (is_lower c && (negb (is_word_opt p2) || is_digit_opt p2))%bool
  | None => false
  end.

(** A lowercase letter with a digit before it. *)
Definition digit_lower_ctx : context := fun p2 p1 =>
  match p1 with
  | Some c => (is_lower c && is_digit_opt p2)%bool
  | None => false
  end.

(** [s] contains a digit, a lowercase letter and a digit in a row: [\d[a-z]\d]. *)
Fixpoint digit_lower_digit (s : jsstring) : bool :=
  match s with
  | a :: t =>
      (match t with
       | b :: c :: _ => is_digit a && is_lower b && is_digit c
       | _ => false
       end || digit_lower_digit t)%bool
  | [] => false
  end.

(** One unit of a context may have been a digit that is a glyph by now. *)
Definition glyphed (g : char -> char) (a a' : option char) : Prop :=
  a' = a \/ exists d, a = Some d /\ is_digit d = true /\ a' = Some (g d).

(** A context that does not start to hold when a digit in it becomes a glyph. *)
Definition steady (g : char -> char) (q : context) : Prop :=
  forall p2 p2' p1, glyphed g p2 p2' -> q p2' p1 = true -> q p2 p1 = true.

(** No digit run of [s] stands after a context accepted by [q]. *)
Definition settled (q : context) (s : jsstring) : Prop :=
  all_runs (fun a b => negb (q a b)) None None s = true.

Definition caret_ctx : context := head_opt is_caret.
Definition underscore_ctx : context := head_opt is_underscore.
Definition subscript_ctx : context := ctx_of no_lookbehind is_subscript.
Definition superscript_ctx : context := ctx_of no_lookbehind is_superscript_range.
Definition variable_ctx : context := ctx_of boundary_before is_lower.


(** ** Notions used by the statements *)

(** A field after [{ ...prev, ...meta }]: the metadata's value where it
    has one, the previous value otherwise. *)
Definition merged {A : Type} (meta prev now : option A) : Prop :=
  (forall x, meta = Some x -> now = Some x) /\ (meta = None -> now = prev).

(** What the round trip is compared on, identifiers left out. *)
Definition content (q : Question)
  : jsstring * QuestionType * list jsstring * Z * option jsstring :=
  (q_text q, q_type q, q_options q, q_correctAnswer q, q_correctAnswerText q).

(** The same without [correctAnswerText]. *)
Definition core (q : Question) : jsstring * QuestionType * list jsstring * Z :=
  (q_text q, q_type q, q_options q, q_correctAnswer q).

(** A question that the importer takes back as it is: text and options
    that the formatter leaves alone, and options that fit the type. *)
Definition portable (q : Question) : Prop :=
  formatScientificText (q_text q) = q_text q /\
  Forall (fun o => formatScientificText o = o) (q_options q) /\
  (q_type q = MultipleChoice -> 2 <= List.length (q_options q)) /\
  (q_type q = TrueFalse -> q_options q = [str "True"; str "False"]).

(** Handed in at the same time or before. *)
Definition not_later (a b : Result) : Prop := (time_of a <= time_of b)%Z.

(** The results of the same student and exam as [selected]. *)
Definition attempts_of (results : list Result) (selected : Result) : list Result :=
  filter (same_attempts selected) results.

(** How many attempts of the same student and exam were handed in
    strictly before [selected]. *)
Definition earlier_attempts (results : list Result) (selected : Result) : nat :=
  List.length
    (filter (fun r => Z.ltb (time_of r) (time_of selected)) (attempts_of results selected)).

(** No two attempts of the same student and exam bear the same time. *)
Definition distinct_times (results : list Result) (selected : Result) : Prop :=
  forall r r', In r (attempts_of results selected) -> In r' (attempts_of results selected) ->
               time_of r = time_of r' -> r = r'.


(** ** Sample inputs *)

Definition sample_ids : nat -> jsstring := fun n => str "id" ++ index_key n.

Definition one_option_record : json :=
  JObj [(str "question", JStr (str "Pick"));
        (str "choices", JArr [JStr (str "only")])].

Definition true_false_record : json :=
  JObj [(str "prompt", JStr (str "Is it?"));
        (str "type", JStr (str "TF question: true or false"));
        (str "options", JArr [JStr (str "yes"); JStr (str "no"); JStr (str "maybe")])].

(** [{"questions":[{"question":"2+2?","type":"multiple-choice",
    "options":["3","4","5"],"correctAnswer":1}]}] *)
Definition scenario_input : json :=
  JObj [(str "questions",
         JArr [JObj [(str "question", JStr (str "2+2?"));
                     (str "type", JStr (str "multiple-choice"));
                     (str "options", JArr [JStr (str "3"); JStr (str "4"); JStr (str "5")]);
                     (str "correctAnswer", JNum 1)]])].

(** [[{"text":"Q","type":5}]]: the type is a number. *)
Definition numeric_type_input : json :=
  JArr [JObj [(str "text", JStr (str "Q")); (str "type", JNum 5)]].

Definition water_record : json :=
  JObj [(str "question", JStr (str "Formula of water?"));
        (str "type", JStr (str "short-answer"));
        (str "answer", JStr (str "H2O"))].

Definition title_only : json := JObj [(str "title", JStr (str "Quiz"))].

Definition kept_question : Question :=
  mkQuestion (str "k1") ShortAnswer (str "Capital of France?") [] 0 (Some (str "Paris")).

Definition draft : editor :=
  mkEditor
    (mkPartialExam None (Some (str "Old")) (Some []) (Some (Num 60)) None
       (Some [kept_question]) (Some (Num 100)) (Some (JStr (str "Medium")))
       (Some []) (Some false) (Some (Num 1)) (Some false) (Some (Num 0))
       (Some []) (Some []))
    None [].

Definition one_option_question : Question :=
  mkQuestion (str "q1") MultipleChoice (str "Pick") [[]; []; []; []] 0 (Some []).

Definition water_question : Question :=
  mkQuestion (str "q1") ShortAnswer (str "Formula of water?") [] 0
             (Some [72; 8322; 79]%N).

(** 49.75 marks out of 100, as negative marking by quarters can give. *)
Definition near_miss : Result :=
  mkResult (str "r1") (str "exam1") (str "student1") (199 # 4) (100 # 1)
           (Some 1700000000000%Z) [].

(** Three attempts of one student at one exam, and a result of another
    student, in the order in which they arrived. *)
Definition first_attempt : Result :=
  mkResult (str "a1") (str "exam1") (str "student1") (3 # 1) (10 # 1) (Some 1000%Z) [0%Z].
Definition second_attempt : Result :=
  mkResult (str "a2") (str "exam1") (str "student1") (6 # 1) (10 # 1) (Some 2000%Z) [1%Z].
Definition third_attempt : Result :=
  mkResult (str "a3") (str "exam1") (str "student1") (9 # 1) (10 # 1) (Some 3000%Z) [1%Z].
Definition other_result : Result :=
  mkResult (str "b1") (str "exam1") (str "student2") (5 # 1) (10 # 1) (Some 1500%Z) [].
Definition tied_attempt : Result :=
  mkResult (str "a4") (str "exam1") (str "student1") (4 # 1) (10 # 1) (Some 1000%Z) [].
Definition arrived_results : list Result :=
  [third_attempt; other_result; first_attempt; second_attempt].

(** An exam with one multiple-choice question that is left with a single
    option, and an exam with one short-answer question. *)
Definition single_option_question : Question :=
  mkQuestion (str "k2") MultipleChoice (str "Pick one") [str "A"] 0 (Some []).

Definition exam_of (qs : list Question) : PartialExam Z :=
  mkPartialExam (Some (str "e1")) (Some (str "Quiz")) (Some []) (Some 60%Z) (Some 1%Z)
    (Some qs) (Some 100%Z) (Some (JStr (str "Medium"))) None (Some false)
    (Some 1%Z) (Some false) (Some 0%Z) (Some []) (Some []).

Definition portable_question : Question :=
  mkQuestion (str "k3") MultipleChoice (str "2+2?") [str "3"; str "4"] 1 None.

(** ** Further notions about formatted text *)

(** A unit accepted by [p] stands directly before an ASCII digit. *)
Fixpoint followed_by_digit (p : char -> bool) (s : jsstring) : bool :=
  match s with
  | a :: t => (p a && starts_with_digit t) || followed_by_digit p t
  | [] => false
  end.

(** The digit that a glyph of the two tables stands for; any other unit
    is itself. *)
Definition unglyph (c : char) : char :=
  if is_subscript c then (c - 8272)%N
  else if char_eqb c 8304 then 48%N
  else if char_eqb c 185 then 49%N
  else if char_eqb c 178 then 50%N
  else if char_eqb c 179 then 51%N
  else if in_range 8308 8313 c then (c - 8256)%N
  else c.

(** A text with its carets and underscores taken out and its glyphs read
    as the digits they stand for. *)
Definition plain_text (s : jsstring) : jsstring :=
  map unglyph (filter (fun c => negb (is_caret c || is_underscore c)) s).

(** ** Further notions about the normalizer *)

(** [typeof item === 'object' && item !== null] *)
Definition is_record (item : json) : bool :=
  match item with JObj _ | JArr _ => true | _ => false end.

(** The [type] of a record is truthy and is not a string. *)
Definition unusable_type (item : json) : bool :=
  truthy (get item (str "type"))
  && match get item (str "type") with Some (JStr _) => false | _ => true end.

(** The array that [smartParseJSON] maps over, and the metadata it
    returns with the questions. *)
Definition candidate_items (input : json) : list json :=
  match input with
  | JArr items => items
  | JObj _ =>
      let root := if truthy (get input (str "exam"))
                  then match get input (str "exam") with Some e => e | None => input end
                  else input in
      match candidate_array root (JArr []) with JArr items => items | _ => [] end
  | _ => []
  end.

Definition found_meta (input : json) : PartialExam jsnumber :=
  match input with
  | JObj _ =>
      extract_meta (if truthy (get input (str "exam"))
                    then match get input (str "exam") with Some e => e | None => input end
                    else input)
  | _ => no_fields
  end.

(** ** The data tab: importing a file *)

(** [handleFileUpload], from the moment the file has been read:
    [JSON.parse(raw)] has given [code].  An imported list is appended to
    the questions of the exam. *)
Definition handleFileUpload (gen : nat -> jsstring) (code : parsed) (st : editor) : editor :=
  match code with
  | Parsed v =>
      let r := smartParseJSON gen v in
      match error r with
      | Some (c :: e) => mkEditor (exam st) (jsonError st) (alerts st ++ [c :: e])
      | _ =>
          match questions r with
          | _ :: _ =>
              let prev := exam st in
              mkEditor
                (set_questions (spread prev (meta r))
                   (Some (match e_questions prev with Some qs => qs | None => [] end
                          ++ questions r)))
                (jsonError st)
                (alerts st
                 ++ [str "Imported "
                     ++ number_to_string (Z.of_nat (List.length (questions r)))
                     ++ str " questions."])
          | [] => mkEditor (exam st) (jsonError st) (alerts st ++ [str "No questions found."])
          end
      end
  | SyntaxError _ => mkEditor (exam st) (jsonError st) (alerts st ++ [str "Invalid JSON file"])
  end.

(** ** The settings tab: numeric inputs *)

(** White space and line terminators, as [parseInt] skips them. *)
Definition is_space (c : char) : bool :=
  existsb (char_eqb c)
    [9; 10; 11; 12; 13; 32; 160; 5760; 8232; 8233; 8239; 8287; 12288; 65279]%N
  || in_range 8192 8202 c.

Fixpoint skip_spaces (s : jsstring) : jsstring :=
  match s with
  | c :: t => if is_space c then skip_spaces t else s
  | [] => []
  end.

(** The value of a digit in the given radix. *)
Definition digit_in (radix : N) (c : char) : option N :=
  let v :=
    if is_digit c then Some (c - 48)%N
    else if in_range 97 122 c then Some (c - 87)%N
    else if in_range 65 90 c then Some (c - 55)%N
    else None in
  match v with
  | Some n => if N.ltb n radix then Some n else None
  | None => None
  end.

(** The longest prefix of digits: how many there are and what they read. *)
Fixpoint read_digits (radix : N) (count acc : N) (s : jsstring) : N * N :=
  match s with
  | c :: t =>
      match digit_in radix c with
      | Some n => read_digits radix (count + 1) (acc * radix + n) t
      | None => (count, acc)
      end
  | [] => (count, acc)
  end.

(** [parseInt(val)] without a radix; [None] is [NaN]. *)
Definition parseInt (val : jsstring) : option Z :=
  let s := skip_spaces val in
  let '(negative, s) :=
    match s with
    | c :: t => if char_eqb c 45 then (true, t) else if char_eqb c 43 then (false, t)
                else (false, s)
    | [] => (false, s)
    end in
  let '(radix, s) :=
    match s with
    | z :: x :: t =>
        if char_eqb z 48 && (char_eqb x 120 || char_eqb x 88) then (16%N, t) else (10%N, s)
    | _ => (10%N, s)
    end in
  match read_digits radix 0 0 s with
  | (0%N, _) => None
  | (_, n) => Some (if negative then (- Z.of_N n)%Z else Z.of_N n)
  end.

(** The fields that the numeric inputs of the settings tab write. *)
Inductive numeric_field : Type := DurationMinutes | TotalMarks | MaxAttempts.

Definition set_numeric (field : numeric_field) (n : jsnumber) (e : PartialExam jsnumber)
  : PartialExam jsnumber :=
  {| e_id := e_id e; e_title := e_title e; e_description := e_description e;
     e_durationMinutes :=
       match field with DurationMinutes => Some n | _ => e_durationMinutes e end;
     e_questionCount := e_questionCount e;
     e_questions := e_questions e;
     e_totalMarks := match field with TotalMarks => Some n | _ => e_totalMarks e end;
     e_difficulty := e_difficulty e;
     e_scheduledDate := e_scheduledDate e; e_isPublished := e_isPublished e;
     e_maxAttempts := match field with MaxAttempts => Some n | _ => e_maxAttempts e end;
     e_shuffleQuestions := e_shuffleQuestions e;
     e_negativeMarking := e_negativeMarking e; e_targetClass := e_targetClass e;
     e_targetDivision := e_targetDivision e |}.

(** [handleNumInput(field, val)] *)
Definition handleNumInput (field : numeric_field) (val : jsstring)
    (prev : PartialExam jsnumber) : PartialExam jsnumber :=
  let num := parseInt val in
  set_numeric field (Num (match num with Some n => n | None => 0%Z end)) prev.

(** ** The builder tab and the deletion of a question *)

(** The state that the handlers of the builder act on. *)
Record manager : Type := mkManager {
  currentExam : PartialExam jsnumber;
  selectedQuestionIndex : nat;
  questionToDeleteIndex : option nat
}.

(** [l.splice(i, 1)] *)
Fixpoint remove_at {A : Type} (i : nat) (l : list A) : list A :=
  match i, l with
  | _, [] => []
  | O, _ :: t => t
  | S j, x :: t => x :: remove_at j t
  end.

(** [l.splice(i, 0, x)]: past the end the element goes last. *)
Fixpoint insert_at {A : Type} (i : nat) (x : A) (l : list A) : list A :=
  match i, l with
  | O, _ => x :: l
  | S j, [] => [x]
  | S j, y :: t => y :: insert_at j x t
  end.

(** [l[i] = x] for an index inside the array. *)
Fixpoint replace_at {A : Type} (i : nat) (x : A) (l : list A) : list A :=
  match i, l with
  | _, [] => []
  | O, _ :: t => x :: t
  | S j, y :: t => y :: replace_at j x t
  end.

Definition with_questions (m : manager) (qs : list Question) : manager :=
  mkManager (set_questions (currentExam m) (Some qs)) (selectedQuestionIndex m)
            (questionToDeleteIndex m).

(** [handleAdd]; [id] is what [generateId()] gives. *)
Definition handleAdd (id : jsstring) (m : manager) : manager :=
  let newQ := mkQuestion id MultipleChoice [] [[]; []; []; []] 0 None in
  let qs := match e_questions (currentExam m) with Some qs => qs | None => [] end
            ++ [newQ] in
  mkManager (set_questions (currentExam m) (Some qs)) (List.length qs - 1)
            (questionToDeleteIndex m).

(** The handlers below read [qs[idx].options] or [q.text]: they throw
    when the exam has no question list or has no question at the index. *)
Definition on_question (m : manager) (idx : nat) (f : Question -> list Question -> manager)
  : outcome manager :=
  match e_questions (currentExam m) with
  | Some qs =>
      match nth_error qs idx with
      | Some q => Returned (f q qs)
      | None => Thrown
      end
  | None => Thrown
  end.

Definition addOption (idx : nat) (m : manager) : outcome manager :=
  on_question m idx (fun q qs =>
    with_questions m
      (replace_at idx
         (mkQuestion (q_id q) (q_type q) (q_text q) (q_options q ++ [[]])
                     (q_correctAnswer q) (q_correctAnswerText q)) qs)).

Definition removeOption (qIdx oIdx : nat) (m : manager) : outcome manager :=
  on_question m qIdx (fun q qs =>
    let opts := remove_at oIdx (q_options q) in
    with_questions m
      (replace_at qIdx
         (mkQuestion (q_id q) (q_type q) (q_text q) opts
                     (if Z.geb (q_correctAnswer q) (Z.of_nat (List.length opts))
                      then 0%Z else q_correctAnswer q)
                     (q_correctAnswerText q)) qs)).

Definition cloneQuestion (id : jsstring) (idx : nat) (m : manager) : outcome manager :=
  on_question m idx (fun q qs =>
    let newQ := mkQuestion id (q_type q) (q_text q ++ str " (Copy)") (q_options q)
                           (q_correctAnswer q) (q_correctAnswerText q) in
    mkManager (set_questions (currentExam m) (Some (insert_at (idx + 1) newQ qs)))
              (idx + 1) (questionToDeleteIndex m)).

(** The bin of the builder: [onDelete(selectedIndex)]. *)
Definition onDelete (m : manager) : manager :=
  mkManager (currentExam m) (selectedQuestionIndex m) (Some (selectedQuestionIndex m)).

(** [deleteQuestion], run when the deletion is confirmed. *)
Definition deleteQuestion (m : manager) : manager :=
  match questionToDeleteIndex m with
  | Some d =>
      let newQs :=
        remove_at d (match e_questions (currentExam m) with Some qs => qs | None => [] end) in
      mkManager (set_questions (currentExam m) (Some newQs))
                (if Nat.leb d (selectedQuestionIndex m) && Nat.ltb 0 (selectedQuestionIndex m)
                 then selectedQuestionIndex m - 1 else selectedQuestionIndex m)
                None
  | None => m
  end.

(** [onReorder(newOrder)]: the selection follows the identifier of the
    selected question. *)
Definition onReorder (newOrder : list Question) (m : manager) : manager :=
  let selectedId :=
    match e_questions (currentExam m) with
    | Some qs => option_map q_id (nth_error qs (selectedQuestionIndex m))
    | None => None
    end in
  let selected :=
    match selectedId with
    | Some (c :: rest) =>
        let newIdx := findIndex (fun q => jsstring_eqb (q_id q) (c :: rest)) newOrder in
        if Z.eqb newIdx (-1) then selectedQuestionIndex m else Z.to_nat newIdx
    | _ => selectedQuestionIndex m
    end in
  mkManager (set_questions (currentExam m) (Some newOrder)) selected
            (questionToDeleteIndex m).

(** ** The results manager: display results, filters and summary *)

(** The fields of a user profile that the results manager reads; [None]
    is [null] or [undefined]. *)
Record UserProfile : Type := mkUserProfile {
  displayName : option jsstring;
  email : option jsstring;
  assignedClass : option jsstring;
  assignedDivision : option jsstring
}.

(** A result as the table shows it: the stored result and the fields
    that the merge with the profiles and the filters read.  [isHidden]
    is a boolean from the moment the result is fetched
    ([doc.data().isHidden || false]). *)
Record ExtendedResult : Type := mkExtendedResult {
  stored : Result;
  examTitle : option jsstring;
  studentName : option jsstring;
  studentEmail : option jsstring;
  isHidden : bool;
  studentClass : option jsstring;
  studentDivision : option jsstring
}.

(** [a || b] on strings that may be missing: the empty string is falsy. *)
Definition string_or (a b : option jsstring) : option jsstring :=
  match a with Some (_ :: _) => a | _ => b end.

(** [userProfile?.field] *)
Definition profile_field (field : UserProfile -> option jsstring)
    (userProfile : option UserProfile) : option jsstring :=
  match userProfile with Some u => field u | None => None end.

(** The callback of [rawResults.map] in the merge with the profiles. *)
Definition merge_result (usersMap : jsstring -> option UserProfile) (r : ExtendedResult)
  : ExtendedResult :=
  let userProfile := usersMap (r_studentId (stored r)) in
  let resolvedName :=
    string_or (string_or (profile_field displayName userProfile) (studentName r))
              (Some (str "Unknown Student")) in
  let resolvedEmail :=
    string_or (string_or (profile_field email userProfile) (studentEmail r))
              (Some (str "No Email")) in
  {| stored := stored r;
     examTitle := examTitle r;
     studentName := resolvedName;
     studentEmail := resolvedEmail;
     isHidden := isHidden r;
     studentClass :=
       string_or (profile_field assignedClass userProfile) (Some (str "Unassigned"));
     studentDivision := string_or (profile_field assignedDivision userProfile) (Some []) |}.

Definition results (usersMap : jsstring -> option UserProfile)
    (rawResults : list ExtendedResult) : list ExtendedResult :=
  map (merge_result usersMap) rawResults.

(** The state of the search box, of the three selects and of the
    visibility toggle. *)
Record filters : Type := mkFilters {
  searchTerm : jsstring;
  examFilter : jsstring;
  classFilter : jsstring;
  divisionFilter : jsstring;
  showHidden : bool
}.

(** [s || ''] *)
Definition text_of (s : option jsstring) : jsstring :=
  match s with Some t => t | None => [] end.

(** [choice === 'all' || value === choice] *)
Definition selected_by (choice : jsstring) (value : option jsstring) : bool :=
  jsstring_eqb choice (str "all")
  || match value with Some v => jsstring_eqb v choice | None => false end.

(** The callback of [results.filter].  [lower_case] is
    [String.prototype.toLowerCase]. *)
Definition matches (lower_case : jsstring -> jsstring) (f : filters) (r : ExtendedResult)
  : bool :=
  let searchLower := lower_case (searchTerm f) in
  let nameMatch := includes (lower_case (text_of (studentName r))) searchLower in
  let emailMatch := includes (lower_case (text_of (studentEmail r))) searchLower in
  let titleMatch := includes (lower_case (text_of (examTitle r))) searchLower in
  let idMatch := includes (lower_case (r_studentId (stored r))) searchLower in
  let matchesSearch := nameMatch || emailMatch || titleMatch || idMatch in
  let matchesExam := selected_by (examFilter f) (examTitle r) in
  let matchesClass := selected_by (classFilter f) (studentClass r) in
  let matchesDivision := selected_by (divisionFilter f) (studentDivision r) in
  let matchesVisibility := if showHidden f then true else negb (isHidden r) in
  matchesSearch && matchesExam && matchesClass && matchesDivision && matchesVisibility.

(** The filtered results, before they are sorted. *)
Definition filtered (lower_case : jsstring -> jsstring) (f : filters)
    (results : list ExtendedResult) : list ExtendedResult :=
  filter (matches lower_case f) results.

(** [score / totalMarks] *)
Definition ratio (r : Result) : jsreal := divide (r_score r) (r_totalMarks r).

(** [a + b] *)
Definition jsreal_add (a b : jsreal) : jsreal :=
  match a, b with
  | NaN, _ | _, NaN => NaN
  | Infinity s, Infinity s' => if Bool.eqb s s' then Infinity s else NaN
  | Infinity s, Finite _ => Infinity s
  | Finite _, Infinity s => Infinity s
  | Finite x, Finite y => Finite (x + y)%Q
  end.

(** [x / n] for a count [n] that is not 0 *)
Definition over (x : jsreal) (n : nat) : jsreal :=
  match x with Finite q => Finite (q / inject_Z (Z.of_nat n))%Q | _ => x end.

(** [a > b] *)
Definition greater_than (a b : jsreal) : bool :=
  match a, b with
  | NaN, _ | _, NaN => false
  | Infinity s, Infinity s' => s && negb s'
  | Infinity s, Finite _ => s
  | Finite _, Infinity s => negb s
  | Finite x, Finite y => negb (Qle_bool x y)
  end.

Definition totalResults (filteredResults : list Result) : nat :=
  List.length filteredResults.

Definition avgScore (filteredResults : list Result) : jsreal :=
  if Nat.ltb 0 (totalResults filteredResults) then
    times (over (fold_left (fun acc r => jsreal_add acc (ratio r)) filteredResults
                   (Finite 0))
                (totalResults filteredResults)) 100
  else Finite 0.

Definition passRate (filteredResults : list Result) : Q :=
  if Nat.ltb 0 (totalResults filteredResults) then
    (inject_Z (Z.of_nat (passedCount filteredResults))
     / inject_Z (Z.of_nat (totalResults filteredResults)) * 100)%Q
  else 0%Q.

(** The [reduce] that finds the top performer; [None] is [null]. *)
Definition topPerformer (filteredResults : list Result) : option Result :=
  fold_left
    (fun prev current =>
       if greater_than (ratio current)
            (match prev with Some p => ratio p | None => Finite (-1) end)
       then Some current else prev)
    filteredResults None.

(** A display result shows a name, an email address and a class, and
    has a division. *)
Definition labelled (r : ExtendedResult) : bool :=
  match studentName r, studentEmail r, studentClass r, studentDivision r with
  | Some (_ :: _), Some (_ :: _), Some (_ :: _), Some _ => true
  | _, _, _, _ => false
  end.

(** A result with marks between 0 and a total that is positive. *)
Definition in_marks (r : Result) : Prop :=
  (0 <= r_score r)%Q /\ (r_score r <= r_totalMarks r)%Q /\ (0 < r_totalMarks r)%Q.

(** *** The exam titles of the filter *)

(** The order of [Array.prototype.sort] without a comparator: strings by
    their code units, [undefined] last. *)
Fixpoint code_unit_leb (a b : jsstring) : bool :=
  match a, b with
  | [], _ => true
  | _ :: _, [] => false
  | x :: a', y :: b' =>
      if N.ltb x y then true else if N.ltb y x then false else code_unit_leb a' b'
  end.

Definition title_leb (a b : option jsstring) : bool :=
  match a, b with
  | _, None => true
  | None, Some _ => false
  | Some x, Some y => code_unit_leb x y
  end.

Definition title_eqb (a b : option jsstring) : bool :=
  match a, b with
  | Some x, Some y => jsstring_eqb x y
  | None, None => true
  | _, _ => false
  end.

(** [Array.from(new Set(titles))]: the first occurrence of each title, in
    the order of the list. *)
Fixpoint distinct_titles (titles : list (option jsstring)) : list (option jsstring) :=
  match titles with
  | [] => []
  | t :: rest => t :: filter (fun u => negb (title_eqb u t)) (distinct_titles rest)
  end.

Fixpoint insert_title (t : option jsstring) (sorted : list (option jsstring))
  : list (option jsstring) :=
  match sorted with
  | [] => [t]
  | x :: rest => if title_leb t x then t :: sorted else x :: insert_title t rest
  end.

Fixpoint sort_titles (l : list (option jsstring)) : list (option jsstring) :=
  match l with
  | [] => []
  | t :: rest => insert_title t (sort_titles rest)
  end.

Definition uniqueExams (results : list ExtendedResult) : list (option jsstring) :=
  sort_titles (distinct_titles (map examTitle results)).

(** ** Further notions and sample inputs *)

(** The shape that a question of each type has when it leaves the
    normalizer. *)
Definition well_shaped (q : Question) : bool :=
  match q_type q with
  | TrueFalse =>
      match q_options q with
      | [a; b] => jsstring_eqb a (str "True") && jsstring_eqb b (str "False")
      | _ => false
      end
      && match q_correctAnswerText q with Some [] => true | _ => false end
  | MultipleChoice =>
      Nat.leb 2 (List.length (q_options q))
      && match q_correctAnswerText q with Some [] => true | _ => false end
  | ShortAnswer => match q_correctAnswerText q with Some _ => true | None => false end
  end.

(** [[7, {"text":"H2O?","type":"tf"}, "x", {"prompt":"Name it","type":"short"}]] *)
Definition mixed_input : json :=
  JArr [JNum 7;
        JObj [(str "text", JStr (str "H2O?")); (str "type", JStr (str "tf"))];
        JStr (str "x");
        JObj [(str "prompt", JStr (str "Name it")); (str "type", JStr (str "short"))]].

Definition four_option_question : Question :=
  mkQuestion (str "m1") MultipleChoice (str "2+2?")
    [str "3"; str "4"; str "5"; str "6"] 1 None.

(** A builder with two questions, the second one selected. *)
Definition builder_state : manager :=
  mkManager
    (mkPartialExam None (Some (str "Quiz")) None None None
       (Some [kept_question; four_option_question]) None None None None None None None
       None None)
    1 None.

Definition five_option_state : manager :=
  with_questions builder_state
    [kept_question;
     mkQuestion (str "m1") MultipleChoice (str "2+2?")
       [str "3"; str "4"; str "5"; str "6"; []] 1 None].

Definition copied_question : Question :=
  mkQuestion (str "c1") MultipleChoice (str "2+2? (Copy)")
    [str "3"; str "4"; str "5"; str "6"] 1 None.

Definition cloned_state : manager :=
  mkManager
    (set_questions (currentExam builder_state)
       (Some [kept_question; four_option_question; copied_question]))
    2 None.

(** The exam of the editor when its numeric fields hold the integers of
    [e]. *)
Definition with_numbers (e : PartialExam Z) : PartialExam jsnumber :=
  {| e_id := e_id e; e_title := e_title e; e_description := e_description e;
     e_durationMinutes := option_map Num (e_durationMinutes e);
     e_questionCount := option_map Num (e_questionCount e);
     e_questions := e_questions e;
     e_totalMarks := option_map Num (e_totalMarks e);
     e_difficulty := e_difficulty e;
     e_scheduledDate := e_scheduledDate e; e_isPublished := e_isPublished e;
     e_maxAttempts := option_map Num (e_maxAttempts e);
     e_shuffleQuestions := e_shuffleQuestions e;
     e_negativeMarking := option_map Num (e_negativeMarking e);
     e_targetClass := e_targetClass e;
     e_targetDivision := e_targetDivision e |}.

(** Two display results of one exam, the second one hidden. *)
Definition shown_results : list ExtendedResult :=
  [mkExtendedResult first_attempt (Some (str "Quiz")) (Some (str "Ada"))
     (Some (str "ada@example.org")) false (Some (str "Grade 10")) (Some (str "A"));
   mkExtendedResult other_result (Some (str "Quiz")) (Some (str "Bob")) None true
     (Some (str "Unassigned")) (Some [])].

(** * Theorems *)

(** ** Code units *)

Lemma is_digit_cases (d : char) :
  is_digit d = true ->
  (d = 48 \/ d = 49 \/ d = 50 \/ d = 51 \/ d = 52 \/
   d = 53 \/ d = 54 \/ d = 55 \/ d = 56 \/ d = 57)%N.
Proof.
  unfold is_digit, in_range. rewrite andb_true_iff, !N.leb_le. lia.
Qed.

Ltac digit_cases d H :=
  let K := fresh in
  pose proof (is_digit_cases d H) as K;
  repeat (destruct K as [K | K]; [subst d | ]); [ .. | subst d].

Lemma sub_of_not_word d : is_digit d = true -> is_word (glyph_of subscripts d) = false.
Proof. intros H. digit_cases d H; reflexivity. Qed.

Lemma sup_of_not_word d : is_digit d = true -> is_word (glyph_of superscripts d) = false.
Proof. intros H. digit_cases d H; reflexivity. Qed.

Lemma not_word_not_digit c : is_word c = false -> is_digit c = false.
Proof. unfold is_word. intros H. destruct (is_digit c); [discriminate | reflexivity]. Qed.

Lemma not_word_not_upper c : is_word c = false -> is_upper c = false.
Proof.
  unfold is_word. intros H. destruct (is_upper c); [| reflexivity].
  rewrite orb_true_r in H. discriminate.
Qed.

Lemma digit_not_upper c : is_digit c = true -> is_upper c = false.
Proof. intros H. digit_cases c H; reflexivity. Qed.

Lemma digit_not_lower c : is_digit c = true -> is_lower c = false.
Proof. intros H. digit_cases c H; reflexivity. Qed.

Lemma lower_is_word c : is_lower c = true -> is_word c = true.
Proof. unfold is_word. intros ->. rewrite orb_true_r. reflexivity. Qed.

Lemma lower_not_digit c : is_lower c = true -> is_digit c = false.
Proof.
  intros H. destruct (is_digit c) eqn:E; [| reflexivity].
  rewrite (digit_not_lower c E) in H. discriminate.
Qed.

Lemma upper_not_digit c : is_upper c = true -> is_digit c = false.
Proof.
  intros H. destruct (is_digit c) eqn:E; [| reflexivity].
  rewrite (digit_not_upper c E) in H. discriminate.
Qed.

Lemma caret_not_digit c : is_caret c = true -> is_digit c = false.
Proof. unfold is_caret, char_eqb. intros H. apply N.eqb_eq in H. subst. reflexivity. Qed.

Lemma underscore_not_digit c : is_underscore c = true -> is_digit c = false.
Proof. unfold is_underscore, char_eqb. intros H. apply N.eqb_eq in H. subst. reflexivity. Qed.

Lemma subscript_not_digit c : is_subscript c = true -> is_digit c = false.
Proof.
  unfold is_subscript, is_digit, in_range. rewrite andb_true_iff, !N.leb_le.
  intros [H1 H2]. apply andb_false_iff. right. apply N.leb_gt. lia.
Qed.

Lemma superscript_range_not_digit c : is_superscript_range c = true -> is_digit c = false.
Proof.
  unfold is_superscript_range, is_digit, in_range. rewrite andb_true_iff, !N.leb_le.
  intros [H1 H2]. apply andb_false_iff. right. apply N.leb_gt. lia.
Qed.

(** ** Digit runs *)

Lemma glyphs_of_digits (table : jsstring) (ds : jsstring) :
  List.length table = 10 ->
  Forall (fun d => is_digit d = true) ds ->
  glyphs_of table ds = map (glyph_of table) ds.
Proof.
  intros Hlen. induction 1 as [| d ds Hd _ IH]; [reflexivity |].
  unfold glyphs_of in *. cbn [flat_map map]. rewrite IH. clear IH.
  unfold parseInt_char, glyph_of. rewrite Hd.
  assert (Hk : N.to_nat (d - 48)%N < List.length table).
  { rewrite Hlen. digit_cases d Hd; cbn; lia. }
  destruct (nth_error table (N.to_nat (d - 48)%N)) as [g |] eqn:E.
  - rewrite (nth_error_nth _ _ d E). reflexivity.
  - apply nth_error_None in E. lia.
Qed.

Lemma span_digits_spec (s ds r : jsstring) :
  span_digits s = (ds, r) ->
  s = ds ++ r /\ Forall (fun d => is_digit d = true) ds /\ starts_with_digit r = false.
Proof.
  revert ds r. induction s as [| c s IH]; intros ds r H; cbn in H.
  - inversion H. subst. repeat split. constructor.
  - destruct (is_digit c) eqn:Ec.
    + destruct (span_digits s) as [ds' r'] eqn:E. inversion H; subst.
      destruct (IH ds' r eq_refl) as (-> & Hall & Hr).
      repeat split; [constructor; assumption | assumption].
    + inversion H; subst. repeat split; [constructor |].
      unfold starts_with_digit. cbn. exact Ec.
Qed.

Lemma span_digits_empty (s r : jsstring) :
  span_digits s = ([], r) -> starts_with_digit s = false.
Proof.
  intros H. destruct (span_digits_spec s _ _ H) as (-> & _ & Hr). exact Hr.
Qed.

Lemma span_digits_nonempty (s : jsstring) d ds r :
  span_digits s = (d :: ds, r) -> starts_with_digit s = true.
Proof.
  intros H. destruct (span_digits_spec s _ _ H) as (-> & Hall & _).
  inversion Hall; subst. assumption.
Qed.

Lemma last_cons (d x : char) (ds : jsstring) : last (d :: ds) x = last ds d.
Proof.
  revert d x. induction ds as [| e ds IH]; intros d x; [reflexivity |].
  change (last (d :: e :: ds) x) with (last (e :: ds) x).
  rewrite (IH e x), (IH e d). reflexivity.
Qed.

Lemma last_digit (ds : jsstring) (d : char) :
  is_digit d = true -> Forall (fun d => is_digit d = true) ds ->
  is_digit (last ds d) = true.
Proof.
  intros Hd Hall. revert d Hd. induction Hall as [| e ds He _ IH]; intros d Hd.
  - exact Hd.
  - rewrite last_cons. apply IH. exact He.
Qed.


(** ** The formatter on the examples of the specification *)

Example format_H2O : formatScientificText (str "H2O") = [72; 8322; 79]%N.
Proof. reflexivity. Qed.
Example format_x_caret_2 : formatScientificText (str "x^2") = [120; 178]%N.
Proof. reflexivity. Qed.
Example format_Ca2_plus : formatScientificText (str "Ca2+") = [67; 97; 8322; 43]%N.
Proof. reflexivity. Qed.
Example format_x2y3 : formatScientificText (str "x2y3") = [120; 178; 121; 51]%N.
Proof. reflexivity. Qed.
Example format_format_x2y3 :
  formatScientificText (formatScientificText (str "x2y3")) = [120; 178; 121; 179]%N.
Proof. reflexivity. Qed.


(** ** The scanners compute the replacements *)

Lemma scan_keep_fresh ctx g p2 p1 conv (s : jsstring) :
  starts_with_digit s = false ->
  scan_keep ctx g p2 p1 conv s = scan_keep ctx g None p1 false s.
Proof.
  destruct s as [| c s]; [reflexivity |].
  unfold starts_with_digit. cbn [hd_error is_digit_opt scan_keep].
  intros ->. reflexivity.
Qed.

Lemma scan_keep_run ctx g (ds r : jsstring) : forall p2 d0,
  Forall (fun d => is_digit d = true) ds ->
  is_digit d0 = true ->
  starts_with_digit r = false ->
  scan_keep ctx g p2 (Some d0) true (ds ++ r)
  = map g ds ++ scan_keep ctx g None (Some (last ds d0)) false r.
Proof.
  induction ds as [| d ds IH]; intros p2 d0 Hall Hd0 Hr.
  - cbn [app map last]. apply scan_keep_fresh. exact Hr.
  - inversion Hall as [| ? ? Hd Hall']; subst.
    cbn [app scan_keep map is_digit_opt]. rewrite Hd, Hd0.
    rewrite (IH (Some d0) d Hall' Hd Hr). rewrite last_cons. reflexivity.
Qed.

Lemma scan_drop_fresh head g conv (s : jsstring) :
  starts_with_digit s = false ->
  scan_drop head g conv s = scan_drop head g false s.
Proof.
  destruct s as [| c s]; [reflexivity |].
  unfold starts_with_digit. cbn [hd_error is_digit_opt scan_drop].
  intros ->. reflexivity.
Qed.

Lemma scan_drop_run head g (ds r : jsstring) :
  Forall (fun d => is_digit d = true) ds ->
  starts_with_digit r = false ->
  scan_drop head g true (ds ++ r) = map g ds ++ scan_drop head g false r.
Proof.
  intros Hall Hr. induction Hall as [| d ds Hd _ IH].
  - cbn [app map]. apply scan_drop_fresh. exact Hr.
  - cbn [app scan_drop map]. rewrite Hd, IH. reflexivity.
Qed.

Lemma replace_go_ext (p q : pattern) :
  (forall prev s, p prev s = q prev s) ->
  forall fuel prev s, replace_go p fuel prev s = replace_go q fuel prev s.
Proof.
  intros Hpq. induction fuel as [| fuel IH]; intros prev s; [reflexivity |].
  destruct s as [| c rest]; [reflexivity |].
  cbn [replace_go]. rewrite Hpq.
  destruct (q prev (c :: rest)); rewrite IH; reflexivity.
Qed.

Lemma head_then_digits_some head keep glyphs (c : char) (rest : jsstring) m :
  head_then_digits head keep glyphs (c :: rest) = Some m ->
  head c = true /\
  exists d ds r, span_digits rest = (d :: ds, r) /\
    m = Found (c :: d :: ds) ((if keep then [c] else []) ++ glyphs (d :: ds)) r.
Proof.
  unfold head_then_digits. destruct (head c); [| discriminate].
  destruct (span_digits rest) as [[| d ds] r]; [discriminate |].
  intros E. split; [reflexivity |]. exists d, ds, r. split; [reflexivity |].
  congruence.
Qed.

Lemma head_then_digits_none head keep glyphs (c : char) (rest : jsstring) :
  head_then_digits head keep glyphs (c :: rest) = None ->
  (head c && starts_with_digit rest)%bool = false.
Proof.
  unfold head_then_digits. destruct (head c); [| reflexivity].
  destruct (span_digits rest) as [[| d ds] r] eqn:Esp; [| discriminate].
  intros _. rewrite (span_digits_empty rest _ Esp). reflexivity.
Qed.

Section KeptHead.

Variable lb : option char -> char -> bool.
Variable head : char -> bool.
Variable table : jsstring.
Hypothesis table_length : List.length table = 10.
Hypothesis head_not_digit : forall c, head c = true -> is_digit c = false.

Lemma replace_go_keep : forall fuel (s : jsstring) p2 p1,
  List.length s <= fuel ->
  (starts_with_digit s = true -> is_digit_opt p1 = false ->
   ctx_of lb head p2 p1 = false) ->
  replace_go (kept_pattern lb head (glyphs_of table)) fuel p1 s
  = scan_keep (ctx_of lb head) (glyph_of table) p2 p1 false s.
Proof.
  induction fuel as [| fuel IH]; intros s p2 p1 Hlen Hpre.
  - destruct s; [reflexivity | cbn in Hlen; lia].
  - destruct s as [| c rest]; [reflexivity |].
    cbn [replace_go].
    destruct (kept_pattern lb head (glyphs_of table) p1 (c :: rest)) as [m |] eqn:E.
    + unfold kept_pattern in E.
      destruct (lb p1 c) eqn:Elb; [| discriminate].
      destruct (head_then_digits_some _ _ _ _ _ _ E) as (Eh & d & ds & r & Esp & ->).
      clear E. cbn [replacement matched after].
      destruct (span_digits_spec rest _ _ Esp) as (-> & Hall & Hr).
      inversion Hall as [| ? ? Hd Hall']; subst.
      rewrite (glyphs_of_digits table _ table_length Hall).
      cbn [scan_keep]. rewrite (head_not_digit c Eh).
      cbn [app scan_keep is_digit_opt]. rewrite Hd, (head_not_digit c Eh).
      assert (Hctx : ctx_of lb head p1 (Some c) = true).
      { unfold ctx_of. rewrite Eh, Elb. reflexivity. }
      rewrite Hctx. rewrite (scan_keep_run _ _ ds r (Some c) d Hall' Hd Hr).
      cbn [map app]. rewrite !last_cons.
      rewrite (IH r None (Some (last ds d))).
      * reflexivity.
      * cbn in Hlen. rewrite length_app in Hlen. lia.
      * intros H. rewrite Hr in H. discriminate.
    + cbn [scan_keep].
      assert (Hnext : starts_with_digit rest = true ->
                      is_digit_opt (Some c) = false ->
                      ctx_of lb head p1 (Some c) = false).
      { intros Hs Hc. unfold ctx_of. unfold kept_pattern in E.
        destruct (lb p1 c); [| apply andb_false_r].
        apply head_then_digits_none in E. rewrite Hs in E.
        rewrite andb_true_r in *. exact E. }
      destruct (is_digit c) eqn:Ec.
      * assert (Hconv : (if is_digit_opt p1 then false else ctx_of lb head p2 p1) = false).
        { destruct (is_digit_opt p1) eqn:Ep; [reflexivity |].
          apply Hpre; [unfold starts_with_digit; cbn; exact Ec | reflexivity]. }
        rewrite Hconv. f_equal. apply IH; [cbn in Hlen; lia | exact Hnext].
      * f_equal. apply IH; [cbn in Hlen; lia | exact Hnext].
Qed.

Lemma replace_all_keep (s : jsstring) :
  replace_all (kept_pattern lb head (glyphs_of table)) s
  = scan_keep (ctx_of lb head) (glyph_of table) None None false s.
Proof.
  unfold replace_all. apply replace_go_keep; [lia |]. reflexivity.
Qed.

End KeptHead.

Section DroppedHead.

Variable head : char -> bool.
Variable table : jsstring.
Hypothesis table_length : List.length table = 10.
Hypothesis head_not_digit : forall c, head c = true -> is_digit c = false.

Lemma replace_go_drop : forall fuel (s : jsstring) prev,
  List.length s <= fuel ->
  replace_go (fun _ => head_then_digits head false (glyphs_of table)) fuel prev s
  = scan_drop head (glyph_of table) false s.
Proof.
  induction fuel as [| fuel IH]; intros s prev Hlen.
  - destruct s; [reflexivity | cbn in Hlen; lia].
  - destruct s as [| c rest]; [reflexivity |].
    cbn [replace_go].
    destruct (head_then_digits head false (glyphs_of table) (c :: rest)) as [m |] eqn:E.
    + destruct (head_then_digits_some _ _ _ _ _ _ E) as (Eh & d & ds & r & Esp & ->).
      clear E. cbn [replacement matched after].
      pose proof (span_digits_nonempty rest _ _ _ Esp) as Hst.
      destruct (span_digits_spec rest _ _ Esp) as (-> & Hall & Hr).
      rewrite (glyphs_of_digits table _ table_length Hall).
      cbn [scan_drop]. rewrite (head_not_digit c Eh), Eh, Hst.
      cbn [andb]. rewrite (scan_drop_run head _ _ _ Hall Hr).
      cbn [app]. rewrite IH; [reflexivity |].
      cbn in Hlen. rewrite length_app in Hlen. lia.
    + cbn [scan_drop].
      destruct (is_digit c) eqn:Ec.
      * f_equal. apply IH. cbn in Hlen; lia.
      * assert (Hno : (head c && starts_with_digit rest)%bool = false).
        { exact (head_then_digits_none _ _ _ _ _ E). }
        rewrite Hno. f_equal. apply IH. cbn in Hlen; lia.
Qed.

Lemma replace_all_drop (s : jsstring) :
  replace_all (fun _ => head_then_digits head false (glyphs_of table)) s
  = scan_drop head (glyph_of table) false s.
Proof. unfold replace_all. apply replace_go_drop. lia. Qed.

End DroppedHead.


Lemma element_digits_some prev (c : char) (rest : jsstring) m :
  element_digits prev (c :: rest) = Some m ->
  is_upper c = true /\
  ((exists l d ds r, rest = l :: (d :: ds) ++ r /\ is_lower l = true /\
      Forall (fun d => is_digit d = true) (d :: ds) /\ starts_with_digit r = false /\
      m = Found (c :: l :: d :: ds) ([c; l] ++ toSub (d :: ds)) r)
   \/
   (exists d ds r, rest = (d :: ds) ++ r /\
      Forall (fun d => is_digit d = true) (d :: ds) /\ starts_with_digit r = false /\
      m = Found (c :: d :: ds) ([c] ++ toSub (d :: ds)) r)).
Proof.
  unfold element_digits. destruct (is_upper c); [| discriminate].
  intros E. split; [reflexivity |].
  assert (Hplain :
    match span_digits rest with
    | (d :: ds, r) => Some (Found (c :: d :: ds) ([c] ++ toSub (d :: ds)) r)
    | ([], _) => None
    end = Some m ->
    exists d ds r, rest = (d :: ds) ++ r /\
      Forall (fun d => is_digit d = true) (d :: ds) /\ starts_with_digit r = false /\
      m = Found (c :: d :: ds) ([c] ++ toSub (d :: ds)) r).
  { destruct (span_digits rest) as [[| d ds] r] eqn:Esp; [discriminate |].
    intros H. destruct (span_digits_spec rest _ _ Esp) as (Hrest & Hall & Hr).
    exists d, ds, r. repeat split; try assumption. congruence. }
  destruct rest as [| l t']; [right; apply Hplain; exact E |].
  destruct (is_lower l) eqn:El; [| right; apply Hplain; exact E].
  destruct (span_digits t') as [[| d ds] r] eqn:Esp; [right; apply Hplain; exact E |].
  left. destruct (span_digits_spec t' _ _ Esp) as (Ht & Hall & Hr).
  exists l, d, ds, r. subst t'. repeat split; try assumption. congruence.
Qed.

Lemma element_digits_none prev (c : char) (rest : jsstring) :
  element_digits prev (c :: rest) = None ->
  is_upper c = true ->
  starts_with_digit rest = false /\
  (forall l d t, rest = l :: d :: t -> is_lower l = true -> is_digit d = false).
Proof.
  unfold element_digits. intros E Hc. rewrite Hc in E. split.
  - destruct rest as [| l t']; [reflexivity |].
    destruct (is_lower l) eqn:El.
    + unfold starts_with_digit. cbn. apply lower_not_digit. exact El.
    + destruct (span_digits (l :: t')) as [[| d ds] r] eqn:Esp; [| discriminate].
      exact (span_digits_empty _ _ Esp).
  - intros l d t -> Hl. rewrite Hl in E.
    destruct (span_digits (d :: t)) as [[| e ds] r] eqn:Esp.
    + pose proof (span_digits_empty _ _ Esp) as H. exact H.
    + discriminate.
Qed.

Lemma replace_go_element : forall fuel (s : jsstring) p2 p1,
  List.length s <= fuel ->
  (starts_with_digit s = true -> is_digit_opt p1 = false -> element_ctx p2 p1 = false) ->
  (forall l d t, s = l :: d :: t -> is_lower l = true -> is_digit d = true ->
                 upper_opt p1 = false) ->
  replace_go element_digits fuel p1 s
  = scan_keep element_ctx (glyph_of subscripts) p2 p1 false s.
Proof.
  induction fuel as [| fuel IH]; intros s p2 p1 Hlen Hpre Hpre2.
  - destruct s; [reflexivity | cbn in Hlen; lia].
  - destruct s as [| c rest]; [reflexivity |].
    cbn [replace_go].
    destruct (element_digits p1 (c :: rest)) as [m |] eqn:E.
    + destruct (element_digits_some _ _ _ _ E) as (Hc & [H | H]).
      * destruct H as (l & d & ds & r & -> & Hl & Hall & Hr & ->).
        cbn [replacement matched after]. unfold toSub.
        rewrite (glyphs_of_digits subscripts _ eq_refl Hall).
        inversion Hall as [| ? ? Hd Hall']; subst.
        cbn [scan_keep]. rewrite (upper_not_digit c Hc).
        cbn [app scan_keep is_digit_opt].
        rewrite (lower_not_digit l Hl), Hd.
        assert (Hctx : element_ctx (Some c) (Some l) = true).
        { unfold element_ctx. rewrite Hl, Hc. apply orb_true_r. }
        rewrite Hctx. rewrite (scan_keep_run _ _ ds r (Some l) d Hall' Hd Hr).
        cbn [map app]. rewrite !last_cons.
        rewrite (IH r None (Some (last ds d))).
        -- reflexivity.
        -- cbn in Hlen. rewrite length_app in Hlen. lia.
        -- intros H. rewrite Hr in H. discriminate.
        -- intros l0 d0 t0 -> _ _. cbn.
           apply digit_not_upper. apply last_digit; assumption.
      * destruct H as (d & ds & r & -> & Hall & Hr & ->).
        cbn [replacement matched after]. unfold toSub.
        rewrite (glyphs_of_digits subscripts _ eq_refl Hall).
        inversion Hall as [| ? ? Hd Hall']; subst.
        cbn [scan_keep]. rewrite (upper_not_digit c Hc).
        cbn [app scan_keep is_digit_opt]. rewrite Hd, (upper_not_digit c Hc).
        assert (Hctx : element_ctx p1 (Some c) = true).
        { unfold element_ctx. rewrite Hc. reflexivity. }
        rewrite Hctx. rewrite (scan_keep_run _ _ ds r (Some c) d Hall' Hd Hr).
        cbn [map app]. rewrite !last_cons.
        rewrite (IH r None (Some (last ds d))).
        -- reflexivity.
        -- cbn in Hlen. rewrite length_app in Hlen. lia.
        -- intros H. rewrite Hr in H. discriminate.
        -- intros l0 d0 t0 -> _ _. cbn.
           apply digit_not_upper. apply last_digit; assumption.
    + cbn [scan_keep].
      assert (Hnext : starts_with_digit rest = true ->
                      is_digit_opt (Some c) = false ->
                      element_ctx p1 (Some c) = false).
      { intros Hs Hcd. unfold element_ctx.
        destruct (is_upper c) eqn:Hc.
        - destruct (element_digits_none _ _ _ E Hc) as [H _].
          rewrite H in Hs. discriminate.
        - cbn [orb]. destruct (is_lower c) eqn:Hl; [| reflexivity].
          cbn [andb]. destruct rest as [| d t]; [discriminate |].
          apply (Hpre2 c d t eq_refl Hl). exact Hs. }
      assert (Hnext2 : forall l d t, rest = l :: d :: t -> is_lower l = true ->
                         is_digit d = true -> upper_opt (Some c) = false).
      { intros l d t -> Hl Hd. cbn. destruct (is_upper c) eqn:Hc; [| reflexivity].
        destruct (element_digits_none _ _ _ E Hc) as [_ H].
        rewrite (H l d t eq_refl Hl) in Hd. discriminate. }
      destruct (is_digit c) eqn:Ec.
      * assert (Hconv : (if is_digit_opt p1 then false else element_ctx p2 p1) = false).
        { destruct (is_digit_opt p1) eqn:Ep; [reflexivity |].
          apply Hpre; [unfold starts_with_digit; cbn; exact Ec | reflexivity]. }
        rewrite Hconv. f_equal. apply IH; [cbn in Hlen; lia | exact Hnext | exact Hnext2].
      * f_equal. apply IH; [cbn in Hlen; lia | exact Hnext | exact Hnext2].
Qed.

(** The six replacements of the formatter, as scanners. *)

Lemma caret_rule (s : jsstring) :
  replace_all caret_digits s = scan_drop is_caret (glyph_of superscripts) false s.
Proof. apply (replace_all_drop is_caret superscripts eq_refl caret_not_digit). Qed.

Lemma underscore_rule (s : jsstring) :
  replace_all underscore_digits s = scan_drop is_underscore (glyph_of subscripts) false s.
Proof. apply (replace_all_drop is_underscore subscripts eq_refl underscore_not_digit). Qed.

Lemma subscript_rule (s : jsstring) :
  replace_all subscript_digits s
  = scan_keep (ctx_of no_lookbehind is_subscript) (glyph_of subscripts) None None false s.
Proof.
  rewrite <- (replace_all_keep no_lookbehind is_subscript subscripts eq_refl
                subscript_not_digit).
  unfold replace_all. apply replace_go_ext. intros prev [| c t]; reflexivity.
Qed.

Lemma superscript_rule (s : jsstring) :
  replace_all superscript_digits s
  = scan_keep (ctx_of no_lookbehind is_superscript_range) (glyph_of superscripts)
      None None false s.
Proof.
  rewrite <- (replace_all_keep no_lookbehind is_superscript_range superscripts eq_refl
                superscript_range_not_digit).
  unfold replace_all. apply replace_go_ext. intros prev [| c t]; reflexivity.
Qed.

Lemma element_rule (s : jsstring) :
  replace_all element_digits s
  = scan_keep element_ctx (glyph_of subscripts) None None false s.
Proof.
  unfold replace_all. apply replace_go_element; [lia | reflexivity | reflexivity].
Qed.

Lemma variable_rule (s : jsstring) :
  replace_all variable_digits s
  = scan_keep (ctx_of boundary_before is_lower) (glyph_of superscripts) None None false s.
Proof.
  rewrite <- (replace_all_keep boundary_before is_lower superscripts eq_refl
                lower_not_digit).
  unfold replace_all. apply replace_go_ext. intros prev [| c t]; [| reflexivity].
  unfold variable_digits, kept_pattern, word_boundary. cbn.
  destruct (xorb (is_word_opt prev) false); reflexivity.
Qed.


(** ** Digit runs and their contexts *)

Lemma all_runs_impl (f f' : context) :
  (forall a b, f a b = true -> f' a b = true) ->
  forall (s : jsstring) p2 p1, all_runs f p2 p1 s = true -> all_runs f' p2 p1 s = true.
Proof.
  intros Hff. induction s as [| c s IH]; intros p2 p1 H; [reflexivity |].
  cbn [all_runs] in *. apply andb_true_iff in H. destruct H as [H1 H2].
  apply andb_true_iff. split; [| apply IH; exact H2].
  destruct (is_digit c && negb (is_digit_opt p1))%bool; [apply Hff; exact H1 | reflexivity].
Qed.

Lemma all_runs_true (f : context) :
  (forall a b, f a b = true) ->
  forall (s : jsstring) p2 p1, all_runs f p2 p1 s = true.
Proof.
  intros Hf. induction s as [| c s IH]; intros p2 p1; [reflexivity |].
  cbn [all_runs]. rewrite IH, andb_true_r.
  destruct (is_digit c && negb (is_digit_opt p1))%bool; [apply Hf | reflexivity].
Qed.

(** A replacement whose context occurs nowhere changes nothing. *)

Lemma scan_keep_id ctx g : forall (s : jsstring) p2 p1,
  all_runs (fun a b => negb (ctx a b)) p2 p1 s = true ->
  scan_keep ctx g p2 p1 false s = s.
Proof.
  induction s as [| c s IH]; intros p2 p1 H; [reflexivity |].
  cbn [all_runs] in H. apply andb_true_iff in H. destruct H as [H1 H2].
  cbn [scan_keep]. destruct (is_digit c) eqn:Ec.
  - destruct (is_digit_opt p1) eqn:Ep.
    + f_equal. apply IH. exact H2.
    + cbn [negb andb] in H1. apply negb_true_iff in H1. rewrite H1.
      f_equal. apply IH. exact H2.
  - f_equal. apply IH. exact H2.
Qed.

Lemma scan_drop_id head g : forall (s : jsstring) p2 p1,
  all_runs (fun a b => negb (head_opt head a b)) p2 p1 s = true ->
  scan_drop head g false s = s.
Proof.
  induction s as [| c s IH]; intros p2 p1 H; [reflexivity |].
  cbn [all_runs] in H. apply andb_true_iff in H. destruct H as [H1 H2].
  cbn [scan_drop]. destruct (is_digit c) eqn:Ec.
  - f_equal. apply (IH p1 (Some c)). exact H2.
  - assert (Hno : (head c && starts_with_digit s)%bool = false).
    { destruct s as [| d s']; [apply andb_false_r |].
      unfold starts_with_digit. cbn [hd_error is_digit_opt].
      destruct (is_digit d) eqn:Ed; [| apply andb_false_r].
      cbn [all_runs is_digit_opt] in H2. rewrite Ed, Ec in H2.
      cbn [negb andb head_opt] in H2. apply andb_true_iff in H2.
      destruct H2 as [H2 _]. apply negb_true_iff in H2. rewrite H2. reflexivity. }
    rewrite Hno. f_equal. apply (IH p1 (Some c)). exact H2.
Qed.

(** After a replacement, a steady context holds in front of a digit run
    only where it held before and the replacement did not apply. *)

Section Steady.

Variable g : char -> char.
Hypothesis glyph_not_digit : forall d, is_digit d = true -> is_digit (g d) = false.
Variable q : context.
Hypothesis q_steady : steady g q.

Lemma glyphed_prev (p1 : option char) (conv : bool) :
  (conv = true -> is_digit_opt p1 = true) ->
  glyphed g p1 (if conv then option_map g p1 else p1).
Proof.
  intros H. destruct conv; [| left; reflexivity].
  destruct p1 as [d |]; [| left; reflexivity].
  right. exists d. repeat split. exact (H eq_refl).
Qed.

Lemma scan_keep_runs ctx : forall (s : jsstring) p2 p1 conv p2' p1',
  (conv = true -> is_digit_opt p1 = true) ->
  p1' = (if conv then option_map g p1 else p1) ->
  (is_digit_opt p1 = false -> glyphed g p2 p2') ->
  all_runs (fun a b => ctx a b || negb (q a b))%bool p2 p1 s = true ->
  all_runs (fun a b => negb (q a b)) p2' p1' (scan_keep ctx g p2 p1 conv s) = true.
Proof.
  induction s as [| c s IH]; intros p2 p1 conv p2' p1' Hconv Hp1 Hp2 H;
    [reflexivity |].
  cbn [all_runs] in H. apply andb_true_iff in H. destruct H as [H1 H2].
  cbn [scan_keep]. destruct (is_digit c) eqn:Ec.
  - destruct (is_digit_opt p1) eqn:Ep.
    + (* inside a run *)
      cbn [all_runs]. apply andb_true_iff. split.
      * destruct conv.
        -- rewrite (glyph_not_digit c Ec). reflexivity.
        -- subst p1'. rewrite Ep, andb_false_r. reflexivity.
      * apply IH; try assumption.
        -- intros _. exact Ec.
        -- destruct conv; reflexivity.
        -- cbn. rewrite Ec. discriminate.
    + (* the first digit of a run *)
      assert (conv = false) as ->.
      { destruct conv; [| reflexivity]. specialize (Hconv eq_refl). discriminate. }
      subst p1'. cbn [negb andb] in H1.
      cbn [all_runs]. apply andb_true_iff. split.
      * destruct (ctx p2 p1) eqn:Ectx.
        -- rewrite (glyph_not_digit c Ec). reflexivity.
        -- rewrite Ec, Ep. cbn [negb andb orb] in *.
           apply negb_true_iff. apply negb_true_iff in H1.
           destruct (q p2' p1) eqn:Eq; [| reflexivity].
           rewrite (q_steady p2 p2' p1 (Hp2 eq_refl) Eq) in H1. discriminate.
      * apply IH; try assumption.
        -- intros _. exact Ec.
        -- destruct (ctx p2 p1); reflexivity.
        -- cbn. rewrite Ec. discriminate.
  - cbn [all_runs]. rewrite Ec. cbn [andb]. apply IH; try assumption.
    + discriminate.
    + reflexivity.
    + intros _. subst p1'. apply glyphed_prev. exact Hconv.
Qed.

Lemma scan_drop_runs head : forall (s : jsstring) p2 p1 conv p2' p1',
  ((conv = true -> is_digit_opt p1 = true) /\
   p1' = (if conv then option_map g p1 else p1) /\
   (is_digit_opt p1 = false -> glyphed g p2 p2') /\
   (starts_with_digit s = true -> is_digit_opt p1 = false ->
    head_opt head p2 p1 = false))
  \/ (conv = true /\ starts_with_digit s = true /\ is_digit_opt p1 = false) ->
  all_runs (fun a b => head_opt head a b || negb (q a b))%bool p2 p1 s = true ->
  all_runs (fun a b => negb (q a b)) p2' p1' (scan_drop head g conv s) = true.
Proof.
  induction s as [| c s IH]; intros p2 p1 conv p2' p1' Hinv H; [reflexivity |].
  cbn [all_runs] in H. apply andb_true_iff in H. destruct H as [H1 H2].
  cbn [scan_drop]. destruct (is_digit c) eqn:Ec.
  - destruct Hinv as [(Hconv & Hp1 & Hp2 & Hhead) | (-> & _ & Ep)].
    + destruct (is_digit_opt p1) eqn:Ep.
      * cbn [all_runs]. apply andb_true_iff. split.
        -- destruct conv.
           ++ rewrite (glyph_not_digit c Ec). reflexivity.
           ++ subst p1'. rewrite Ep, andb_false_r. reflexivity.
        -- apply (IH p1 (Some c)); [| exact H2]. left. repeat split.
           ++ intros _. exact Ec.
           ++ destruct conv; reflexivity.
           ++ cbn. rewrite Ec. discriminate.
           ++ cbn. rewrite Ec. discriminate.
      * assert (conv = false) as ->.
        { destruct conv; [| reflexivity]. specialize (Hconv eq_refl). discriminate. }
        subst p1'. cbn [negb andb] in H1.
        rewrite (Hhead Ec eq_refl) in H1.
        cbn [orb] in H1.
        cbn [all_runs]. apply andb_true_iff. split.
        -- rewrite Ec, Ep. cbn [negb andb].
           apply negb_true_iff. apply negb_true_iff in H1.
           destruct (q p2' p1) eqn:Eq; [| reflexivity].
           rewrite (q_steady p2 p2' p1 (Hp2 eq_refl) Eq) in H1. discriminate.
        -- apply (IH p1 (Some c)); [| exact H2]. left. repeat split.
           ++ discriminate.
           ++ cbn. rewrite Ec. discriminate.
           ++ cbn. rewrite Ec. discriminate.
    + cbn [all_runs]. apply andb_true_iff. split.
      * rewrite (glyph_not_digit c Ec). reflexivity.
      * apply (IH p1 (Some c)); [| exact H2]. left. repeat split.
        -- intros _. exact Ec.
        -- cbn. rewrite Ec. discriminate.
        -- cbn. rewrite Ec. discriminate.
  - assert (Hnormal : (conv = true -> is_digit_opt p1 = true) /\
                      p1' = (if conv then option_map g p1 else p1)).
    { destruct Hinv as [(Hconv & Hp1 & _) | (_ & Hs & _)]; [split; assumption |].
      unfold starts_with_digit in Hs. cbn in Hs. rewrite Ec in Hs. discriminate. }
    destruct Hnormal as [Hconv Hp1].
    destruct (head c && starts_with_digit s)%bool eqn:Eh.
    + apply andb_true_iff in Eh. destruct Eh as [_ Hs].
      apply (IH p1 (Some c)); [| exact H2]. right. repeat split; [exact Hs | exact Ec].
    + cbn [all_runs]. rewrite Ec. cbn [andb].
      apply (IH p1 (Some c)); [| exact H2]. left. repeat split.
      * discriminate.
      * intros _. subst p1'. apply glyphed_prev. exact Hconv.
      * intros Hs _. cbn [head_opt]. rewrite Hs, andb_true_r in Eh. exact Eh.
Qed.

End Steady.


(** ** Steady contexts *)

Lemma sub_of_not_digit d : is_digit d = true -> is_digit (glyph_of subscripts d) = false.
Proof. intros H. apply not_word_not_digit, sub_of_not_word, H. Qed.

Lemma sup_of_not_digit d : is_digit d = true -> is_digit (glyph_of superscripts d) = false.
Proof. intros H. apply not_word_not_digit, sup_of_not_word, H. Qed.

Section SteadyContexts.

Variable g : char -> char.
Hypothesis glyph_not_word : forall d, is_digit d = true -> is_word (g d) = false.

Lemma steady_head head : steady g (head_opt head).
Proof. intros p2 p2' p1 _ H. exact H. Qed.

Lemma steady_no_lookbehind head : steady g (ctx_of no_lookbehind head).
Proof. intros p2 p2' p1 _ H. exact H. Qed.

Lemma steady_element : steady g element_ctx.
Proof.
  intros p2 p2' p1 [-> | (d & -> & Hd & ->)] H; [exact H |].
  destruct p1 as [c |]; [| discriminate]. cbn in *.
  rewrite (not_word_not_upper _ (glyph_not_word d Hd)) in H.
  rewrite andb_false_r, orb_false_r in H. rewrite H. reflexivity.
Qed.

Lemma steady_loose_variable : steady g loose_variable_ctx.
Proof.
  intros p2 p2' p1 [-> | (d & -> & Hd & ->)] H; [exact H |].
  destruct p1 as [c |]; [| discriminate]. cbn in *.
  apply andb_true_iff in H. destruct H as [-> _]. rewrite Hd.
  rewrite orb_true_r. reflexivity.
Qed.

Lemma steady_digit_lower : steady g digit_lower_ctx.
Proof.
  intros p2 p2' p1 [-> | (d & -> & Hd & ->)] H; [exact H |].
  destruct p1 as [c |]; [| discriminate]. cbn in *.
  rewrite (not_word_not_digit _ (glyph_not_word d Hd)), andb_false_r in H.
  discriminate.
Qed.

End SteadyContexts.

(** ** Each replacement keeps what the earlier ones settled *)

Section Settled.

Variable q : context.
Hypothesis steady_sub : steady (glyph_of subscripts) q.
Hypothesis steady_sup : steady (glyph_of superscripts) q.

Lemma settled_drop head g (s : jsstring) :
  (forall d, is_digit d = true -> is_digit (g d) = false) ->
  steady g q ->
  all_runs (fun a b => head_opt head a b || negb (q a b))%bool None None s = true ->
  settled q (scan_drop head g false s).
Proof.
  intros Hg Hq H. unfold settled.
  apply (scan_drop_runs g Hg q Hq head s None None false None None); [| exact H].
  left. repeat split; try discriminate. intros _. left. reflexivity.
Qed.

Lemma settled_keep ctx g (s : jsstring) :
  (forall d, is_digit d = true -> is_digit (g d) = false) ->
  steady g q ->
  all_runs (fun a b => ctx a b || negb (q a b))%bool None None s = true ->
  settled q (scan_keep ctx g None None false s).
Proof.
  intros Hg Hq H. unfold settled.
  apply (scan_keep_runs g Hg q Hq ctx s None None false None None);
    [discriminate | reflexivity | intros _; left; reflexivity | exact H].
Qed.

Lemma settled_weaken (f : context) (s : jsstring) :
  settled q s -> all_runs (fun a b => f a b || negb (q a b))%bool None None s = true.
Proof.
  apply all_runs_impl. intros a b ->. apply orb_true_r.
Qed.

Lemma settled_caret s : settled q s -> settled q (replace_all caret_digits s).
Proof.
  intros H. rewrite caret_rule.
  apply settled_drop; [exact sup_of_not_digit | exact steady_sup |].
  apply settled_weaken, H.
Qed.

Lemma settled_underscore s : settled q s -> settled q (replace_all underscore_digits s).
Proof.
  intros H. rewrite underscore_rule.
  apply settled_drop; [exact sub_of_not_digit | exact steady_sub |].
  apply settled_weaken, H.
Qed.

Lemma settled_subscript s : settled q s -> settled q (replace_all subscript_digits s).
Proof.
  intros H. rewrite subscript_rule.
  apply settled_keep; [exact sub_of_not_digit | exact steady_sub |].
  apply settled_weaken, H.
Qed.

Lemma settled_superscript s : settled q s -> settled q (replace_all superscript_digits s).
Proof.
  intros H. rewrite superscript_rule.
  apply settled_keep; [exact sup_of_not_digit | exact steady_sup |].
  apply settled_weaken, H.
Qed.

Lemma settled_element s : settled q s -> settled q (replace_all element_digits s).
Proof.
  intros H. rewrite element_rule.
  apply settled_keep; [exact sub_of_not_digit | exact steady_sub |].
  apply settled_weaken, H.
Qed.

Lemma settled_variable s : settled q s -> settled q (replace_all variable_digits s).
Proof.
  intros H. rewrite variable_rule.
  apply settled_keep; [exact sup_of_not_digit | exact steady_sup |].
  apply settled_weaken, H.
Qed.

End Settled.

Lemma excluded_context (ctx : context) (s : jsstring) :
  all_runs (fun a b => ctx a b || negb (ctx a b))%bool None None s = true.
Proof. apply all_runs_true. intros a b. apply orb_negb_r. Qed.

(** ** Each replacement settles its own context *)

Lemma caret_settles s : settled caret_ctx (replace_all caret_digits s).
Proof.
  rewrite caret_rule.
  apply settled_drop; [exact sup_of_not_digit | apply steady_head | apply excluded_context].
Qed.

Lemma underscore_settles s : settled underscore_ctx (replace_all underscore_digits s).
Proof.
  rewrite underscore_rule.
  apply settled_drop; [exact sub_of_not_digit | apply steady_head | apply excluded_context].
Qed.

Lemma subscript_settles s : settled subscript_ctx (replace_all subscript_digits s).
Proof.
  rewrite subscript_rule.
  apply settled_keep;
    [exact sub_of_not_digit | apply steady_no_lookbehind | apply excluded_context].
Qed.

Lemma superscript_settles s : settled superscript_ctx (replace_all superscript_digits s).
Proof.
  rewrite superscript_rule.
  apply settled_keep;
    [exact sup_of_not_digit | apply steady_no_lookbehind | apply excluded_context].
Qed.

Lemma element_settles s : settled element_ctx (replace_all element_digits s).
Proof.
  rewrite element_rule.
  apply settled_keep;
    [exact sub_of_not_digit | apply steady_element, sub_of_not_word
    | apply excluded_context].
Qed.

(** The last replacement looks behind the letter, at a unit that it may
    itself turn into a glyph: it settles its context where no letter
    stands between two digits. *)
Lemma variable_settles s :
  settled digit_lower_ctx s -> settled variable_ctx (replace_all variable_digits s).
Proof.
  intros H. rewrite variable_rule.
  assert (Hloose : settled loose_variable_ctx
            (scan_keep variable_ctx (glyph_of superscripts) None None false s)).
  { apply settled_keep;
      [exact sup_of_not_digit | apply steady_loose_variable |].
    revert H. apply all_runs_impl. intros a [c |] Hdl; [| reflexivity].
    unfold digit_lower_ctx, variable_ctx, ctx_of, boundary_before, loose_variable_ctx in *.
    destruct (is_lower c) eqn:El; [| reflexivity].
    rewrite (lower_is_word c El). cbn [andb] in *.
    apply negb_true_iff in Hdl. rewrite Hdl, orb_false_r.
    destruct (is_word_opt a); reflexivity. }
  revert Hloose. apply all_runs_impl. intros a [c |] Hl; [| reflexivity].
  unfold variable_ctx, ctx_of, boundary_before, loose_variable_ctx in *.
  destruct (is_lower c) eqn:El; [| reflexivity].
  rewrite (lower_is_word c El). cbn [andb] in *.
  destruct (is_word_opt a); [reflexivity |]. cbn in Hl. discriminate.
Qed.

Lemma digit_lower_digit_settled : forall (s : jsstring) p2 p1,
  match p2, p1 with
  | Some a, Some b => digit_lower_digit (a :: b :: s)
  | None, Some b => digit_lower_digit (b :: s)
  | _, None => digit_lower_digit s
  end = false ->
  all_runs (fun a b => negb (digit_lower_ctx a b)) p2 p1 s = true.
Proof.
  induction s as [| c s IH]; intros p2 p1 H; [reflexivity |].
  cbn [all_runs]. apply andb_true_iff. split.
  - destruct (is_digit c) eqn:Ec; [| reflexivity].
    destruct p1 as [b |]; [| reflexivity].
    destruct p2 as [a |]; [| cbn; rewrite andb_false_r;
                               destruct (negb (is_digit b)); reflexivity].
    cbn [is_digit_opt digit_lower_ctx andb].
    destruct (negb (is_digit b)); [| reflexivity].
    cbn [digit_lower_digit] in H. rewrite Ec in H.
    apply orb_false_iff in H. destruct H as [H _].
    rewrite andb_true_r in H. rewrite (andb_comm (is_lower b)). rewrite H. reflexivity.
  - apply IH. destruct p1 as [b |].
    + destruct p2 as [a |]; [| exact H].
      cbn [digit_lower_digit] in H. apply orb_false_iff in H. destruct H as [_ H].
      exact H.
    + destruct p2; exact H.
Qed.

(** ** The formatter *)

Lemma formatScientificText_unfold (s : jsstring) :
  formatScientificText s =
  replace_all variable_digits (replace_all element_digits
    (replace_all superscript_digits (replace_all subscript_digits
      (replace_all underscore_digits (replace_all caret_digits s))))).
Proof. destruct s; reflexivity. Qed.

(** A text in which no replacement finds its context is left as it is. *)
Lemma formatScientificText_settled (s : jsstring) :
  settled caret_ctx s -> settled underscore_ctx s -> settled subscript_ctx s ->
  settled superscript_ctx s -> settled element_ctx s -> settled variable_ctx s ->
  formatScientificText s = s.
Proof.
  intros H1 H2 H3 H4 H5 H6. rewrite formatScientificText_unfold.
  rewrite caret_rule, (scan_drop_id is_caret _ s None None H1).
  rewrite underscore_rule, (scan_drop_id is_underscore _ s None None H2).
  rewrite subscript_rule, (scan_keep_id _ _ s None None H3).
  rewrite superscript_rule, (scan_keep_id _ _ s None None H4).
  rewrite element_rule, (scan_keep_id _ _ s None None H5).
  rewrite variable_rule, (scan_keep_id _ _ s None None H6).
  reflexivity.
Qed.


(** C2, as stated: formatting twice equals formatting once, for every
    string.  It does not for "x2y3": the first pass gives "x²y3", the
    digit 2 still being a word character when the letter y is looked at,
    and the second pass gives "x²y³". *)
Lemma formatScientificText_not_idempotent :
  formatScientificText (str "x2y3") = [120; 178; 121; 51]%N /\
  formatScientificText (formatScientificText (str "x2y3")) = [120; 178; 121; 179]%N /\
  formatScientificText (formatScientificText (str "x2y3"))
  <> formatScientificText (str "x2y3").
Proof. repeat split. cbn. discriminate. Qed.

(** C2, amended.  For every string in which no ASCII digit is followed
    by a lowercase ASCII letter that is itself followed by an ASCII digit,
    formatting twice equals formatting once. *)
Theorem formatScientificText_idempotent (s : jsstring) :
  digit_lower_digit s = false ->
  formatScientificText (formatScientificText s) = formatScientificText s.
Proof.
  intros H. apply formatScientificText_settled; rewrite formatScientificText_unfold.
  - apply settled_variable, settled_element, settled_superscript, settled_subscript,
      settled_underscore, caret_settles; apply steady_head.
  - apply settled_variable, settled_element, settled_superscript, settled_subscript,
      underscore_settles; apply steady_head.
  - apply settled_variable, settled_element, settled_superscript, subscript_settles;
      apply steady_no_lookbehind.
  - apply settled_variable, settled_element, superscript_settles;
      apply steady_no_lookbehind.
  - apply settled_variable, element_settles;
      apply steady_element; exact sup_of_not_word.
  - apply variable_settles.
    pose proof (steady_digit_lower _ sub_of_not_word) as Ssub.
    pose proof (steady_digit_lower _ sup_of_not_word) as Ssup.
    apply settled_element; [exact Ssub |].
    apply settled_superscript; [exact Ssup |].
    apply settled_subscript; [exact Ssub |].
    apply settled_underscore; [exact Ssub |].
    apply settled_caret; [exact Ssup |].
    apply (digit_lower_digit_settled s None None). exact H.
Qed.

Lemma formatScientificText_idempotent_witness :
  digit_lower_digit (str "Ca2+ and x^10 in H2SO4") = false /\
  formatScientificText (formatScientificText (str "Ca2+ and x^10 in H2SO4"))
  = formatScientificText (str "Ca2+ and x^10 in H2SO4").
Proof.
  split; [reflexivity |].
  apply (formatScientificText_idempotent (str "Ca2+ and x^10 in H2SO4")).
  reflexivity.
Defined.


(** *** Attempt numbering *)

Lemma jsstring_eqb_eq (a b : jsstring) : jsstring_eqb a b = true <-> a = b.
Proof.
  revert b. induction a as [| x a IH]; intros [| y b]; cbn; split; intros H;
    try reflexivity; try discriminate.
  - apply andb_true_iff in H. destruct H as [Hx Ha].
    apply N.eqb_eq in Hx. apply IH in Ha. congruence.
  - injection H as -> ->. apply andb_true_iff. split.
    + apply N.eqb_refl.
    + apply IH. reflexivity.
Qed.

Lemma jsstring_eqb_refl (a : jsstring) : jsstring_eqb a a = true.
Proof. apply jsstring_eqb_eq. reflexivity. Qed.

Lemma same_attempts_refl (selected : Result) : same_attempts selected selected = true.
Proof. unfold same_attempts. rewrite !jsstring_eqb_refl. reflexivity. Qed.

Lemma insert_by_time_perm (r : Result) (l : list Result) :
  Permutation (insert_by_time r l) (r :: l).
Proof.
  induction l as [| x l IH]; cbn; [reflexivity |].
  destruct (Z.leb (time_of r) (time_of x)); [reflexivity |].
  rewrite IH. apply perm_swap.
Qed.

Lemma sort_by_time_perm (l : list Result) : Permutation (sort_by_time l) l.
Proof.
  induction l as [| r l IH]; cbn; [reflexivity |].
  rewrite insert_by_time_perm. apply perm_skip. exact IH.
Qed.

Lemma insert_by_time_sorted (r : Result) (l : list Result) :
  StronglySorted not_later l -> StronglySorted not_later (insert_by_time r l).
Proof.
  induction 1 as [| x l Hl IH Hx]; cbn.
  - constructor; constructor.
  - destruct (Z.leb (time_of r) (time_of x)) eqn:E.
    + apply Z.leb_le in E. constructor; [constructor; assumption |].
      constructor; [exact E |].
      apply Forall_impl with (P := not_later x); [| exact Hx].
      intros a Ha. unfold not_later in *. lia.
    + apply Z.leb_gt in E. constructor; [exact IH |].
      apply Forall_forall. intros y Hy.
      apply (Permutation_in _ (insert_by_time_perm r l)) in Hy.
      destruct Hy as [<- | Hy]; [unfold not_later; lia |].
      exact (proj1 (Forall_forall _ _) Hx y Hy).
Qed.

Lemma sort_by_time_sorted (l : list Result) : StronglySorted not_later (sort_by_time l).
Proof.
  induction l as [| r l IH]; cbn; [constructor |].
  apply insert_by_time_sorted. exact IH.
Qed.

Lemma filter_perm {A : Type} (f : A -> bool) (l l' : list A) :
  Permutation l l' -> Permutation (filter f l) (filter f l').
Proof.
  induction 1 as [| x l l' _ IH | x y l | l l' l'' _ IH1 _ IH2]; cbn.
  - reflexivity.
  - destruct (f x); [apply perm_skip |]; exact IH.
  - destruct (f x), (f y); try reflexivity. apply perm_swap.
  - etransitivity; eassumption.
Qed.

Lemma findIndex_split {A : Type} (f : A -> bool) (before after : list A) (x : A) :
  Forall (fun y => f y = false) before -> f x = true ->
  findIndex f (before ++ x :: after) = Z.of_nat (List.length before).
Proof.
  intros Hb Hx. induction Hb as [| y before Hy _ IH]; cbn [app findIndex List.length].
  - rewrite Hx. reflexivity.
  - rewrite Hy, IH.
    destruct (Z.eqb (Z.of_nat (List.length before)) (-1)) eqn:E.
    + apply Z.eqb_eq in E. lia.
    + lia.
Qed.

Lemma sorted_split (before after : list Result) (x : Result) :
  StronglySorted not_later (before ++ x :: after) ->
  Forall (fun y => not_later y x) before /\ Forall (not_later x) after.
Proof.
  induction before as [| y before IH]; cbn; intros H.
  - split; [constructor |]. inversion H; assumption.
  - inversion H as [| ? ? Hs Hall]; subst. destruct (IH Hs) as [Hb Ha].
    split; [| exact Ha]. constructor; [| exact Hb].
    apply Forall_app in Hall. destruct Hall as [_ Hall]. inversion Hall; assumption.
Qed.

Lemma filter_none {A : Type} (f : A -> bool) (l : list A) :
  Forall (fun y => f y = false) l -> filter f l = [].
Proof. induction 1 as [| y l Hy _ IH]; cbn; [| rewrite Hy]; auto. Qed.

Lemma filter_all {A : Type} (f : A -> bool) (l : list A) :
  Forall (fun y => f y = true) l -> filter f l = l.
Proof. induction 1 as [| y l Hy _ IH]; cbn; [| rewrite Hy, IH]; auto. Qed.

(** Where the selected result stands among the sorted attempts. *)
Lemma attempt_position (results : list Result) (selected : Result) :
  In selected results ->
  NoDup (map r_id results) ->
  exists before after,
    studentExamResults results selected = before ++ selected :: after /\
    attemptNumber results selected = Z.of_nat (S (List.length before)) /\
    Forall (fun y => not_later y selected /\ y <> selected) before /\
    Forall (not_later selected) after.
Proof.
  intros Hin Hnodup.
  assert (Hperm : Permutation (studentExamResults results selected)
                              (attempts_of results selected)).
  { apply sort_by_time_perm. }
  assert (HinS : In selected (studentExamResults results selected)).
  { apply (Permutation_in _ (Permutation_sym Hperm)).
    apply filter_In. split; [exact Hin | apply same_attempts_refl]. }
  destruct (in_split _ _ HinS) as (before & after & Hsplit).
  assert (HnodupS : NoDup (map r_id (before ++ selected :: after))).
  { rewrite <- Hsplit.
    apply (Permutation_NoDup (l := map r_id (attempts_of results selected))).
    - apply Permutation_map. symmetry. exact Hperm.
    - clear -Hnodup. unfold attempts_of.
      induction results as [| r results IH]; cbn; [constructor |].
      inversion Hnodup as [| ? ? Hnot Hrest]; subst.
      destruct (same_attempts selected r); [| apply IH; exact Hrest].
      cbn. constructor; [| apply IH; exact Hrest].
      intros Hr. apply Hnot. apply in_map_iff in Hr. destruct Hr as (y & Hy & Hyin).
      apply in_map_iff. exists y. split; [exact Hy |].
      apply filter_In in Hyin. tauto. }
  assert (Hids : Forall (fun y => r_id y <> r_id selected) before).
  { rewrite map_app in HnodupS. cbn in HnodupS.
    apply NoDup_remove_2 in HnodupS. apply Forall_forall. intros y Hy Heq.
    apply HnodupS. apply in_or_app. left. rewrite <- Heq. apply in_map. exact Hy. }
  pose proof (sort_by_time_sorted (attempts_of results selected)) as Hsorted.
  fold (studentExamResults results selected) in Hsorted.
  change (sort_by_time (attempts_of results selected))
    with (studentExamResults results selected) in Hsorted.
  rewrite Hsplit in Hsorted. destruct (sorted_split _ _ _ Hsorted) as [Hb Ha].
  exists before, after. split; [exact Hsplit |]. split.
  - unfold attemptNumber. rewrite Hsplit. rewrite findIndex_split.
    + lia.
    + apply Forall_impl with (2 := Hids). intros y Hy.
      destruct (jsstring_eqb (r_id y) (r_id selected)) eqn:E; [| reflexivity].
      apply jsstring_eqb_eq in E. contradiction.
    + apply jsstring_eqb_refl.
  - split; [| exact Ha].
    apply Forall_forall. intros y Hy. split.
    + exact (proj1 (Forall_forall _ _) Hb y Hy).
    + intros ->. exact (proj1 (Forall_forall _ _) Hids selected Hy eq_refl).
Qed.

Lemma attemptNumber_place (results : list Result) (selected : Result) :
  In selected results ->
  NoDup (map r_id results) ->
  (1 <= attemptNumber results selected <= totalAttempts results selected)%Z /\
  nth_error (studentExamResults results selected)
            (Z.to_nat (attemptNumber results selected - 1)) = Some selected.
Proof.
  intros Hin Hnodup.
  destruct (attempt_position results selected Hin Hnodup)
    as (before & after & Hsplit & Hnum & _ & _).
  unfold totalAttempts. rewrite Hnum, Hsplit. split.
  - rewrite length_app. cbn [List.length]. lia.
  - replace (Z.to_nat (Z.of_nat (S (List.length before)) - 1)) with (List.length before)
      by lia.
    rewrite nth_error_app2 by lia. rewrite Nat.sub_diag. reflexivity.
Qed.

Lemma attemptNumber_counts (results : list Result) (selected : Result) :
  In selected results ->
  NoDup (map r_id results) ->
  distinct_times results selected ->
  attemptNumber results selected = Z.of_nat (S (earlier_attempts results selected)).
Proof.
  intros Hin Hnodup Hdistinct.
  destruct (attempt_position results selected Hin Hnodup)
    as (before & after & Hsplit & Hnum & Hb & Ha).
  assert (Hperm : Permutation (studentExamResults results selected)
                              (attempts_of results selected)).
  { apply sort_by_time_perm. }
  rewrite Hnum. f_equal. f_equal. unfold earlier_attempts.
  rewrite <- (Permutation_length
                (filter_perm (fun r => Z.ltb (time_of r) (time_of selected)) _ _ Hperm)).
  rewrite Hsplit, filter_app. cbn [filter]. rewrite Z.ltb_irrefl.
  rewrite (filter_all _ before), (filter_none _ after).
  - rewrite app_nil_r. reflexivity.
  - apply Forall_impl with (2 := Ha). intros y Hy. apply Z.ltb_ge. exact Hy.
  - apply Forall_forall. intros y Hy.
    destruct (proj1 (Forall_forall _ _) Hb y Hy) as [Hle Hne].
    apply Z.ltb_lt. unfold not_later in Hle.
    destruct (Z.eq_dec (time_of y) (time_of selected)) as [Heq |]; [| lia].
    exfalso. apply Hne. apply Hdistinct; [| | exact Heq].
    + apply (Permutation_in _ Hperm). rewrite Hsplit. apply in_or_app. left. exact Hy.
    + apply (Permutation_in _ Hperm). rewrite Hsplit. apply in_or_app. right. left.
      reflexivity.
Qed.

Lemma totalAttempts_counts (results : list Result) (selected : Result) :
  totalAttempts results selected = Z.of_nat (List.length (attempts_of results selected)).
Proof.
  unfold totalAttempts. f_equal. apply Permutation_length, sort_by_time_perm.
Qed.

Lemma counts_arrival_order (results arrived : list Result) (selected : Result) :
  Permutation results arrived ->
  earlier_attempts arrived selected = earlier_attempts results selected /\
  List.length (attempts_of arrived selected) = List.length (attempts_of results selected).
Proof.
  intros Hperm. unfold earlier_attempts, attempts_of. split.
  - apply Permutation_length. apply filter_perm, filter_perm. symmetry. exact Hperm.
  - apply Permutation_length. apply filter_perm. symmetry. exact Hperm.
Qed.

Lemma totalAttempts_arrival_order (results arrived : list Result) (selected : Result) :
  Permutation results arrived ->
  totalAttempts arrived selected = totalAttempts results selected.
Proof.
  intros Hperm. rewrite !totalAttempts_counts.
  rewrite (proj2 (counts_arrival_order results arrived selected Hperm)). reflexivity.
Qed.

Lemma attemptNumber_arrival_order (results arrived : list Result) (selected : Result) :
  In selected results ->
  NoDup (map r_id results) ->
  distinct_times results selected ->
  Permutation results arrived ->
  attemptNumber arrived selected = attemptNumber results selected.
Proof.
  intros Hin Hnodup Hdistinct Hperm.
  destruct (counts_arrival_order results arrived selected Hperm) as [He _].
  rewrite (attemptNumber_counts results selected Hin Hnodup Hdistinct).
  rewrite <- He. apply attemptNumber_counts.
  - apply (Permutation_in _ Hperm). exact Hin.
  - apply (Permutation_NoDup (l := map r_id results));
      [apply Permutation_map; exact Hperm | exact Hnodup].
  - intros r r' Hr Hr'. apply Hdistinct.
    + apply (Permutation_in _ (filter_perm _ _ _ (Permutation_sym Hperm))). exact Hr.
    + apply (Permutation_in _ (filter_perm _ _ _ (Permutation_sym Hperm))). exact Hr'.
Qed.

(** C5.  The attempts of the selected result's student and exam are
    sorted by time of submission; the attempt number is the 1-based
    place of the selected result in that sorted list and the total is the
    number of those attempts.  The total does not depend on the order in
    which the results arrived; where the attempts bear distinct times
    (T1 < T2 < T3), the attempt number is one more than the number of
    earlier attempts and does not depend on that order either. *)
Theorem attempt_numbering (results : list Result) (selected : Result) :
  In selected results ->
  NoDup (map r_id results) ->
  Permutation (studentExamResults results selected) (attempts_of results selected) /\
  StronglySorted not_later (studentExamResults results selected) /\
  (1 <= attemptNumber results selected <= totalAttempts results selected)%Z /\
  nth_error (studentExamResults results selected)
            (Z.to_nat (attemptNumber results selected - 1)) = Some selected /\
  totalAttempts results selected = Z.of_nat (List.length (attempts_of results selected)) /\
  (forall arrived, Permutation results arrived ->
     totalAttempts arrived selected = totalAttempts results selected) /\
  (distinct_times results selected ->
   attemptNumber results selected = Z.of_nat (S (earlier_attempts results selected)) /\
   forall arrived, Permutation results arrived ->
     attemptNumber arrived selected = attemptNumber results selected).
Proof.
  intros Hin Hnodup.
  split; [apply sort_by_time_perm |].
  split; [apply sort_by_time_sorted |].
  destruct (attemptNumber_place results selected Hin Hnodup) as [Hrange Hnth].
  split; [exact Hrange |]. split; [exact Hnth |].
  split; [apply totalAttempts_counts |].
  split; [intros arrived; apply totalAttempts_arrival_order |].
  intros Hdistinct. split; [apply attemptNumber_counts; assumption |].
  intros arrived. apply attemptNumber_arrival_order; assumption.
Qed.


Lemma attempt_numbering_witness :
  In second_attempt arrived_results /\
  NoDup (map r_id arrived_results) /\
  distinct_times arrived_results second_attempt /\
  attemptNumber arrived_results second_attempt = 2%Z /\
  totalAttempts arrived_results second_attempt = 3%Z /\
  attemptNumber [first_attempt; second_attempt; third_attempt; other_result]
                second_attempt = 2%Z /\
  totalAttempts [first_attempt; second_attempt; third_attempt; other_result]
                second_attempt = 3%Z.
Proof.
  assert (Hin : In second_attempt arrived_results) by (cbn; tauto).
  assert (Hnodup : NoDup (map r_id arrived_results)).
  { cbn. repeat constructor; cbn; intuition discriminate. }
  assert (Hdistinct : distinct_times arrived_results second_attempt).
  { intros r r' Hr Hr' Ht. cbn in Hr, Hr'.
    destruct Hr as [<- | [<- | [<- | []]]]; destruct Hr' as [<- | [<- | [<- | []]]];
      try reflexivity; cbn in Ht; discriminate. }
  assert (Hperm : Permutation arrived_results
                    [first_attempt; second_attempt; third_attempt; other_result]).
  { unfold arrived_results.
    apply perm_trans with [first_attempt; third_attempt; other_result; second_attempt].
    - apply perm_trans with [third_attempt; first_attempt; other_result; second_attempt].
      + apply perm_skip, perm_swap.
      + apply perm_swap.
    - apply perm_skip.
      apply perm_trans with [third_attempt; second_attempt; other_result].
      + apply perm_skip, perm_swap.
      + apply perm_swap. }
  split; [exact Hin |]. split; [exact Hnodup |]. split; [exact Hdistinct |].
  destruct (attempt_numbering arrived_results second_attempt Hin Hnodup)
    as (_ & _ & _ & _ & Htotal & Htotal' & Hdist).
  destruct (Hdist Hdistinct) as [Hnum Hnum'].
  split; [exact Hnum |]. split; [exact Htotal |].
  split.
  - rewrite (Hnum' _ Hperm). exact Hnum.
  - rewrite (Htotal' _ Hperm). exact Htotal.
Defined.

(** Attempts of equal time keep the order of arrival. *)
Example equal_times_keep_arrival_order :
  attemptNumber [tied_attempt; first_attempt] first_attempt = 2%Z /\
  attemptNumber [first_attempt; tied_attempt] first_attempt = 1%Z.
Proof. split; reflexivity. Qed.


(** ** The normalizer *)

(** Whatever the root, the candidate array is an array. *)
Lemma candidate_array_is_array (root : json) :
  exists items, candidate_array root (JArr []) = JArr items.
Proof.
  unfold candidate_array.
  destruct (get root (str "questions")) as [[| | | | qs |] |]; eauto;
  destruct (get root (str "data")) as [[| | | | ds |] |]; eauto;
  match goal with
  | |- context [find ?f ?l] => destruct (find f l) as [key |] eqn:E; eauto;
      apply find_some in E; destruct E as [_ E];
      destruct (get root key) as [[| | | | ks |] |]; try discriminate; eauto
  end.
Qed.

(** The guard of [smartParseJSON] never fires: no input makes it report
    the structure error. *)
Lemma structure_error_unreachable (gen : nat -> jsstring) (input : json) :
  error (smartParseJSON gen input) <> Some structure_error.
Proof.
  assert (Hne : Some malformed_error <> Some structure_error) by (intro H; inversion H).
  assert (Harr : forall items m,
    error (if negb (truthy (Some (JArr items))) || negb (is_array (Some (JArr items)))
           then mkParseResult [] no_fields (Some structure_error)
           else match parse_items gen 0 items with
                | Returned questions => mkParseResult questions m None
                | Thrown => mkParseResult [] no_fields (Some malformed_error)
                end) <> Some structure_error).
  { intros items m. cbn [truthy is_array negb orb].
    destruct (parse_items gen 0 items); cbn [error]; [discriminate | exact Hne]. }
  unfold smartParseJSON. destruct input; try apply Harr.
  match goal with
  | |- context [candidate_array ?root (JArr [])] =>
      destruct (candidate_array_is_array root) as [items ->]
  end.
  apply Harr.
Qed.

(** C1.  The claim: an input in which no candidate array is found, such
    as [{}] or [{"data":[]}], makes the normalizer return a structural
    error.  The code: for both inputs it returns no error at all, with an
    empty question list and empty metadata. *)
Theorem smartParseJSON_no_array_no_error (gen : nat -> jsstring) :
  smartParseJSON gen (JObj []) = mkParseResult [] no_fields None /\
  smartParseJSON gen (JObj [(str "data", JArr [])]) = mkParseResult [] no_fields None.
Proof. split; reflexivity. Qed.

Example smartParseJSON_scenario :
  smartParseJSON sample_ids scenario_input
  = mkParseResult
      [mkQuestion (str "id0") MultipleChoice (str "2+2?") [str "3"; str "4"; str "5"] 1
                  (Some [])]
      no_fields None.
Proof. reflexivity. Qed.

Example smartParseJSON_numeric_type :
  smartParseJSON sample_ids numeric_type_input
  = mkParseResult [] no_fields (Some malformed_error).
Proof. reflexivity. Qed.

Lemma parse_item_inv (id : jsstring) (item : json) (q : Question) :
  parse_item id item = Returned (Some q) ->
  exists type,
    resolve_type item = Returned type /\
    q_id q = id /\
    q_type q = type /\
    q_text q = formatScientificText
                 (if truthy (get item (find_key [str "text"; str "question"; str "prompt"] item))
                  then match get item (find_key [str "text"; str "question"; str "prompt"] item)
                       with Some v => to_string v | None => [] end
                  else []) /\
    q_options q = map formatScientificText
                    (match type with
                     | TrueFalse => [str "True"; str "False"]
                     | MultipleChoice =>
                         if Nat.ltb (List.length (found_options item)) 2
                         then [[]; []; []; []] else found_options item
                     | ShortAnswer => found_options item
                     end) /\
    q_correctAnswer q = match correct_field item with Some (JNum n) => n | _ => 0%Z end /\
    q_correctAnswerText q =
      Some (formatScientificText
              (match type with
               | ShortAnswer =>
                   match js_or (correct_field item) (Some (JStr [])) with
                   | Some v => to_string v
                   | None => []
                   end
               | _ => []
               end)).
Proof.
  unfold parse_item. intros H.
  assert (K : match resolve_type item with
              | Returned _ => True | Thrown => False end).
  { destruct item; try discriminate; destruct (resolve_type _); try discriminate; exact I. }
  destruct (resolve_type item) as [type |] eqn:Et; [| contradiction].
  exists type. split; [reflexivity |].
  destruct item; try discriminate; injection H as <-; cbn [q_id q_type q_text q_options
    q_correctAnswer q_correctAnswerText]; destruct type; repeat split; reflexivity.
Qed.

(** Every question that the normalizer returns is what the callback
    made of one record. *)
Lemma parse_items_In (gen : nat -> jsstring) (items : list json) :
  forall n qs q,
    parse_items gen n items = Returned qs -> In q qs ->
    exists id item, In item items /\ parse_item id item = Returned (Some q).
Proof.
  induction items as [| item items IH]; intros n qs q H Hq; cbn [parse_items] in H.
  - injection H as <-. destruct Hq.
  - destruct (parse_item (gen n) item) as [[q0 |] |] eqn:E; [| | discriminate].
    + destruct (parse_items gen (S n) items) as [qs0 |] eqn:E0; [| discriminate].
      injection H as <-. destruct Hq as [<- | Hq].
      * exists (gen n), item. split; [left; reflexivity | exact E].
      * destruct (IH (S n) qs0 q E0 Hq) as (id & item' & Hin & Hp).
        exists id, item'. split; [right; exact Hin | exact Hp].
    + destruct (IH n qs q H Hq) as (id & item' & Hin & Hp).
      exists id, item'. split; [right; exact Hin | exact Hp].
Qed.

Lemma smartParseJSON_questions (gen : nat -> jsstring) (input : json) (q : Question) :
  In q (questions (smartParseJSON gen input)) ->
  exists id item, parse_item id item = Returned (Some q).
Proof.
  assert (Harr : forall items m,
    In q (questions
            (if negb (truthy (Some (JArr items))) || negb (is_array (Some (JArr items)))
             then mkParseResult [] no_fields (Some structure_error)
             else match parse_items gen 0 items with
                  | Returned questions => mkParseResult questions m None
                  | Thrown => mkParseResult [] no_fields (Some malformed_error)
                  end)) ->
    exists id item, parse_item id item = Returned (Some q)).
  { intros items m. cbn [truthy is_array negb orb].
    destruct (parse_items gen 0 items) as [qs |] eqn:E; cbn [questions]; [| intros []].
    intros Hq. destruct (parse_items_In gen items 0 qs q E Hq) as (id & item & _ & Hp).
    exists id, item. exact Hp. }
  unfold smartParseJSON. destruct input; try apply Harr; try (intros []).
  match goal with
  | |- context [candidate_array ?root (JArr [])] =>
      destruct (candidate_array_is_array root) as [items ->]
  end.
  apply Harr.
Qed.

(** C8.  A record resolved as multiple-choice with fewer than two options
    found gets four empty placeholders; a record resolved as true-false
    gets exactly "True" and "False", whatever it held. *)
Theorem parse_item_default_options (id : jsstring) (item : json) (q : Question) :
  parse_item id item = Returned (Some q) ->
  (q_type q = MultipleChoice -> List.length (found_options item) < 2 ->
   q_options q = [[]; []; []; []]) /\
  (q_type q = TrueFalse -> q_options q = [str "True"; str "False"]).
Proof.
  intros H. destruct (parse_item_inv id item q H) as (type & _ & _ & Ht & _ & Ho & _).
  rewrite Ho, <- Ht. split.
  - intros -> Hlen. apply Nat.ltb_lt in Hlen. rewrite Hlen. reflexivity.
  - intros ->. reflexivity.
Qed.


Lemma parse_item_default_options_witness :
  parse_item (str "q1") one_option_record = Returned (Some one_option_question) /\
  ((q_type one_option_question = MultipleChoice ->
    List.length (found_options one_option_record) < 2 ->
    q_options one_option_question = [[]; []; []; []]) /\
   (q_type one_option_question = TrueFalse ->
    q_options one_option_question = [str "True"; str "False"])).
Proof.
  split; [reflexivity |].
  apply (parse_item_default_options (str "q1") one_option_record one_option_question).
  reflexivity.
Defined.

Example true_false_record_options :
  exists q, parse_item (str "q2") true_false_record = Returned (Some q) /\
            q_type q = TrueFalse /\ q_options q = [str "True"; str "False"].
Proof. eexists. repeat split. Qed.

(** C10, as stated: for a short-answer record the produced
    [correctAnswerText] would be the string coercion of the resolved
    field.  It is not: the record with answer "H2O" gets "H₂O". *)
Lemma short_answer_text_not_plain_coercion :
  exists q,
    parse_item (str "q1") water_record = Returned (Some q) /\
    correct_field water_record = Some (JStr (str "H2O")) /\
    q_type q = ShortAnswer /\
    q_correctAnswerText q = Some [72%N; 8322%N; 79%N] /\
    q_correctAnswerText q <> Some (to_string (JStr (str "H2O"))).
Proof.
  eexists. split; [reflexivity |]. repeat split. cbn. discriminate.
Qed.

(** C10, amended.  When the resolved correct-answer field is absent or
    is not a number, the produced [correctAnswer] is 0; for a
    short-answer record the produced [correctAnswerText] is the
    formatter applied to the string coercion of that field, the empty
    string standing in for a field that is absent or falsy. *)
Theorem parse_item_correct_answer (id : jsstring) (item : json) (q : Question) :
  parse_item id item = Returned (Some q) ->
  (forall n, correct_field item <> Some (JNum n)) ->
  q_correctAnswer q = 0%Z /\
  (q_type q = ShortAnswer ->
   q_correctAnswerText q =
     Some (formatScientificText
             (match correct_field item with
              | Some v => if truthy (Some v) then to_string v else []
              | None => []
              end))).
Proof.
  intros H Hnum.
  destruct (parse_item_inv id item q H) as (type & _ & _ & Ht & _ & _ & Hc & Hct).
  split.
  - rewrite Hc. destruct (correct_field item) as [[| | n | | |] |]; try reflexivity.
    exfalso. exact (Hnum n eq_refl).
  - intros Hs. rewrite Hct, <- Ht, Hs. unfold js_or.
    destruct (correct_field item) as [v |]; [| reflexivity].
    destruct (truthy (Some v)); reflexivity.
Qed.

Lemma parse_item_correct_answer_witness :
  parse_item (str "q1") water_record = Returned (Some water_question) /\
  (forall n, correct_field water_record <> Some (JNum n)) /\
  (q_correctAnswer water_question = 0%Z /\
   (q_type water_question = ShortAnswer ->
    q_correctAnswerText water_question =
      Some (formatScientificText
              (match correct_field water_record with
               | Some v => if truthy (Some v) then to_string v else []
               | None => []
               end)))).
Proof.
  split; [reflexivity |]. split; [intros n; discriminate |].
  apply (parse_item_correct_answer (str "q1") water_record water_question).
  - reflexivity.
  - intros n; discriminate.
Defined.

(** ** The JSON editor *)

Lemma merged_or_else {A : Type} (m p : option A) : merged m p (or_else m p).
Proof. destruct m; split; cbn; intros; try discriminate; congruence. Qed.

(** C9.  When the normalizer returns no error and no question, Apply to
    Exam leaves the question list of the exam as it was, merges every
    metadata field that the normalizer extracted, and keeps the rest. *)
Theorem handleApplyJson_no_questions (gen : nat -> jsstring) (v : json) (st : editor) :
  questions (smartParseJSON gen v) = [] ->
  error (smartParseJSON gen v) = None ->
  let m := meta (smartParseJSON gen v) in
  let prev := exam st in
  let now := exam (handleApplyJson gen (Parsed v) st) in
  e_questions now = e_questions prev /\
  merged (e_title m) (e_title prev) (e_title now) /\
  merged (e_description m) (e_description prev) (e_description now) /\
  merged (e_durationMinutes m) (e_durationMinutes prev) (e_durationMinutes now) /\
  merged (e_difficulty m) (e_difficulty prev) (e_difficulty now) /\
  merged (e_totalMarks m) (e_totalMarks prev) (e_totalMarks now) /\
  merged (e_maxAttempts m) (e_maxAttempts prev) (e_maxAttempts now) /\
  merged (e_shuffleQuestions m) (e_shuffleQuestions prev) (e_shuffleQuestions now) /\
  merged (e_negativeMarking m) (e_negativeMarking prev) (e_negativeMarking now) /\
  merged (e_targetClass m) (e_targetClass prev) (e_targetClass now) /\
  merged (e_targetDivision m) (e_targetDivision prev) (e_targetDivision now) /\
  e_id now = e_id prev /\
  e_questionCount now = e_questionCount prev /\
  e_scheduledDate now = e_scheduledDate prev /\
  e_isPublished now = e_isPublished prev /\
  jsonError (handleApplyJson gen (Parsed v) st) = None.
Proof.
  intros Hq He. cbn zeta. unfold handleApplyJson. rewrite He, Hq.
  cbn [exam jsonError set_questions spread e_questions e_title e_description
       e_durationMinutes e_difficulty e_totalMarks e_maxAttempts e_shuffleQuestions
       e_negativeMarking e_targetClass e_targetDivision e_id e_questionCount
       e_scheduledDate e_isPublished].
  assert (Hm : e_id (meta (smartParseJSON gen v)) = None /\
               e_questionCount (meta (smartParseJSON gen v)) = None /\
               e_scheduledDate (meta (smartParseJSON gen v)) = None /\
               e_isPublished (meta (smartParseJSON gen v)) = None).
  { unfold smartParseJSON. destruct v; try (repeat split; reflexivity).
    - cbn [truthy is_array negb orb]. destruct (parse_items gen 0 items); repeat split.
    - match goal with
      | |- context [candidate_array ?root (JArr [])] =>
          destruct (candidate_array_is_array root) as [items ->]
      end.
      cbn [truthy is_array negb orb]. destruct (parse_items gen 0 items); repeat split. }
  destruct Hm as (-> & -> & -> & ->).
  repeat split; try apply merged_or_else; try reflexivity;
    intros; match goal with H : _ = _ |- _ => solve [rewrite H; reflexivity] end.
Qed.

Lemma handleApplyJson_no_questions_witness :
  questions (smartParseJSON sample_ids title_only) = [] /\
  error (smartParseJSON sample_ids title_only) = None /\
  e_questions (exam (handleApplyJson sample_ids (Parsed title_only) draft))
  = Some [kept_question] /\
  e_title (exam (handleApplyJson sample_ids (Parsed title_only) draft))
  = Some (str "Quiz") /\
  e_description (exam (handleApplyJson sample_ids (Parsed title_only) draft)) = Some [].
Proof.
  split; [reflexivity |]. split; [reflexivity |].
  pose proof (handleApplyJson_no_questions sample_ids title_only draft eq_refl eq_refl) as H.
  cbv zeta in H. destruct H as (Hq & Ht & Hd & _).
  split; [exact Hq |]. split.
  - apply (proj1 Ht). reflexivity.
  - apply (proj2 Hd). reflexivity.
Defined.


(** ** Export and import *)

Lemma lookup_property_other (k : jsstring) (k' : string) (v : option json)
    (rest : list (jsstring * json)) :
  jsstring_eqb k (str k') = false ->
  lookup k (property k' v ++ rest) = lookup k rest.
Proof. intros H. destruct v; cbn [property app lookup]; [rewrite H |]; reflexivity. Qed.

Lemma lookup_property_last (k : jsstring) (k' : string) (v : option json) :
  jsstring_eqb k (str k') = false -> lookup k (property k' v) = None.
Proof. intros H. destruct v; cbn [property lookup]; [rewrite H |]; reflexivity. Qed.

Lemma lookup_property_same (k : string) (x : json) :
  lookup (str k) (property k (Some x)) = Some x.
Proof. cbn [property lookup]. rewrite jsstring_eqb_refl. reflexivity. Qed.

Lemma export_exam_no_exam (e : PartialExam Z) : get (export_exam e) (str "exam") = None.
Proof.
  unfold export_exam, get.
  rewrite !lookup_property_other by reflexivity.
  apply lookup_property_last. reflexivity.
Qed.

Lemma export_exam_questions (e : PartialExam Z) (qs : list Question) :
  e_questions e = Some qs ->
  get (export_exam e) (str "questions") = Some (JArr (map export_question qs)).
Proof.
  intros H. unfold export_exam, get.
  rewrite !lookup_property_other by reflexivity.
  rewrite H. apply lookup_property_same.
Qed.

Lemma export_question_keys (q : Question) :
  find_key [str "text"; str "question"; str "prompt"] (export_question q) = str "text" /\
  find_key [str "options"; str "choices"; str "answers"] (export_question q)
  = str "options" /\
  find_key [str "correct"; str "answer"] (export_question q) = str "correctAnswer".
Proof. destruct q as [id type text options answer [answerText |]]; repeat split. Qed.

Lemma export_question_fields (q : Question) :
  get (export_question q) (str "text") = Some (JStr (q_text q)) /\
  get (export_question q) (str "type") = Some (JStr (type_name (q_type q))) /\
  get (export_question q) (str "options") = Some (JArr (map JStr (q_options q))) /\
  get (export_question q) (str "correctAnswer") = Some (JNum (q_correctAnswer q)).
Proof. destruct q as [id type text options answer [answerText |]]; repeat split. Qed.

Lemma resolve_type_export (q : Question) :
  resolve_type (export_question q) = Returned (q_type q).
Proof.
  unfold resolve_type.
  destruct (export_question_fields q) as (_ & -> & _).
  destruct (q_type q); reflexivity.
Qed.

Lemma map_to_string_JStr (l : list jsstring) : map to_string (map JStr l) = l.
Proof. induction l as [| x l IH]; cbn [map to_string]; [| rewrite IH]; reflexivity. Qed.

Lemma found_options_export (q : Question) :
  found_options (export_question q) = q_options q.
Proof.
  unfold found_options.
  destruct (export_question_keys q) as (_ & -> & _).
  destruct (export_question_fields q) as (_ & _ & -> & _).
  apply map_to_string_JStr.
Qed.

Lemma correct_field_export (q : Question) :
  correct_field (export_question q) = Some (JNum (q_correctAnswer q)).
Proof.
  unfold correct_field.
  destruct (export_question_keys q) as (_ & _ & ->).
  destruct (export_question_fields q) as (_ & _ & _ & ->). reflexivity.
Qed.

Lemma map_fixed {A : Type} (f : A -> A) (l : list A) :
  Forall (fun x => f x = x) l -> map f l = l.
Proof. induction 1 as [| x l Hx _ IH]; cbn; [| rewrite Hx, IH]; reflexivity. Qed.

Lemma parse_item_object (id : jsstring) (fields : list (jsstring * json)) :
  parse_item id (JObj fields) =
  let item := JObj fields in
  match resolve_type item with
  | Thrown => Thrown
  | Returned type =>
      Returned (Some
        {| q_id := id;
           q_text := formatScientificText
             (if truthy (get item (find_key [str "text"; str "question"; str "prompt"] item))
              then match get item (find_key [str "text"; str "question"; str "prompt"] item)
                   with Some v => to_string v | None => [] end
              else []);
           q_type := type;
           q_options := map formatScientificText
             (match type with
              | TrueFalse => [str "True"; str "False"]
              | MultipleChoice =>
                  if Nat.ltb (List.length (found_options item)) 2
                  then [[]; []; []; []] else found_options item
              | ShortAnswer => found_options item
              end);
           q_correctAnswer :=
             match correct_field item with Some (JNum n) => n | _ => 0%Z end;
           q_correctAnswerText :=
             Some (formatScientificText
                     (match type with
                      | ShortAnswer =>
                          match js_or (correct_field item) (Some (JStr [])) with
                          | Some v => to_string v
                          | None => []
                          end
                      | _ => []
                      end)) |})
  end.
Proof.
  cbv zeta. unfold parse_item.
  destruct (resolve_type (JObj fields)) as [[| |] |]; reflexivity.
Qed.

Lemma text_read_back (text : jsstring) :
  formatScientificText text = text ->
  formatScientificText
    (if truthy (Some (JStr text)) then to_string (JStr text) else []) = text.
Proof. destruct text; [reflexivity |]. intros H. exact H. Qed.

(** What the importer makes of an exported question that is portable:
    text, type, options and answer index are those of the question. *)
Lemma parse_item_export (id : jsstring) (q : Question) :
  portable q ->
  exists q', parse_item id (export_question q) = Returned (Some q') /\
             q_id q' = id /\ core q' = core q.
Proof.
  intros (Htext & Hopts & Hmc & Htf).
  assert (Hobj : exists fields, export_question q = JObj fields) by (eexists; reflexivity).
  destruct Hobj as [fields Hobj].
  pose proof (parse_item_object id fields) as H. rewrite <- Hobj in H. cbv zeta in H.
  rewrite resolve_type_export, found_options_export, correct_field_export in H.
  destruct (export_question_keys q) as (Hk & _ & _). rewrite Hk in H.
  destruct (export_question_fields q) as (Hf & _ & _ & _). rewrite Hf in H.
  eexists. split; [exact H |]. split; [reflexivity |].
  unfold core. cbn [q_text q_type q_options q_correctAnswer].
  assert (Ht : formatScientificText
                 (if truthy (Some (JStr (q_text q))) then to_string (JStr (q_text q)) else [])
               = q_text q).
  { apply text_read_back. exact Htext. }
  rewrite Ht. f_equal. f_equal.
  destruct (q_type q) eqn:Etype.
  - specialize (Hmc eq_refl). apply Nat.ltb_ge in Hmc. rewrite Hmc.
    apply map_fixed. exact Hopts.
  - rewrite (Htf eq_refl). reflexivity.
  - apply map_fixed. exact Hopts.
Qed.

Lemma parse_items_export (gen : nat -> jsstring) (qs : list Question) : forall n,
  Forall portable qs ->
  exists qs', parse_items gen n (map export_question qs) = Returned qs' /\
              map core qs' = map core qs.
Proof.
  induction qs as [| q qs IH]; intros n Hall.
  - exists []. split; reflexivity.
  - inversion Hall as [| ? ? Hq Hqs]; subst.
    destruct (parse_item_export (gen n) q Hq) as (q' & Hq' & _ & Hcore).
    destruct (IH (S n) Hqs) as (qs' & Hqs' & Hcores).
    exists (q' :: qs'). split.
    + cbn [map parse_items]. rewrite Hq', Hqs'. reflexivity.
    + cbn [map]. rewrite Hcore, Hcores. reflexivity.
Qed.

Lemma smartParseJSON_export (gen : nat -> jsstring) (e : PartialExam Z)
    (qs : list Question) :
  e_questions e = Some qs ->
  smartParseJSON gen (export_exam e) =
  match parse_items gen 0 (map export_question qs) with
  | Returned questions => mkParseResult questions (extract_meta (export_exam e)) None
  | Thrown => mkParseResult [] no_fields (Some malformed_error)
  end.
Proof.
  intros Hqs.
  assert (Hobj : exists fields, export_exam e = JObj fields) by (eexists; reflexivity).
  destruct Hobj as [fields Hobj].
  pose proof (export_exam_no_exam e) as Hexam.
  pose proof (export_exam_questions e qs Hqs) as Hquestions.
  rewrite Hobj in *. unfold smartParseJSON. rewrite Hexam. cbn [truthy].
  unfold candidate_array. rewrite Hquestions. reflexivity.
Qed.

(** C3, as stated: export followed by import gives back every question
    on text, type, options, answer index and answer text.  It does not:
    a multiple-choice question left with one option comes back with four
    empty options. *)
Lemma round_trip_replaces_single_option :
  map content (questions (smartParseJSON sample_ids
                            (export_exam (exam_of [single_option_question]))))
  <> map content [single_option_question].
Proof. cbn. discriminate. Qed.

(** The answer text of a short-answer question does not come back
    either: the importer reads the answer index in its place. *)
Example round_trip_drops_answer_text :
  map q_correctAnswerText
      (questions (smartParseJSON sample_ids (export_exam (exam_of [kept_question]))))
  = [Some []].
Proof. reflexivity. Qed.

(** C3, amended.  For an exam whose questions are portable (text and
    options are left alone by the formatter, a multiple-choice question
    has at least two options, a true-false question has the options
    "True" and "False"), export followed by import succeeds and gives a
    question list equal to the original on text, type, options and
    answer index. *)
Theorem export_import_round_trip (gen : nat -> jsstring) (e : PartialExam Z)
    (qs : list Question) :
  e_questions e = Some qs ->
  Forall portable qs ->
  error (smartParseJSON gen (export_exam e)) = None /\
  map core (questions (smartParseJSON gen (export_exam e))) = map core qs.
Proof.
  intros Hqs Hall. rewrite (smartParseJSON_export gen e qs Hqs).
  destruct (parse_items_export gen qs 0 Hall) as (qs' & -> & Hcore).
  split; [reflexivity | exact Hcore].
Qed.

Lemma export_import_round_trip_witness :
  e_questions (exam_of [portable_question]) = Some [portable_question] /\
  Forall portable [portable_question] /\
  error (smartParseJSON sample_ids (export_exam (exam_of [portable_question]))) = None /\
  map core (questions (smartParseJSON sample_ids
                         (export_exam (exam_of [portable_question]))))
  = map core [portable_question].
Proof.
  assert (Hp : Forall portable [portable_question]).
  { constructor; [| constructor]. unfold portable. cbn [portable_question q_text q_options
      q_type]. split; [reflexivity |]. split; [repeat constructor |].
    split; [intros _; cbn; lia | discriminate]. }
  split; [reflexivity |]. split; [exact Hp |].
  exact (export_import_round_trip sample_ids (exam_of [portable_question])
           [portable_question] eq_refl Hp).
Defined.


(** ** The question editor *)

Lemma nth_error_array_set {A : Type} (qs : list (option A)) (idx : nat) (q : A) :
  nth_error (array_set qs idx q) idx = Some (Some q).
Proof.
  revert qs. induction idx as [| i IH]; intros [| x rest]; cbn; auto.
Qed.

Lemma nth_error_array_set_other {A : Type} (qs : list (option A)) (idx j : nat) (q : A) :
  j <> idx -> j < List.length qs ->
  nth_error (array_set qs idx q) j = nth_error qs j.
Proof.
  revert qs j. induction idx as [| i IH]; intros [| x rest] [| j] Hne Hlt; cbn in *;
    try lia; try reflexivity.
  apply IH; lia.
Qed.

(** C7.  After [changeType], the question at the index has the canonical
    options of its new type: "True" and "False" with answer 0 for
    true-false, no option at all for short-answer.  Its identifier and
    text are those of the question that was there. *)
Theorem changeType_canonical (idx : nat) (qs : list Question) :
  (exists q,
     nth_error (changeType idx TrueFalse qs) idx = Some (Some q) /\
     o_type q = Some TrueFalse /\
     o_options q = Some [str "True"; str "False"] /\
     o_correctAnswer q = Some 0%Z /\
     o_id q = option_map q_id (nth_error qs idx) /\
     o_text q = option_map q_text (nth_error qs idx)) /\
  (exists q,
     nth_error (changeType idx ShortAnswer qs) idx = Some (Some q) /\
     o_type q = Some ShortAnswer /\
     o_options q = Some [] /\
     o_id q = option_map q_id (nth_error qs idx) /\
     o_text q = option_map q_text (nth_error qs idx)).
Proof.
  split; unfold changeType; eexists; (split; [apply nth_error_array_set |]);
    destruct (nth_error qs idx); repeat split.
Qed.

(** The other questions stay as they are. *)
Lemma changeType_others (idx j : nat) (type : QuestionType) (qs : list Question) :
  j <> idx -> j < List.length qs ->
  nth_error (changeType idx type qs) j
  = option_map (fun q => Some (spread_question (Some q))) (nth_error qs j).
Proof.
  intros Hne Hlt. unfold changeType.
  rewrite nth_error_array_set_other; [| exact Hne | rewrite length_map; exact Hlt].
  apply nth_error_map.
Qed.

(** ** The result screen *)

(** The row of the table classifies by the rounded percentage. *)
Lemma isPassed_iff (r : Result) :
  isPassed r = true <-> at_least (percentage r) 50 = true.
Proof. reflexivity. Qed.

Lemma percentage_fifty_passes (r : Result) (q : Q) :
  percentage r = Finite q -> (q == 50)%Q -> isPassed r = true.
Proof.
  unfold isPassed. intros -> H. cbn. apply Qle_bool_iff. rewrite H. apply Qle_refl.
Qed.

(** C4.  The claim: a result is classified as passed exactly when its
    rounded percentage is at least 50.  The row of the table does so, the
    pass count and the review window compare the unrounded ratio with
    0.5: a score of 49.75 out of 100 has percentage 50, passes in its row
    and is not counted as passed. *)
Theorem pass_classifications_disagree :
  percentage near_miss = Finite (inject_Z 50) /\
  isPassed near_miss = true /\
  passes_by_ratio near_miss = false /\
  passedCount [near_miss] = 0.
Proof. repeat split. Qed.

(** Where the ratio is at least 0.5 the two classifications agree. *)
Lemma passes_by_ratio_isPassed (r : Result) :
  passes_by_ratio r = true -> isPassed r = true.
Proof.
  unfold passes_by_ratio, isPassed, percentage.
  destruct (divide (r_score r) (r_totalMarks r)) as [| positive | q]; cbn; auto.
  rewrite !Qle_bool_iff. intros H.
  assert (Hz : (50 <= Qfloor (q * 100 + (1 # 2)))%Z).
  { rewrite <- (Qfloor_Z 50). apply Qfloor_resp_le.
    change (inject_Z 50) with (50 # 1)%Q. lra. }
  change (inject_Z 50 <= inject_Z (Qfloor (q * 100 + (1 # 2))))%Q.
  rewrite <- Zle_Qle. exact Hz.
Qed.

(** *** The answer key breakdown *)

Lemma review_from_length (answers : list Z) (qs : list Question) : forall idx,
  List.length (review_from answers idx qs) = List.length qs.
Proof. induction qs as [| q qs IH]; intros idx; cbn; [| rewrite IH]; reflexivity. Qed.

Lemma review_from_nth (answers : list Z) (qs : list Question) : forall idx i,
  nth_error (review_from answers idx qs) i
  = option_map (review_question answers (idx + i)) (nth_error qs i).
Proof.
  induction qs as [| q qs IH]; intros idx [| i]; cbn; try reflexivity.
  - rewrite Nat.add_0_r. reflexivity.
  - rewrite IH. rewrite Nat.add_succ_r. reflexivity.
Qed.

(** C6.  The breakdown has a verdict for every question; a question
    whose index is past the end of the answers is skipped and is not
    correct. *)
Theorem review_missing_answers (answers : list Z) (qs : list Question) (i : nat) :
  List.length answers <= i -> i < List.length qs ->
  List.length (review answers qs) = List.length qs /\
  exists v, nth_error (review answers qs) i = Some v /\
            studentAnswerIdx v = None /\ isSkipped v = true /\ isCorrect v = false.
Proof.
  intros Hshort Hlt. unfold review. split; [apply review_from_length |].
  rewrite review_from_nth. cbn [Nat.add].
  destruct (nth_error qs i) as [q |] eqn:Eq.
  - exists (review_question answers i q). split; [reflexivity |].
    unfold review_question. apply nth_error_None in Hshort. rewrite Hshort.
    repeat split.
  - apply nth_error_None in Eq. lia.
Qed.

Lemma review_missing_answers_witness :
  List.length [1%Z] <= 1 /\ 1 < List.length [kept_question; water_question] /\
  (List.length (review [1%Z] [kept_question; water_question]) = 2 /\
   exists v, nth_error (review [1%Z] [kept_question; water_question]) 1 = Some v /\
             studentAnswerIdx v = None /\ isSkipped v = true /\ isCorrect v = false).
Proof.
  split; [cbn; lia |]. split; [cbn; lia |].
  apply (review_missing_answers [1%Z] [kept_question; water_question] 1); cbn; lia.
Defined.

(** * Further properties *)

(** ** What the formatter does to a text *)

Lemma all_runs_no_digit (f : context) : forall (s : jsstring) p2 p1,
  existsb is_digit s = false -> all_runs f p2 p1 s = true.
Proof.
  induction s as [| c s IH]; intros p2 p1 H; [reflexivity |].
  cbn [existsb] in H. apply orb_false_iff in H. destruct H as [Hc Hs].
  cbn [all_runs]. rewrite Hc. cbn [andb]. apply IH. exact Hs.
Qed.

(** X1.  A text without ASCII digit is left as it is. *)
Theorem formatScientificText_no_digit (s : jsstring) :
  existsb is_digit s = false -> formatScientificText s = s.
Proof.
  intros H. apply formatScientificText_settled; apply all_runs_no_digit; exact H.
Qed.

Lemma formatScientificText_no_digit_witness :
  existsb is_digit (str "True or False?") = false /\
  formatScientificText (str "True or False?") = str "True or False?".
Proof.
  split; [reflexivity |].
  apply (formatScientificText_no_digit (str "True or False?")). reflexivity.
Defined.

Lemma scan_keep_length ctx g : forall (s : jsstring) p2 p1 conv,
  List.length (scan_keep ctx g p2 p1 conv s) = List.length s.
Proof.
  induction s as [| c s IH]; intros p2 p1 conv; [reflexivity |].
  cbn [scan_keep]. destruct (is_digit c); cbn [List.length]; rewrite IH; reflexivity.
Qed.

Lemma scan_drop_length head g : forall (s : jsstring) conv,
  List.length (scan_drop head g conv s) <= List.length s.
Proof.
  induction s as [| c s IH]; intros conv; [apply le_n |].
  cbn [scan_drop]. destruct (is_digit c).
  - cbn [List.length]. apply le_n_S, IH.
  - destruct (head c && starts_with_digit s)%bool; cbn [List.length].
    + apply Nat.le_trans with (List.length s); [apply IH | apply Nat.le_succ_diag_r].
    + apply le_n_S, IH.
Qed.

Lemma scan_drop_length_no_head head g : forall (s : jsstring) conv,
  existsb head s = false ->
  List.length (scan_drop head g conv s) = List.length s.
Proof.
  induction s as [| c s IH]; intros conv H; [reflexivity |].
  cbn [existsb] in H. apply orb_false_iff in H. destruct H as [Hc Hs].
  cbn [scan_drop]. rewrite Hc. cbn [andb].
  destruct (is_digit c); cbn [List.length]; rewrite IH; auto.
Qed.

Lemma scan_drop_keeps_absent (p : char -> bool) head g :
  (forall d, is_digit d = true -> p (g d) = false) ->
  forall (s : jsstring) conv,
    existsb p s = false -> existsb p (scan_drop head g conv s) = false.
Proof.
  intros Hg. induction s as [| c s IH]; intros conv H; [reflexivity |].
  cbn [existsb] in H. apply orb_false_iff in H. destruct H as [Hc Hs].
  cbn [scan_drop]. destruct (is_digit c) eqn:Ec.
  - cbn [existsb]. rewrite (IH _ Hs), orb_false_r.
    destruct conv; [apply Hg; exact Ec | exact Hc].
  - destruct (head c && starts_with_digit s)%bool; [apply IH; exact Hs |].
    cbn [existsb]. rewrite Hc. apply IH. exact Hs.
Qed.

Lemma sup_of_not_underscore d :
  is_digit d = true -> is_underscore (glyph_of superscripts d) = false.
Proof. intros H. digit_cases d H; reflexivity. Qed.

(** X2.  The formatter never makes a text longer, and keeps its length
    when the text has no caret and no underscore. *)
Theorem formatScientificText_length (s : jsstring) :
  List.length (formatScientificText s) <= List.length s /\
  (existsb is_caret s = false -> existsb is_underscore s = false ->
   List.length (formatScientificText s) = List.length s).
Proof.
  rewrite formatScientificText_unfold.
  rewrite variable_rule, scan_keep_length.
  rewrite element_rule, scan_keep_length.
  rewrite superscript_rule, scan_keep_length.
  rewrite subscript_rule, scan_keep_length.
  rewrite underscore_rule, caret_rule. split.
  - eapply Nat.le_trans; [apply scan_drop_length | apply scan_drop_length].
  - intros Hc Hu. rewrite scan_drop_length_no_head.
    + apply scan_drop_length_no_head. exact Hc.
    + apply scan_drop_keeps_absent; [exact sup_of_not_underscore | exact Hu].
Qed.

(** After formatting, the contexts of the first five replacements occur
    nowhere. *)
Lemma formatScientificText_settles (s : jsstring) :
  settled caret_ctx (formatScientificText s) /\
  settled underscore_ctx (formatScientificText s) /\
  settled subscript_ctx (formatScientificText s) /\
  settled superscript_ctx (formatScientificText s) /\
  settled element_ctx (formatScientificText s).
Proof.
  rewrite formatScientificText_unfold. repeat split.
  - apply settled_variable, settled_element, settled_superscript, settled_subscript,
      settled_underscore, caret_settles; apply steady_head.
  - apply settled_variable, settled_element, settled_superscript, settled_subscript,
      underscore_settles; apply steady_head.
  - apply settled_variable, settled_element, settled_superscript, subscript_settles;
      apply steady_no_lookbehind.
  - apply settled_variable, settled_element, superscript_settles;
      apply steady_no_lookbehind.
  - apply settled_variable, element_settles;
      apply steady_element; exact sup_of_not_word.
Qed.

Lemma settled_followed_by_digit (head : char -> bool) :
  (forall c, head c = true -> is_digit c = false) ->
  forall (s : jsstring) p2 p1,
    all_runs (fun a b => negb (head_opt head a b)) p2 p1 s = true ->
    (head_opt head p2 p1 && starts_with_digit s)%bool = false /\
    followed_by_digit head s = false.
Proof.
  intros Hhead. induction s as [| c s IH]; intros p2 p1 H.
  - split; [apply andb_false_r | reflexivity].
  - cbn [all_runs] in H. apply andb_true_iff in H. destruct H as [H1 H2].
    destruct (IH p1 (Some c) H2) as [Hc Hs]. split.
    + unfold starts_with_digit. cbn [hd_error is_digit_opt].
      destruct (is_digit c) eqn:Ec; [| apply andb_false_r].
      rewrite andb_true_r. destruct p1 as [b |]; [| reflexivity].
      cbn [head_opt is_digit_opt] in *.
      destruct (head b) eqn:Eb; [| reflexivity].
      rewrite (Hhead b Eb) in H1. cbn in H1. discriminate.
    + cbn [followed_by_digit]. rewrite Hs, orb_false_r. exact Hc.
Qed.

Lemma settled_no_head_digit (head : char -> bool) (q : context) (s : jsstring) :
  (forall c, head c = true -> is_digit c = false) ->
  (forall a b, head_opt head a b = true -> q a b = true) ->
  settled q s -> followed_by_digit head s = false.
Proof.
  intros Hhead Hq H.
  apply (settled_followed_by_digit head Hhead s None None).
  revert H. apply all_runs_impl. intros a b Hn.
  destruct (head_opt head a b) eqn:E; [| reflexivity].
  rewrite (Hq a b E) in Hn. discriminate.
Qed.

(** X3.  In a formatted text no ASCII digit stands directly after a
    caret, an underscore, a subscript glyph, a superscript glyph of the
    block U+2070 to U+2079, or a capital letter. *)
Theorem formatScientificText_no_pending_digit (s : jsstring) :
  followed_by_digit is_caret (formatScientificText s) = false /\
  followed_by_digit is_underscore (formatScientificText s) = false /\
  followed_by_digit is_subscript (formatScientificText s) = false /\
  followed_by_digit is_superscript_range (formatScientificText s) = false /\
  followed_by_digit is_upper (formatScientificText s) = false.
Proof.
  destruct (formatScientificText_settles s) as (H1 & H2 & H3 & H4 & H5).
  repeat split.
  - apply (settled_no_head_digit is_caret caret_ctx); auto using caret_not_digit.
  - apply (settled_no_head_digit is_underscore underscore_ctx);
      auto using underscore_not_digit.
  - apply (settled_no_head_digit is_subscript subscript_ctx);
      auto using subscript_not_digit.
    intros a [c |] H; [| discriminate]. cbn in *. rewrite H. reflexivity.
  - apply (settled_no_head_digit is_superscript_range superscript_ctx);
      auto using superscript_range_not_digit.
    intros a [c |] H; [| discriminate]. cbn in *. rewrite H. reflexivity.
  - apply (settled_no_head_digit is_upper element_ctx); auto using upper_not_digit.
    intros a [c |] H; [| discriminate]. cbn in *. rewrite H. reflexivity.
Qed.

Lemma unglyph_digit d : is_digit d = true -> unglyph d = d.
Proof. intros H. digit_cases d H; reflexivity. Qed.

Lemma unglyph_sub d : is_digit d = true -> unglyph (glyph_of subscripts d) = d.
Proof. intros H. digit_cases d H; reflexivity. Qed.

Lemma unglyph_sup d : is_digit d = true -> unglyph (glyph_of superscripts d) = d.
Proof. intros H. digit_cases d H; reflexivity. Qed.

Lemma sub_of_kept d :
  is_digit d = true ->
  (is_caret (glyph_of subscripts d) || is_underscore (glyph_of subscripts d))%bool = false.
Proof. intros H. digit_cases d H; reflexivity. Qed.

Lemma sup_of_kept d :
  is_digit d = true ->
  (is_caret (glyph_of superscripts d) || is_underscore (glyph_of superscripts d))%bool
  = false.
Proof. intros H. digit_cases d H; reflexivity. Qed.

Lemma digit_kept d :
  is_digit d = true -> (is_caret d || is_underscore d)%bool = false.
Proof. intros H. digit_cases d H; reflexivity. Qed.

Section PlainText.

Variable g : char -> char.
Hypothesis unglyph_g : forall d, is_digit d = true -> unglyph (g d) = d.
Hypothesis g_kept :
  forall d, is_digit d = true -> (is_caret (g d) || is_underscore (g d))%bool = false.

Lemma plain_text_scan_keep ctx : forall (s : jsstring) p2 p1 conv,
  plain_text (scan_keep ctx g p2 p1 conv s) = plain_text s.
Proof.
  induction s as [| c s IH]; intros p2 p1 conv; [reflexivity |].
  cbn [scan_keep]. destruct (is_digit c) eqn:Ec.
  - unfold plain_text in *. cbn [filter].
    destruct (if is_digit_opt p1 then conv else ctx p2 p1).
    + rewrite (g_kept c Ec), (digit_kept c Ec). cbn [negb map].
      rewrite IH, (unglyph_g c Ec), (unglyph_digit c Ec). reflexivity.
    + rewrite (digit_kept c Ec). cbn [negb map]. rewrite IH. reflexivity.
  - unfold plain_text in *. cbn [filter].
    destruct (negb (is_caret c || is_underscore c)); cbn [map]; rewrite IH; reflexivity.
Qed.

Lemma plain_text_scan_drop head :
  (forall c, head c = true -> (is_caret c || is_underscore c)%bool = true) ->
  forall (s : jsstring) conv,
    plain_text (scan_drop head g conv s) = plain_text s.
Proof.
  intros Hhead. induction s as [| c s IH]; intros conv; [reflexivity |].
  cbn [scan_drop]. destruct (is_digit c) eqn:Ec.
  - unfold plain_text in *. cbn [filter]. destruct conv.
    + rewrite (g_kept c Ec), (digit_kept c Ec). cbn [negb map].
      rewrite IH, (unglyph_g c Ec), (unglyph_digit c Ec). reflexivity.
    + rewrite (digit_kept c Ec). cbn [negb map]. rewrite IH. reflexivity.
  - destruct (head c && starts_with_digit s)%bool eqn:E.
    + apply andb_true_iff in E. destruct E as [E _].
      unfold plain_text in *. cbn [filter]. rewrite (Hhead c E). cbn [negb].
      apply IH.
    + unfold plain_text in *. cbn [filter].
      destruct (negb (is_caret c || is_underscore c)); cbn [map]; rewrite IH; reflexivity.
Qed.

End PlainText.

(** X4.  Formatting only takes out carets and underscores and turns
    digits into glyphs of the same digits: with carets and underscores
    removed and glyphs read as digits, the formatted text is the text. *)
Theorem formatScientificText_plain_text (s : jsstring) :
  plain_text (formatScientificText s) = plain_text s.
Proof.
  rewrite formatScientificText_unfold.
  rewrite variable_rule, (plain_text_scan_keep _ unglyph_sup sup_of_kept).
  rewrite element_rule, (plain_text_scan_keep _ unglyph_sub sub_of_kept).
  rewrite superscript_rule, (plain_text_scan_keep _ unglyph_sup sup_of_kept).
  rewrite subscript_rule, (plain_text_scan_keep _ unglyph_sub sub_of_kept).
  rewrite underscore_rule, (plain_text_scan_drop _ unglyph_sub sub_of_kept).
  - rewrite caret_rule, (plain_text_scan_drop _ unglyph_sup sup_of_kept).
    + reflexivity.
    + intros c ->. reflexivity.
  - intros c ->. apply orb_true_r.
Qed.

(** ** What the normalizer returns *)

Lemma smartParseJSON_unfold (gen : nat -> jsstring) (input : json) :
  smartParseJSON gen input =
  match parse_items gen 0 (candidate_items input) with
  | Returned qs => mkParseResult qs (found_meta input) None
  | Thrown => mkParseResult [] no_fields (Some malformed_error)
  end.
Proof.
  destruct input as [| b | n | s | items | fields]; try reflexivity.
  unfold smartParseJSON, candidate_items, found_meta.
  set (root := if truthy (get (JObj fields) (str "exam"))
               then match get (JObj fields) (str "exam") with
                    | Some e => e
                    | None => JObj fields
                    end
               else JObj fields).
  destruct (candidate_array_is_array root) as [items ->]. reflexivity.
Qed.

(** X5.  The normalizer fails in one way only: with the message
    "Malformed JSON.", no question and no metadata.  Otherwise it returns
    the metadata of the root. *)
Theorem smartParseJSON_failure (gen : nat -> jsstring) (input : json) :
  (error (smartParseJSON gen input) = None /\
   meta (smartParseJSON gen input) = found_meta input) \/
  smartParseJSON gen input = mkParseResult [] no_fields (Some malformed_error).
Proof.
  rewrite smartParseJSON_unfold.
  destruct (parse_items gen 0 (candidate_items input)); [left | right]; auto.
Qed.

Lemma parse_item_thrown (id : jsstring) (item : json) :
  parse_item id item = Thrown <-> (is_record item && unusable_type item)%bool = true.
Proof.
  assert (H : forall it, is_record it = true ->
            (parse_item id it = Thrown <-> unusable_type it = true)).
  { intros it Hit. unfold unusable_type.
    assert (E : parse_item id it =
                match resolve_type it with
                | Thrown => Thrown
                | Returned type =>
                    match parse_item id it with
                    | Returned r => Returned r
                    | Thrown => Thrown
                    end
                end).
    { destruct it; try discriminate; cbn [parse_item];
        destruct (resolve_type _); reflexivity. }
    assert (R : forall type, resolve_type it = Returned type -> parse_item id it <> Thrown).
    { intros type Hty. destruct it; try discriminate; cbn [parse_item];
        rewrite Hty; discriminate. }
    unfold resolve_type in *.
    destruct (truthy (get it (str "type"))) eqn:Et; cbn [andb].
    - destruct (get it (str "type")) as [[| b | n | s | l | f] |] eqn:Eg;
        try (split; [reflexivity | intros _; rewrite E; reflexivity]);
        split; try discriminate; intros Hth; exfalso; eapply R; eauto.
    - split; [| discriminate]. intros Hth. exfalso. eapply R; eauto. }
  destruct item as [| b | n | s | l | f]; cbn [is_record andb];
    try (split; [cbn; discriminate | discriminate]); apply H; reflexivity.
Qed.

Lemma parse_item_not_record (id : jsstring) (item : json) :
  is_record item = false -> parse_item id item = Returned None.
Proof. destruct item; cbn; intros H; try discriminate; reflexivity. Qed.

Lemma parse_item_record (id : jsstring) (item : json) :
  is_record item = true -> parse_item id item <> Returned None.
Proof.
  destruct item; cbn [is_record parse_item]; try discriminate; intros _;
    destruct (resolve_type _); discriminate.
Qed.

Lemma parse_items_thrown (gen : nat -> jsstring) (items : list json) : forall n,
  parse_items gen n items = Thrown <->
  existsb (fun item => is_record item && unusable_type item) items = true.
Proof.
  induction items as [| item items IH]; intros n; cbn [parse_items existsb].
  - split; discriminate.
  - destruct (parse_item (gen n) item) as [[q |] |] eqn:E.
    + assert (Hn : (is_record item && unusable_type item)%bool = false).
      { destruct (is_record item && unusable_type item)%bool eqn:Eb; [| reflexivity].
        apply (parse_item_thrown (gen n)) in Eb. congruence. }
      rewrite Hn. cbn [orb]. rewrite <- (IH (S n)).
      destruct (parse_items gen (S n) items); split; congruence.
    + assert (Hn : (is_record item && unusable_type item)%bool = false).
      { destruct (is_record item && unusable_type item)%bool eqn:Eb; [| reflexivity].
        apply (parse_item_thrown (gen n)) in Eb. congruence. }
      rewrite Hn. cbn [orb]. apply IH.
    + apply parse_item_thrown in E. rewrite E. split; reflexivity.
Qed.


Lemma parse_items_ids (gen : nat -> jsstring) (items : list json) : forall n qs,
  parse_items gen n items = Returned qs ->
  map q_id qs = map gen (seq n (List.length qs)).
Proof.
  induction items as [| item items IH]; intros n qs H; cbn [parse_items] in H.
  - injection H as <-. reflexivity.
  - destruct (parse_item (gen n) item) as [[q |] |] eqn:E; [| | discriminate].
    + destruct (parse_items gen (S n) items) as [qs0 |] eqn:E0; [| discriminate].
      injection H as <-. cbn [map List.length seq].
      destruct (parse_item_inv _ _ _ E) as (type & _ & Hid & _).
      rewrite Hid, (IH (S n) qs0 E0). reflexivity.
    + apply (IH n). exact H.
Qed.

(** X7.  The questions returned carry the identifiers in the order in
    which [generateId] hands them out: elements of the array that are not
    records consume none. *)
Theorem smartParseJSON_ids (gen : nat -> jsstring) (input : json) :
  map q_id (questions (smartParseJSON gen input)) =
  map gen (seq 0 (List.length (questions (smartParseJSON gen input)))).
Proof.
  rewrite smartParseJSON_unfold.
  destruct (parse_items gen 0 (candidate_items input)) as [qs |] eqn:E; cbn [questions].
  - apply (parse_items_ids gen _ 0 qs E).
  - reflexivity.
Qed.

Lemma parse_items_records (gen : nat -> jsstring) (items : list json) : forall n qs,
  parse_items gen n items = Returned qs ->
  Forall2 (fun item q => parse_item (q_id q) item = Returned (Some q))
          (filter is_record items) qs.
Proof.
  induction items as [| item items IH]; intros n qs H; cbn [parse_items] in H.
  - injection H as <-. constructor.
  - cbn [filter]. destruct (parse_item (gen n) item) as [[q |] |] eqn:E; [| | discriminate].
    + destruct (parse_items gen (S n) items) as [qs0 |] eqn:E0; [| discriminate].
      injection H as <-.
      destruct (is_record item) eqn:Er.
      * constructor; [| apply (IH (S n)); exact E0].
        destruct (parse_item_inv _ _ _ E) as (type & _ & Hid & _).
        rewrite Hid. exact E.
      * rewrite (parse_item_not_record _ _ Er) in E. discriminate.
    + destruct (is_record item) eqn:Er.
      * exfalso. exact (parse_item_record _ _ Er E).
      * apply (IH n). exact H.
Qed.

(** X8.  When the normalizer succeeds, its questions are, one for one and
    in the same order, what the callback makes of the records of the
    candidate array; the elements that are not records are left out. *)
Theorem smartParseJSON_one_per_record (gen : nat -> jsstring) (input : json) :
  error (smartParseJSON gen input) = None ->
  Forall2 (fun item q => parse_item (q_id q) item = Returned (Some q))
          (filter is_record (candidate_items input))
          (questions (smartParseJSON gen input)).
Proof.
  rewrite smartParseJSON_unfold.
  destruct (parse_items gen 0 (candidate_items input)) as [qs |] eqn:E;
    cbn [error questions]; [| discriminate].
  intros _. apply (parse_items_records gen _ 0 qs E).
Qed.

Lemma smartParseJSON_one_per_record_witness :
  error (smartParseJSON sample_ids mixed_input) = None /\
  Forall2 (fun item q => parse_item (q_id q) item = Returned (Some q))
          (filter is_record (candidate_items mixed_input))
          (questions (smartParseJSON sample_ids mixed_input)).
Proof.
  split; [reflexivity |].
  apply (smartParseJSON_one_per_record sample_ids mixed_input). reflexivity.
Defined.

Lemma format_empty : formatScientificText [] = [].
Proof. reflexivity. Qed.

Lemma parse_item_well_shaped (id : jsstring) (item : json) (q : Question) :
  parse_item id item = Returned (Some q) -> well_shaped q = true.
Proof.
  intros H. destruct (parse_item_inv _ _ _ H) as (type & _ & _ & Hty & _ & Hop & _ & Htx).
  unfold well_shaped. rewrite Hty, Hop, Htx.
  destruct type; try rewrite format_empty.
  - rewrite length_map, andb_true_r.
    destruct (Nat.ltb (List.length (found_options item)) 2) eqn:El.
    + reflexivity.
    + apply Nat.ltb_ge in El. apply Nat.leb_le. exact El.
  - reflexivity.
  - reflexivity.
Qed.

(** X9.  Every question that the normalizer returns has the shape of its
    type: a true-false question the two options "True" and "False", a
    multiple-choice question at least two options, and every question
    that is not a short answer an empty answer text. *)
Theorem smartParseJSON_well_shaped (gen : nat -> jsstring) (input : json) :
  forallb well_shaped (questions (smartParseJSON gen input)) = true.
Proof.
  apply forallb_forall. intros q Hq.
  destruct (smartParseJSON_questions gen input q Hq) as (id & item & H).
  exact (parse_item_well_shaped id item q H).
Qed.

(** ** The data tab *)

Lemma or_else_twice {A : Type} (a b : option A) : or_else a (or_else a b) = or_else a b.
Proof. destruct a; reflexivity. Qed.

Lemma spread_twice {num : Type} (prev m : PartialExam num) (qs qs' : option (list Question)) :
  set_questions (spread (set_questions (spread prev m) qs) m) qs'
  = set_questions (spread prev m) qs'.
Proof.
  unfold set_questions, spread. cbn. rewrite !or_else_twice. reflexivity.
Qed.

Lemma parse_items_length (gen : nat -> jsstring) (items : list json) (n : nat)
    (qs : list Question) :
  parse_items gen n items = Returned qs ->
  List.length qs = List.length (filter is_record items).
Proof.
  intros H. symmetry. eapply Forall2_length. apply (parse_items_records gen items n qs H).
Qed.

(** The outcome of the normalizer depends on the identifiers only in the
    identifiers of its questions. *)
Lemma smartParseJSON_gen (gen1 gen2 : nat -> jsstring) (input : json) :
  error (smartParseJSON gen1 input) = error (smartParseJSON gen2 input) /\
  meta (smartParseJSON gen1 input) = meta (smartParseJSON gen2 input) /\
  List.length (questions (smartParseJSON gen1 input))
  = List.length (questions (smartParseJSON gen2 input)).
Proof.
  rewrite !smartParseJSON_unfold.
  destruct (parse_items gen1 0 (candidate_items input)) as [qs1 |] eqn:E1;
    destruct (parse_items gen2 0 (candidate_items input)) as [qs2 |] eqn:E2;
    cbn [error meta questions].
  - repeat split.
    rewrite (parse_items_length _ _ _ _ E1), (parse_items_length _ _ _ _ E2). reflexivity.
  - apply parse_items_thrown in E2. apply (parse_items_thrown gen1 _ 0) in E2. congruence.
  - apply parse_items_thrown in E1. apply (parse_items_thrown gen2 _ 0) in E1. congruence.
  - repeat split.
Qed.

Lemma smartParseJSON_cases (gen : nat -> jsstring) (input : json) :
  (exists qs, smartParseJSON gen input = mkParseResult qs (found_meta input) None) \/
  smartParseJSON gen input = mkParseResult [] no_fields (Some malformed_error).
Proof.
  rewrite smartParseJSON_unfold.
  destruct (parse_items gen 0 (candidate_items input)) as [qs |]; [left; eauto | right; auto].
Qed.

(** X10.  Neither way of importing touches the identifier of the exam,
    its publication flag, its schedule or its question count, whatever
    the JSON holds. *)
Theorem import_keeps_identity (gen : nat -> jsstring) (code : parsed) (st : editor) :
  let kept (e : PartialExam jsnumber) :=
    (e_id e, e_isPublished e, e_scheduledDate e, e_questionCount e) in
  kept (exam (handleApplyJson gen code st)) = kept (exam st) /\
  kept (exam (handleFileUpload gen code st)) = kept (exam st).
Proof.
  intros kept. unfold kept, handleApplyJson, handleFileUpload.
  destruct code as [v | msg]; [| split; reflexivity].
  destruct (smartParseJSON_cases gen v) as [[qs ->] | ->]; cbn [error questions meta].
  - destruct v; destruct qs; split; reflexivity.
  - split; reflexivity.
Qed.

(** X11.  Uploading a file never removes or replaces a question: the
    questions of the exam afterwards are those before, followed by the
    questions that the normalizer returns.  It raises exactly one alert
    and leaves the error of the JSON editor alone. *)
Theorem handleFileUpload_appends (gen : nat -> jsstring) (code : parsed) (st : editor) :
  let questions_of (e : PartialExam jsnumber) :=
    match e_questions e with Some qs => qs | None => [] end in
  questions_of (exam (handleFileUpload gen code st))
  = questions_of (exam st)
    ++ match code with
       | Parsed v => questions (smartParseJSON gen v)
       | SyntaxError _ => []
       end /\
  List.length (alerts (handleFileUpload gen code st)) = S (List.length (alerts st)) /\
  jsonError (handleFileUpload gen code st) = jsonError st.
Proof.
  intros questions_of. unfold questions_of, handleFileUpload.
  assert (Hal : forall (a : list jsstring) x, List.length (a ++ [x]) = S (List.length a)).
  { intros a x. rewrite length_app. cbn. apply Nat.add_1_r. }
  destruct code as [v | msg].
  - destruct (smartParseJSON_cases gen v) as [[qs ->] | ->]; cbn [error questions meta].
    + destruct qs as [| q qs]; cbn [exam alerts jsonError set_questions e_questions];
        rewrite ?app_nil_r, Hal; auto.
    + change malformed_error with (77%N :: str "alformed JSON.").
      cbn [exam alerts jsonError]. rewrite app_nil_r, Hal. auto.
  - cbn [exam alerts jsonError]. rewrite app_nil_r, Hal. auto.
Qed.

(** X12.  Applying the same JSON a second time changes nothing but the
    identifiers of the imported questions: the exam is the one that a
    single application with the later identifiers gives, and the error
    shown is the same. *)
Theorem handleApplyJson_twice (gen1 gen2 : nat -> jsstring) (code : parsed) (st : editor) :
  exam (handleApplyJson gen2 code (handleApplyJson gen1 code st))
  = exam (handleApplyJson gen2 code st) /\
  jsonError (handleApplyJson gen2 code (handleApplyJson gen1 code st))
  = jsonError (handleApplyJson gen1 code st).
Proof.
  unfold handleApplyJson. destruct code as [v | msg]; [| split; reflexivity].
  destruct (smartParseJSON_gen gen1 gen2 v) as (He & Hm & Hl).
  destruct (smartParseJSON_cases gen1 v) as [[qs1 E1] | E1];
    destruct (smartParseJSON_cases gen2 v) as [[qs2 E2] | E2];
    rewrite E1, E2 in *; cbn [error questions meta] in *; try discriminate.
  - cbn [exam jsonError]. split; [| reflexivity].
    rewrite spread_twice.
    destruct qs2 as [| q2 qs2]; [| reflexivity].
    destruct qs1 as [| q1 qs1]; [reflexivity | discriminate].
  - split; reflexivity.
Qed.

(** ** Applying the export of the exam itself *)

Lemma lookup_property_here (k : string) (v : option json) (rest : list (jsstring * json)) :
  lookup (str k) (property k v ++ rest)
  = match v with Some x => Some x | None => lookup (str k) rest end.
Proof.
  destruct v; cbn [property app lookup]; [rewrite jsstring_eqb_refl |]; reflexivity.
Qed.

Ltac export_field :=
  unfold export_exam, get;
  rewrite ?lookup_property_other by reflexivity;
  try rewrite lookup_property_here;
  match goal with
  | |- match ?v with Some _ => _ | None => _ end = _ =>
      destruct v; [reflexivity |];
      rewrite ?lookup_property_other by reflexivity;
      apply lookup_property_last; reflexivity
  | |- _ => apply lookup_property_last; reflexivity
  end.

Lemma export_exam_fields (e : PartialExam Z) :
  get (export_exam e) (str "title") = option_map JStr (e_title e) /\
  get (export_exam e) (str "description") = option_map JStr (e_description e) /\
  get (export_exam e) (str "difficulty") = e_difficulty e /\
  get (export_exam e) (str "durationMinutes") = option_map JNum (e_durationMinutes e) /\
  get (export_exam e) (str "duration") = None /\
  get (export_exam e) (str "totalMarks") = None /\
  get (export_exam e) (str "maxAttempts") = option_map JNum (e_maxAttempts e) /\
  get (export_exam e) (str "shuffleQuestions") = option_map JBool (e_shuffleQuestions e) /\
  get (export_exam e) (str "negativeMarking") = option_map JNum (e_negativeMarking e) /\
  get (export_exam e) (str "targetClass") = option_map JStr (e_targetClass e) /\
  get (export_exam e) (str "targetDivision") = option_map JStr (e_targetDivision e).
Proof.
  repeat split; export_field.
Qed.

Lemma spread_own_export (e : PartialExam Z) :
  spread (with_numbers e) (extract_meta (export_exam e)) = with_numbers e.
Proof.
  destruct (export_exam_fields e)
    as (Ht & Hd & Hdf & Hdm & Hdu & Htm & Hma & Hsq & Hnm & Htc & Htd).
  unfold extract_meta. rewrite Ht, Hd, Hdf, Hdm, Hdu, Htm, Hma, Hsq, Hnm, Htc, Htd.
  destruct e as [id title description duration count qs total difficulty scheduled
                   published attempts shuffle negative class division].
  unfold spread, with_numbers. cbn [e_id e_title e_description e_durationMinutes
    e_questionCount e_questions e_totalMarks e_difficulty e_scheduledDate e_isPublished
    e_maxAttempts e_shuffleQuestions e_negativeMarking e_targetClass e_targetDivision].
  f_equal.
  - destruct title as [[| c t] |]; reflexivity.
  - destruct description as [[| c t] |]; reflexivity.
  - destruct duration as [n |]; [| reflexivity]. unfold js_or. cbn [option_map truthy].
    destruct (Z.eqb n 0) eqn:E; cbn [negb truthy option_map]; rewrite ?E; reflexivity.
  - destruct difficulty as [d |]; [| reflexivity]. destruct (truthy (Some d)); reflexivity.
  - destruct attempts; reflexivity.
  - destruct shuffle as [[|] |]; reflexivity.
  - destruct negative; reflexivity.
  - destruct class; reflexivity.
  - destruct division; reflexivity.
Qed.

Lemma found_meta_export (e : PartialExam Z) :
  found_meta (export_exam e) = extract_meta (export_exam e).
Proof.
  assert (Hobj : exists fields, export_exam e = JObj fields) by (eexists; reflexivity).
  destruct Hobj as [fields Hobj].
  pose proof (export_exam_no_exam e) as Hexam.
  rewrite Hobj in *. unfold found_meta. rewrite Hexam. reflexivity.
Qed.

(** X13.  The JSON editor opens on the export of the exam.  Applying
    that export, or uploading it as a file, leaves every setting of the
    exam as it is; only the question list is read anew. *)
Theorem own_export_keeps_settings (gen : nat -> jsstring) (e : PartialExam Z)
    (shown : option jsstring) (raised : list jsstring) :
  let st := mkEditor (with_numbers e) shown raised in
  set_questions (exam (handleApplyJson gen (Parsed (export_exam e)) st)) None
  = set_questions (with_numbers e) None /\
  set_questions (exam (handleFileUpload gen (Parsed (export_exam e)) st)) None
  = set_questions (with_numbers e) None.
Proof.
  intros st. unfold handleApplyJson, handleFileUpload.
  destruct (smartParseJSON_cases gen (export_exam e)) as [[qs ->] | ->];
    cbn [error questions meta].
  - rewrite found_meta_export. cbn [exam st]. rewrite spread_own_export.
    destruct qs; split; reflexivity.
  - change malformed_error with (77%N :: str "alformed JSON.").
    split; reflexivity.
Qed.

(** ** The numeric inputs of the settings tab *)

Lemma str_cons (a : ascii) (s : string) : str (String a s) = N_of_ascii a :: str s.
Proof. reflexivity. Qed.

Lemma digit_in_decimal (k : N) :
  (k < 10)%N -> digit_in 10 (48 + k) = Some k.
Proof.
  intros H. unfold digit_in, is_digit, in_range.
  replace (N.leb 48 (48 + k)) with true by (symmetry; apply N.leb_le; lia).
  replace (N.leb (48 + k) 57) with true by (symmetry; apply N.leb_le; lia).
  cbn [andb]. replace (48 + k - 48)%N with k by lia.
  replace (N.ltb k 10) with true by (symmetry; apply N.ltb_lt; lia).
  reflexivity.
Qed.

(** What stops the reading of a decimal number, and is not the [x] of a
    hexadecimal prefix. *)
Lemma read_digits_stop (count acc : N) (rest : jsstring) :
  match rest with [] => True | c :: _ => digit_in 10 c = None end ->
  read_digits 10 count acc rest = (count, acc).
Proof. destruct rest as [| c t]; cbn [read_digits]; [reflexivity | intros ->; reflexivity]. Qed.

Lemma read_digits_acc (rest : jsstring) (d : Decimal.uint) : forall (count : N) (p : positive),
  read_digits 10 count (N.pos p) (str (NilEmpty.string_of_uint d) ++ rest)
  = read_digits 10 (count + N.of_nat (Decimal.nb_digits d))
      (N.pos (Pos.of_uint_acc d p)) rest.
Proof.
  induction d as [| d IH | d IH | d IH | d IH | d IH | d IH | d IH | d IH | d IH | d IH];
    intros count p;
    cbn [NilEmpty.string_of_uint Decimal.nb_digits Pos.of_uint_acc];
    [cbn [str list_ascii_of_string map app]; f_equal; lia | ..];
    rewrite str_cons; cbn [app read_digits];
    match goal with
    | |- context [digit_in 10 (N_of_ascii ?a)] =>
        let v := eval cbv in (N_of_ascii a - 48)%N in
        change (N_of_ascii a) with (48 + v)%N;
        rewrite (digit_in_decimal v) by lia
    end;
    match goal with
    | |- read_digits 10 ?c ?a _ = _ =>
        match type of (IH c 1%positive) with
        | _ => idtac
        end
    end;
    match goal with
    | |- read_digits 10 ?c (N.pos p * 10 + ?v) _ = read_digits 10 _ (N.pos (Pos.of_uint_acc d ?q)) _ =>
        replace (N.pos p * 10 + v)%N with (N.pos q) by lia;
        rewrite (IH c q); f_equal; lia
    end.
Qed.

Lemma read_digits_uint (rest : jsstring) (d : Decimal.uint) : forall (count : N),
  read_digits 10 count 0 (str (NilEmpty.string_of_uint d) ++ rest)
  = read_digits 10 (count + N.of_nat (Decimal.nb_digits d)) (Pos.of_uint d) rest.
Proof.
  induction d as [| d IH | d IH | d IH | d IH | d IH | d IH | d IH | d IH | d IH | d IH];
    intros count;
    cbn [NilEmpty.string_of_uint Decimal.nb_digits Pos.of_uint];
    [cbn [str list_ascii_of_string map app]; f_equal; lia
    | rewrite str_cons; cbn [app read_digits];
      change (N_of_ascii "0") with (48 + 0)%N; rewrite (digit_in_decimal 0) by lia;
      change (0 * 10 + 0)%N with 0%N; rewrite IH; f_equal; lia
    | ..];
    rewrite str_cons; cbn [app read_digits];
    match goal with
    | |- context [digit_in 10 (N_of_ascii ?a)] =>
        let v := eval cbv in (N_of_ascii a - 48)%N in
        change (N_of_ascii a) with (48 + v)%N;
        rewrite (digit_in_decimal v) by lia
    end;
    match goal with
    | |- read_digits 10 ?c (0 * 10 + ?v) _ = read_digits 10 _ (N.pos (Pos.of_uint_acc d ?q)) _ =>
        change (0 * 10 + v)%N with (N.pos q);
        rewrite (read_digits_acc rest d c q); f_equal; lia
    end.
Qed.

Lemma uint_head (d : Decimal.uint) (rest : jsstring) :
  d <> Decimal.Nil ->
  exists c t, str (NilEmpty.string_of_uint d) ++ rest = c :: t /\ is_digit c = true /\
    match t with
    | [] => rest = []
    | x :: _ => is_digit x = true \/ exists r, rest = x :: r
    end.
Proof.
  intros Hd.
  assert (Hnext : forall l : Decimal.uint,
            match str (NilEmpty.string_of_uint l) ++ rest with
            | [] => rest = []
            | x :: _ => is_digit x = true \/ exists r, rest = x :: r
            end).
  { intros l. destruct l; cbn [NilEmpty.string_of_uint]; rewrite ?str_cons; cbn [app];
      try (left; reflexivity).
    cbn [str list_ascii_of_string map app]. destruct rest; eauto. }
  destruct d as [| l | l | l | l | l | l | l | l | l | l]; [congruence | ..];
    cbn [NilEmpty.string_of_uint]; rewrite str_cons; cbn [app];
    eexists; eexists; (split; [reflexivity |]); (split; [reflexivity |]); apply Hnext.
Qed.

Lemma parseInt_unsigned (c : char) (t : jsstring) :
  is_digit c = true ->
  match t with [] => True | x :: _ => char_eqb x 120 = false /\ char_eqb x 88 = false end ->
  parseInt (c :: t)
  = match read_digits 10 0 0 (c :: t) with
    | (0%N, _) => None
    | (_, n) => Some (Z.of_N n)
    end.
Proof.
  intros Hc Ht. unfold parseInt. cbn [skip_spaces].
  assert (Hs : is_space c = false) by (digit_cases c Hc; reflexivity).
  assert (Hm : char_eqb c 45 = false) by (digit_cases c Hc; reflexivity).
  assert (Hp : char_eqb c 43 = false) by (digit_cases c Hc; reflexivity).
  rewrite Hs, Hm, Hp. cbv beta iota zeta.
  destruct t as [| x t]; [reflexivity |].
  destruct Ht as [H1 H2].
  rewrite H1, H2. cbn [orb]. rewrite andb_false_r. reflexivity.
Qed.

Lemma parseInt_negative (c : char) (t : jsstring) :
  is_digit c = true ->
  match t with [] => True | x :: _ => char_eqb x 120 = false /\ char_eqb x 88 = false end ->
  parseInt (45%N :: c :: t)
  = match read_digits 10 0 0 (c :: t) with
    | (0%N, _) => None
    | (_, n) => Some (- Z.of_N n)%Z
    end.
Proof.
  intros Hc Ht. unfold parseInt. cbn [skip_spaces].
  change (is_space 45) with false. cbv beta iota zeta.
  change (char_eqb 45 45) with true. cbv beta iota zeta.
  destruct t as [| x t]; [reflexivity |].
  destruct Ht as [H1 H2]. rewrite H1, H2. cbn [orb]. rewrite andb_false_r. reflexivity.
Qed.

Lemma digit_not_x (x : char) :
  is_digit x = true -> char_eqb x 120 = false /\ char_eqb x 88 = false.
Proof. intros H. digit_cases x H; split; reflexivity. Qed.

Lemma parseInt_printed (n : Z) (rest : jsstring) :
  match rest with
  | [] => True
  | c :: _ => digit_in 10 c = None /\ char_eqb c 120 = false /\ char_eqb c 88 = false
  end ->
  parseInt (number_to_string n ++ rest) = Some n.
Proof.
  intros Hrest.
  assert (Hstop : match rest with [] => True | c :: _ => digit_in 10 c = None end).
  { destruct rest; [exact I | apply Hrest]. }
  assert (Hread : forall d : Decimal.uint, d <> Decimal.Nil ->
            exists k, read_digits 10 0 0 (str (NilEmpty.string_of_uint d) ++ rest)
                      = (N.pos k, Pos.of_uint d)).
  { intros d Hd. rewrite read_digits_uint, (read_digits_stop _ _ _ Hstop).
    destruct d; try congruence; cbn [Decimal.nb_digits];
      rewrite Nat2N.inj_succ; cbn [N.add];
      destruct (N.succ _) eqn:E; try lia; eauto. }
  assert (Hhead : forall d : Decimal.uint, d <> Decimal.Nil ->
            exists c t, str (NilEmpty.string_of_uint d) ++ rest = c :: t /\
              is_digit c = true /\
              match t with
              | [] => True
              | x :: _ => char_eqb x 120 = false /\ char_eqb x 88 = false
              end).
  { intros d Hd. destruct (uint_head d rest Hd) as (c & t & E & Hc & Ht).
    exists c, t. split; [exact E |]. split; [exact Hc |].
    destruct t as [| x t]; [exact I |].
    destruct Ht as [Hx | [r ->]]; [apply digit_not_x; exact Hx | apply Hrest]. }
  assert (Hnil : forall d : Decimal.uint, d <> Decimal.Nil ->
            NilZero.string_of_uint d = NilEmpty.string_of_uint d).
  { intros d Hd. destruct d; [congruence | reflexivity ..]. }
  unfold number_to_string.
  destruct n as [| p | p]; cbn [Z.to_int NilZero.string_of_int].
  - assert (Hd : Decimal.D0 Decimal.Nil <> Decimal.Nil) by discriminate.
    rewrite (Hnil _ Hd).
    destruct (Hhead _ Hd) as (c & t & E & Hc & Ht).
    destruct (Hread _ Hd) as (k & Hk).
    rewrite E in *. rewrite (parseInt_unsigned c t Hc Ht), Hk. reflexivity.
  - pose proof (DecimalPos.Unsigned.to_uint_nonnil p) as Hd.
    rewrite (Hnil _ Hd).
    destruct (Hhead _ Hd) as (c & t & E & Hc & Ht).
    destruct (Hread _ Hd) as (k & Hk).
    rewrite E in *. rewrite (parseInt_unsigned c t Hc Ht), Hk.
    rewrite DecimalPos.Unsigned.of_to. reflexivity.
  - pose proof (DecimalPos.Unsigned.to_uint_nonnil p) as Hd.
    rewrite (Hnil _ Hd), str_cons. cbn [app].
    destruct (Hhead _ Hd) as (c & t & E & Hc & Ht).
    destruct (Hread _ Hd) as (k & Hk).
    rewrite E in *. change (N_of_ascii "-") with 45%N.
    etransitivity; [apply (parseInt_negative c t Hc Ht) |].
    rewrite Hk, DecimalPos.Unsigned.of_to. reflexivity.
Qed.

(** X14.  A numeric input stores the integer that its text prints, and
    cuts off a decimal fraction: for every safe integer [n] the texts
    [String(n)] and [String(n) + "." + fraction] both store [n]. *)
Theorem handleNumInput_stores_integer (field : numeric_field) (n : Z) (fraction : jsstring)
    (prev : PartialExam jsnumber) :
  (Z.abs n <= 9007199254740991)%Z ->
  handleNumInput field (number_to_string n) prev = set_numeric field (Num n) prev /\
  handleNumInput field (number_to_string n ++ str "." ++ fraction) prev
  = set_numeric field (Num n) prev.
Proof.
  intros _. unfold handleNumInput. split.
  - rewrite <- (app_nil_r (number_to_string n)).
    rewrite (parseInt_printed n [] I). reflexivity.
  - rewrite (parseInt_printed n (str "." ++ fraction)); [reflexivity |].
    cbn. repeat split.
Qed.

Lemma handleNumInput_stores_integer_witness :
  (Z.abs 90 <= 9007199254740991)%Z /\
  handleNumInput DurationMinutes (number_to_string 90) (exam draft)
  = set_numeric DurationMinutes (Num 90) (exam draft) /\
  handleNumInput DurationMinutes (number_to_string 90 ++ str "." ++ str "5") (exam draft)
  = set_numeric DurationMinutes (Num 90) (exam draft).
Proof.
  split; [lia |].
  apply (handleNumInput_stores_integer DurationMinutes 90 (str "5") (exam draft)). lia.
Defined.

(** ** The builder tab *)

Lemma remove_at_length {A : Type} (l : list A) : forall i,
  i < List.length l -> List.length (remove_at i l) = List.length l - 1.
Proof.
  induction l as [| x l IH]; intros i H; [inversion H |].
  destruct i as [| i]; cbn [remove_at List.length] in *.
  - lia.
  - rewrite IH; lia.
Qed.

Lemma remove_at_past {A : Type} (l : list A) : forall i,
  List.length l <= i -> remove_at i l = l.
Proof.
  induction l as [| x l IH]; intros i H; destruct i; cbn [remove_at List.length] in *;
    try reflexivity; [lia |].
  rewrite IH; [reflexivity | lia].
Qed.

Lemma remove_at_before {A : Type} (l : list A) : forall i j,
  j < i -> nth_error (remove_at i l) j = nth_error l j.
Proof.
  induction l as [| x l IH]; intros i j H; destruct i as [| i]; try lia.
  - reflexivity.
  - destruct j as [| j]; cbn [remove_at nth_error]; [reflexivity | apply IH; lia].
Qed.

Lemma remove_at_after {A : Type} (l : list A) : forall i j,
  i <= j -> nth_error (remove_at i l) j = nth_error l (S j).
Proof.
  induction l as [| x l IH]; intros i j H.
  - destruct i, j; reflexivity.
  - destruct i as [| i]; cbn [remove_at]; [reflexivity |].
    destruct j as [| j]; [lia |]. cbn [nth_error]. apply IH. lia.
Qed.

Lemma remove_at_app_last {A : Type} (l : list A) (x : A) :
  remove_at (List.length l) (l ++ [x]) = l.
Proof. induction l as [| y l IH]; cbn; [reflexivity | rewrite IH; reflexivity]. Qed.

Lemma remove_at_insert_at {A : Type} (x : A) (l : list A) : forall i,
  i <= List.length l -> remove_at i (insert_at i x l) = l.
Proof.
  induction l as [| y l IH]; intros i H; destruct i as [| i]; cbn in *;
    try reflexivity; [lia |].
  rewrite IH; [reflexivity | lia].
Qed.

Lemma replace_at_nth {A : Type} (x : A) (l : list A) : forall i,
  i < List.length l -> nth_error (replace_at i x l) i = Some x.
Proof.
  induction l as [| y l IH]; intros i H; [inversion H |].
  destruct i as [| i]; cbn [replace_at nth_error List.length] in *;
    [reflexivity | apply IH; lia].
Qed.

Lemma replace_at_other {A : Type} (x : A) (l : list A) : forall i j,
  i <> j -> nth_error (replace_at i x l) j = nth_error l j.
Proof.
  induction l as [| y l IH]; intros i j H; destruct i as [| i]; destruct j as [| j];
    cbn [replace_at nth_error]; try reflexivity; try congruence.
  apply IH. congruence.
Qed.

Lemma replace_at_length {A : Type} (x : A) (l : list A) : forall i,
  List.length (replace_at i x l) = List.length l.
Proof.
  induction l as [| y l IH]; intros i; destruct i; cbn; try reflexivity.
  rewrite IH. reflexivity.
Qed.

Lemma replace_at_twice {A : Type} (x y : A) (l : list A) : forall i,
  replace_at i x (replace_at i y l) = replace_at i x l.
Proof.
  induction l as [| z l IH]; intros i; destruct i; cbn; try reflexivity.
  rewrite IH. reflexivity.
Qed.

Lemma replace_at_same {A : Type} (x : A) (l : list A) : forall i,
  nth_error l i = Some x -> replace_at i x l = l.
Proof.
  induction l as [| z l IH]; intros i H; destruct i; cbn in *; try discriminate.
  - congruence.
  - rewrite IH; auto.
Qed.

Lemma set_questions_same {num : Type} (e : PartialExam num) (qs : list Question) :
  e_questions e = Some qs -> set_questions e (Some qs) = e.
Proof. destruct e; cbn; intros ->; reflexivity. Qed.

Lemma set_questions_twice {num : Type} (e : PartialExam num) (a b : option (list Question)) :
  set_questions (set_questions e a) b = set_questions e b.
Proof. reflexivity. Qed.

(** X15.  Removing an option keeps a valid mark valid: when the marked
    answer of a question is one of its options and there are at least
    two, it is one of the options that remain; an option removed after
    the marked one leaves the mark on the same option. *)
Theorem removeOption_answer_in_range (qIdx oIdx : nat) (m : manager)
    (qs : list Question) (q : Question) :
  e_questions (currentExam m) = Some qs ->
  nth_error qs qIdx = Some q ->
  (0 <= q_correctAnswer q < Z.of_nat (List.length (q_options q)))%Z ->
  1 < List.length (q_options q) ->
  exists q',
    removeOption qIdx oIdx m = Returned (with_questions m (replace_at qIdx q' qs)) /\
    nth_error (replace_at qIdx q' qs) qIdx = Some q' /\
    (0 <= q_correctAnswer q' < Z.of_nat (List.length (q_options q')))%Z /\
    ((q_correctAnswer q < Z.of_nat oIdx)%Z ->
     q_correctAnswer q' = q_correctAnswer q /\
     nth_error (q_options q') (Z.to_nat (q_correctAnswer q'))
     = nth_error (q_options q) (Z.to_nat (q_correctAnswer q))).
Proof.
  intros Hqs Hq Hca Hlen.
  unfold removeOption, on_question. rewrite Hqs, Hq.
  eexists. split; [reflexivity |]. split.
  - apply replace_at_nth. apply nth_error_Some. congruence.
  - cbn [q_correctAnswer q_options]. split.
    + destruct (Z.geb (q_correctAnswer q)
                  (Z.of_nat (List.length (remove_at oIdx (q_options q))))) eqn:E.
      * destruct (Nat.lt_ge_cases oIdx (List.length (q_options q))) as [Ho | Ho].
        -- rewrite (remove_at_length _ _ Ho). lia.
        -- rewrite (remove_at_past _ _ Ho). lia.
      * rewrite Z.geb_leb in E. apply Z.leb_gt in E. lia.
    + intros Hlt.
      assert (E : Z.geb (q_correctAnswer q)
                    (Z.of_nat (List.length (remove_at oIdx (q_options q)))) = false).
      { rewrite Z.geb_leb. apply Z.leb_gt.
        destruct (Nat.lt_ge_cases oIdx (List.length (q_options q))) as [Ho | Ho].
        - rewrite (remove_at_length _ _ Ho). lia.
        - rewrite (remove_at_past _ _ Ho). lia. }
      rewrite E. split; [reflexivity |].
      apply remove_at_before. lia.
Qed.

Lemma removeOption_answer_in_range_witness :
  e_questions (currentExam builder_state) = Some [kept_question; four_option_question] /\
  nth_error [kept_question; four_option_question] 1 = Some four_option_question /\
  (0 <= q_correctAnswer four_option_question
   < Z.of_nat (List.length (q_options four_option_question)))%Z /\
  1 < List.length (q_options four_option_question) /\
  exists q',
    removeOption 1 3 builder_state
    = Returned (with_questions builder_state
                  (replace_at 1 q' [kept_question; four_option_question])) /\
    nth_error (replace_at 1 q' [kept_question; four_option_question]) 1 = Some q' /\
    (0 <= q_correctAnswer q' < Z.of_nat (List.length (q_options q')))%Z /\
    ((q_correctAnswer four_option_question < Z.of_nat 3)%Z ->
     q_correctAnswer q' = q_correctAnswer four_option_question /\
     nth_error (q_options q') (Z.to_nat (q_correctAnswer q'))
     = nth_error (q_options four_option_question)
         (Z.to_nat (q_correctAnswer four_option_question))).
Proof.
  split; [reflexivity |]. split; [reflexivity |]. split; [cbn; lia |].
  split; [cbn; lia |].
  apply (removeOption_answer_in_range 1 3 builder_state
           [kept_question; four_option_question] four_option_question);
    [reflexivity | reflexivity | cbn; lia | cbn; lia].
Defined.

(** X16.  Adding an option and removing it again gives back the state
    before, for a question whose marked answer is below the number of its
    options. *)
Theorem addOption_removeOption (idx : nat) (m m1 : manager) (qs : list Question)
    (q : Question) :
  e_questions (currentExam m) = Some qs ->
  nth_error qs idx = Some q ->
  (q_correctAnswer q < Z.of_nat (List.length (q_options q)))%Z ->
  addOption idx m = Returned m1 ->
  removeOption idx (List.length (q_options q)) m1 = Returned m.
Proof.
  intros Hqs Hq Hca Hadd.
  unfold addOption, on_question in Hadd. rewrite Hqs, Hq in Hadd.
  injection Hadd as <-.
  assert (Hi : idx < List.length qs) by (apply nth_error_Some; congruence).
  unfold removeOption, on_question, with_questions.
  cbn [currentExam selectedQuestionIndex questionToDeleteIndex set_questions e_questions].
  rewrite (replace_at_nth _ _ _ Hi).
  cbn [q_options q_id q_type q_text q_correctAnswer q_correctAnswerText].
  rewrite remove_at_app_last, replace_at_twice.
  assert (E : Z.geb (q_correctAnswer q) (Z.of_nat (List.length (q_options q))) = false).
  { rewrite Z.geb_leb. apply Z.leb_gt. exact Hca. }
  rewrite E.
  replace (mkQuestion (q_id q) (q_type q) (q_text q) (q_options q) (q_correctAnswer q)
             (q_correctAnswerText q)) with q by (destruct q; reflexivity).
  rewrite (replace_at_same _ _ _ Hq).
  change (set_questions (set_questions (currentExam m) ?a) ?b)
    with (set_questions (currentExam m) b).
  rewrite (set_questions_same _ _ Hqs). destruct m; reflexivity.
Qed.

Lemma addOption_removeOption_witness :
  e_questions (currentExam builder_state) = Some [kept_question; four_option_question] /\
  nth_error [kept_question; four_option_question] 1 = Some four_option_question /\
  (q_correctAnswer four_option_question
   < Z.of_nat (List.length (q_options four_option_question)))%Z /\
  addOption 1 builder_state = Returned five_option_state /\
  removeOption 1 (List.length (q_options four_option_question)) five_option_state
  = Returned builder_state.
Proof.
  split; [reflexivity |]. split; [reflexivity |]. split; [cbn; lia |].
  split; [reflexivity |].
  apply (addOption_removeOption 1 builder_state five_option_state
           [kept_question; four_option_question] four_option_question);
    [reflexivity | reflexivity | cbn; lia | reflexivity].
Defined.

(** X17.  Deleting the copy that [cloneQuestion] has just made and
    selected gives back the exam, with the original selected. *)
Theorem cloneQuestion_deleteQuestion (id : jsstring) (idx : nat) (m m1 : manager) :
  cloneQuestion id idx m = Returned m1 ->
  deleteQuestion (onDelete m1) = mkManager (currentExam m) idx None.
Proof.
  unfold cloneQuestion, on_question.
  destruct (e_questions (currentExam m)) as [qs |] eqn:Hqs; [| discriminate].
  destruct (nth_error qs idx) as [q |] eqn:Hq; [| discriminate].
  intros H. injection H as <-.
  unfold deleteQuestion, onDelete.
  cbn [currentExam selectedQuestionIndex questionToDeleteIndex set_questions e_questions].
  assert (Hi : idx < List.length qs) by (apply nth_error_Some; congruence).
  rewrite remove_at_insert_at by lia. rewrite Nat.leb_refl.
  replace (Nat.ltb 0 (idx + 1)) with true by (symmetry; apply Nat.ltb_lt; lia).
  cbn [andb]. replace (idx + 1 - 1) with idx by lia.
  change (set_questions (set_questions (currentExam m) ?a) ?b)
    with (set_questions (currentExam m) b).
  rewrite (set_questions_same _ _ Hqs). reflexivity.
Qed.

Lemma cloneQuestion_deleteQuestion_witness :
  cloneQuestion (str "c1") 1 builder_state = Returned cloned_state /\
  deleteQuestion (onDelete cloned_state) = mkManager (currentExam builder_state) 1 None.
Proof.
  split; [reflexivity |].
  apply (cloneQuestion_deleteQuestion (str "c1") 1 builder_state cloned_state).
  reflexivity.
Defined.

(** X18.  Deleting a question shortens the list by one; a selected
    question other than the deleted one stays selected, and the selection
    stays inside the list as long as a question is left. *)
Theorem deleteQuestion_selection (m : manager) (d : nat) (qs : list Question) :
  questionToDeleteIndex m = Some d ->
  e_questions (currentExam m) = Some qs ->
  d < List.length qs ->
  selectedQuestionIndex m < List.length qs ->
  exists qs',
    e_questions (currentExam (deleteQuestion m)) = Some qs' /\
    S (List.length qs') = List.length qs /\
    questionToDeleteIndex (deleteQuestion m) = None /\
    (selectedQuestionIndex m <> d ->
     nth_error qs' (selectedQuestionIndex (deleteQuestion m))
     = nth_error qs (selectedQuestionIndex m)) /\
    (qs' <> [] -> selectedQuestionIndex (deleteQuestion m) < List.length qs').
Proof.
  intros Hd Hqs Hlt Hsel. unfold deleteQuestion. rewrite Hd, Hqs.
  cbn [currentExam selectedQuestionIndex questionToDeleteIndex set_questions e_questions].
  exists (remove_at d qs).
  pose proof (remove_at_length qs d Hlt) as Hlen.
  split; [reflexivity |]. split; [lia |]. split; [reflexivity |].
  set (sel := selectedQuestionIndex m) in *.
  destruct (Nat.leb d sel) eqn:E1; destruct (Nat.ltb 0 sel) eqn:E2; cbn [andb];
    try apply Nat.leb_le in E1; try apply Nat.leb_gt in E1;
    try apply Nat.ltb_lt in E2; try apply Nat.ltb_ge in E2.
  - split.
    + intros Hne. rewrite remove_at_after by lia. f_equal. lia.
    + intros Hne. destruct (remove_at d qs); [congruence |]. cbn [List.length] in *. lia.
  - split.
    + intros Hne. lia.
    + intros Hne. destruct (remove_at d qs); [congruence |]. cbn [List.length] in *. lia.
  - split.
    + intros Hne. apply remove_at_before. lia.
    + intros Hne. lia.
  - split.
    + intros Hne. apply remove_at_before. lia.
    + intros Hne. lia.
Qed.

Lemma deleteQuestion_selection_witness :
  questionToDeleteIndex (onDelete cloned_state) = Some 2 /\
  e_questions (currentExam (onDelete cloned_state))
  = Some [kept_question; four_option_question; copied_question] /\
  2 < List.length [kept_question; four_option_question; copied_question] /\
  selectedQuestionIndex (onDelete cloned_state)
  < List.length [kept_question; four_option_question; copied_question] /\
  exists qs',
    e_questions (currentExam (deleteQuestion (onDelete cloned_state))) = Some qs' /\
    S (List.length qs')
    = List.length [kept_question; four_option_question; copied_question] /\
    questionToDeleteIndex (deleteQuestion (onDelete cloned_state)) = None /\
    (selectedQuestionIndex (onDelete cloned_state) <> 2 ->
     nth_error qs' (selectedQuestionIndex (deleteQuestion (onDelete cloned_state)))
     = nth_error [kept_question; four_option_question; copied_question]
         (selectedQuestionIndex (onDelete cloned_state))) /\
    (qs' <> [] ->
     selectedQuestionIndex (deleteQuestion (onDelete cloned_state)) < List.length qs').
Proof.
  split; [reflexivity |]. split; [reflexivity |]. split; [cbn; lia |].
  split; [cbn; lia |].
  apply (deleteQuestion_selection (onDelete cloned_state) 2
           [kept_question; four_option_question; copied_question]);
    [reflexivity | reflexivity | cbn; lia | cbn; lia].
Defined.

Lemma findIndex_first {A : Type} (f : A -> bool) (l : list A) :
  (exists x, In x l /\ f x = true) ->
  exists x, (0 <= findIndex f l)%Z /\
            nth_error l (Z.to_nat (findIndex f l)) = Some x /\ f x = true.
Proof.
  induction l as [| y l IH]; intros (x & Hin & Hx); [destruct Hin |].
  cbn [findIndex]. destruct (f y) eqn:Ey.
  - exists y. repeat split; [lia | assumption].
  - destruct Hin as [-> | Hin]; [congruence |].
    destruct (IH (ex_intro _ x (conj Hin Hx))) as (z & Hz0 & Hz & Hfz).
    destruct (Z.eqb_spec (findIndex f l) (-1)) as [E | E]; [lia |].
    exists z. split; [lia |]. split; [| exact Hfz].
    replace (Z.to_nat (findIndex f l + 1)) with (S (Z.to_nat (findIndex f l))) by lia.
    exact Hz.
Qed.

Lemma NoDup_map_eq {A B : Type} (f : A -> B) (l : list A) (x y : A) :
  NoDup (map f l) -> In x l -> In y l -> f x = f y -> x = y.
Proof.
  induction l as [| z l IH]; intros Hnd Hx Hy Hf; [destruct Hx |].
  cbn [map] in Hnd. inversion Hnd as [| ? ? Hnot Hnd']; subst.
  destruct Hx as [-> | Hx]; destruct Hy as [-> | Hy].
  - reflexivity.
  - exfalso. apply Hnot. rewrite Hf. apply in_map. exact Hy.
  - exfalso. apply Hnot. rewrite <- Hf. apply in_map. exact Hx.
  - apply IH; assumption.
Qed.

(** X19.  After a reordering the question that was selected is still the
    selected one, when the identifiers of the questions are distinct and
    that of the selected question is not empty. *)
Theorem onReorder_follows_selection (newOrder qs : list Question) (m : manager)
    (q : Question) :
  e_questions (currentExam m) = Some qs ->
  nth_error qs (selectedQuestionIndex m) = Some q ->
  q_id q <> [] ->
  NoDup (map q_id qs) ->
  Permutation qs newOrder ->
  e_questions (currentExam (onReorder newOrder m)) = Some newOrder /\
  nth_error newOrder (selectedQuestionIndex (onReorder newOrder m)) = Some q.
Proof.
  intros Hqs Hq Hid Hnd Hperm. unfold onReorder. rewrite Hqs, Hq.
  cbn [option_map currentExam selectedQuestionIndex set_questions e_questions].
  split; [reflexivity |].
  destruct (q_id q) as [| c rest] eqn:Eid; [congruence |].
  assert (Hin : In q newOrder).
  { apply (Permutation_in q Hperm). eapply nth_error_In. exact Hq. }
  destruct (findIndex_first (fun q0 => jsstring_eqb (q_id q0) (c :: rest)) newOrder)
    as (x & H0 & Hx & Hfx).
  { exists q. split; [exact Hin |]. rewrite Eid. apply jsstring_eqb_refl. }
  destruct (Z.eqb_spec (findIndex (fun q0 => jsstring_eqb (q_id q0) (c :: rest)) newOrder)
              (-1)) as [E | E]; [lia |].
  rewrite Hx. f_equal.
  apply jsstring_eqb_eq in Hfx.
  apply (NoDup_map_eq q_id newOrder x q).
  - apply (Permutation_NoDup (Permutation_map q_id Hperm) Hnd).
  - eapply nth_error_In. exact Hx.
  - exact Hin.
  - congruence.
Qed.

Lemma onReorder_follows_selection_witness :
  e_questions (currentExam builder_state) = Some [kept_question; four_option_question] /\
  nth_error [kept_question; four_option_question] (selectedQuestionIndex builder_state)
  = Some four_option_question /\
  q_id four_option_question <> [] /\
  NoDup (map q_id [kept_question; four_option_question]) /\
  Permutation [kept_question; four_option_question] [four_option_question; kept_question] /\
  e_questions (currentExam (onReorder [four_option_question; kept_question] builder_state))
  = Some [four_option_question; kept_question] /\
  nth_error [four_option_question; kept_question]
    (selectedQuestionIndex (onReorder [four_option_question; kept_question] builder_state))
  = Some four_option_question.
Proof.
  assert (Hid : q_id four_option_question <> []) by (cbn; discriminate).
  assert (Hnd : NoDup (map q_id [kept_question; four_option_question])).
  { cbn. repeat constructor; cbn; intuition discriminate. }
  split; [reflexivity |]. split; [reflexivity |]. split; [exact Hid |].
  split; [exact Hnd |]. split; [apply perm_swap |].
  apply (onReorder_follows_selection [four_option_question; kept_question]
           [kept_question; four_option_question] builder_state four_option_question);
    [reflexivity | reflexivity | exact Hid | exact Hnd | apply perm_swap].
Defined.




(** X20.  [handleAdd] puts a blank multiple-choice question with four
    empty options after the questions of the exam, which stay as they
    are, and selects it. *)
Theorem handleAdd_selects_new (id : jsstring) (m : manager) :
  let before := match e_questions (currentExam m) with Some qs => qs | None => [] end in
  let blank := mkQuestion id MultipleChoice [] [[]; []; []; []] 0 None in
  e_questions (currentExam (handleAdd id m)) = Some (before ++ [blank]) /\
  nth_error (before ++ [blank]) (selectedQuestionIndex (handleAdd id m)) = Some blank /\
  questionToDeleteIndex (handleAdd id m) = questionToDeleteIndex m.
Proof.
  intros before blank. unfold handleAdd. fold before. fold blank.
  cbn [currentExam selectedQuestionIndex questionToDeleteIndex set_questions e_questions].
  split; [reflexivity |]. split; [| reflexivity].
  rewrite length_app. cbn [List.length].
  replace (List.length before + 1 - 1) with (List.length before) by lia.
  rewrite nth_error_app2 by lia. rewrite Nat.sub_diag. reflexivity.
Qed.



(** ** The results manager *)

Lemma string_or_default (a : option jsstring) (d : jsstring) :
  d <> [] -> exists x y, string_or a (Some d) = Some (x :: y).
Proof.
  intros Hd. destruct a as [[| x y] |]; cbn; eauto; destruct d; try congruence; eauto.
Qed.

Lemma merge_result_labelled (usersMap : jsstring -> option UserProfile)
    (r : ExtendedResult) :
  labelled (merge_result usersMap r) = true.
Proof.
  unfold labelled, merge_result.
  cbn [studentName studentEmail studentClass studentDivision].
  set (userProfile := usersMap (r_studentId (stored r))).
  destruct (string_or_default
              (string_or (profile_field displayName userProfile) (studentName r))
              (str "Unknown Student")) as (x1 & y1 & ->); [discriminate |].
  destruct (string_or_default
              (string_or (profile_field email userProfile) (studentEmail r))
              (str "No Email")) as (x2 & y2 & ->); [discriminate |].
  destruct (string_or_default (profile_field assignedClass userProfile)
              (str "Unassigned")) as (x3 & y3 & ->); [discriminate |].
  destruct (profile_field assignedDivision userProfile) as [[| x4 y4] |]; reflexivity.
Qed.

(** X22.  Every display result has a name, an email address and a class
    to show, and a division, whatever the profiles and the stored result
    hold; the merge changes neither the stored result, nor its title, nor
    its visibility, nor the number or order of the results. *)
Theorem results_labelled (usersMap : jsstring -> option UserProfile)
    (rawResults : list ExtendedResult) :
  forallb labelled (results usersMap rawResults) = true /\
  map (fun r => (stored r, examTitle r, isHidden r)) (results usersMap rawResults)
  = map (fun r => (stored r, examTitle r, isHidden r)) rawResults.
Proof.
  unfold results. split.
  - apply forallb_forall. intros r Hr. apply in_map_iff in Hr.
    destruct Hr as (raw & <- & _). apply merge_result_labelled.
  - rewrite map_map. reflexivity.
Qed.

Lemma includes_empty (s : jsstring) : includes s [] = true.
Proof. destruct s; reflexivity. Qed.

(** X23.  With an empty search box the list shown is decided by the
    three selects and the visibility toggle alone; with the selects on
    "all" it is the list of the results that are not hidden, or of all
    results when hidden ones are shown.  Of [toLowerCase] this uses only
    that it maps the empty string to itself. *)
Theorem filtered_empty_search (lower_case : jsstring -> jsstring)
    (exam_choice class_choice division_choice : jsstring)
    (hidden_shown : bool) (l : list ExtendedResult) :
  lower_case [] = [] ->
  filtered lower_case (mkFilters [] exam_choice class_choice division_choice hidden_shown) l
  = filter (fun r => selected_by exam_choice (examTitle r)
                     && selected_by class_choice (studentClass r)
                     && selected_by division_choice (studentDivision r)
                     && (hidden_shown || negb (isHidden r))) l /\
  filtered lower_case (mkFilters [] (str "all") (str "all") (str "all") hidden_shown) l
  = filter (fun r => hidden_shown || negb (isHidden r)) l.
Proof.
  intros Hlower.
  assert (H : forall e c d r,
            matches lower_case (mkFilters [] e c d hidden_shown) r
            = (selected_by e (examTitle r) && selected_by c (studentClass r)
               && selected_by d (studentDivision r)
               && (hidden_shown || negb (isHidden r)))%bool).
  { intros e c d r. unfold matches.
    cbn [searchTerm examFilter classFilter divisionFilter showHidden].
    rewrite Hlower, !includes_empty.
    destruct hidden_shown; reflexivity. }
  unfold filtered. split.
  - apply filter_ext. intros r. apply H.
  - apply filter_ext. intros r. rewrite H. reflexivity.
Qed.

Lemma filtered_empty_search_witness :
  toLowerCase [] = [] /\
  filtered toLowerCase (mkFilters [] (str "Quiz") (str "all") (str "A") false) shown_results
  = filter (fun r => selected_by (str "Quiz") (examTitle r)
                     && selected_by (str "all") (studentClass r)
                     && selected_by (str "A") (studentDivision r)
                     && (false || negb (isHidden r))) shown_results /\
  filtered toLowerCase (mkFilters [] (str "all") (str "all") (str "all") false) shown_results
  = filter (fun r => false || negb (isHidden r)) shown_results.
Proof.
  split; [reflexivity |].
  apply (filtered_empty_search toLowerCase (str "Quiz") (str "all") (str "A") false
           shown_results).
  reflexivity.
Defined.

Lemma count_positive (n : nat) : 0 < n -> (0 < inject_Z (Z.of_nat n))%Q.
Proof. intros H. change 0%Q with (inject_Z 0). rewrite <- Zlt_Qlt. lia. Qed.

Lemma share_bounds (s n : Q) :
  (0 <= s)%Q -> (s <= n)%Q -> (0 < n)%Q ->
  (0 <= s / n * 100)%Q /\ (s / n * 100 <= 100)%Q.
Proof.
  intros H0 H1 Hn.
  assert (Ha : (0 <= s / n)%Q) by (apply Qle_shift_div_l; [exact Hn | lra]).
  assert (Hb : (s / n <= 1)%Q) by (apply Qle_shift_div_r; [exact Hn | lra]).
  split; lra.
Qed.

Lemma passedCount_le (l : list Result) : passedCount l <= List.length l.
Proof. unfold passedCount. apply filter_length_le. Qed.

(** X24.  The pass rate of the summary lies between 0 and 100, and is 0
    for an empty list. *)
Theorem passRate_bounds (l : list Result) :
  (0 <= passRate l)%Q /\ (passRate l <= 100)%Q /\ passRate [] = 0%Q.
Proof.
  split; [| split; [| reflexivity]]; unfold passRate, totalResults;
    destruct (Nat.ltb 0 (List.length l)) eqn:E; try lra;
    apply Nat.ltb_lt in E;
    apply share_bounds; try (apply count_positive; exact E);
    try (change 0%Q with (inject_Z 0); rewrite <- Zle_Qle; lia);
    rewrite <- Zle_Qle; pose proof (passedCount_le l); lia.
Qed.

Lemma ratio_in_marks (r : Result) :
  in_marks r -> exists q, ratio r = Finite q /\ (0 <= q)%Q /\ (q <= 1)%Q.
Proof.
  intros (H0 & H1 & Ht). unfold ratio, divide.
  destruct (Qeq_bool (r_totalMarks r) 0) eqn:E.
  - apply Qeq_bool_iff in E. lra.
  - eexists. split; [reflexivity |]. split.
    + apply Qle_shift_div_l; [exact Ht | lra].
    + apply Qle_shift_div_r; [exact Ht | lra].
Qed.

Lemma sum_in_marks (l : list Result) :
  Forall in_marks l ->
  forall a : Q,
    exists s, fold_left (fun acc r => jsreal_add acc (ratio r)) l (Finite a) = Finite s /\
              (a <= s)%Q /\ (s <= a + inject_Z (Z.of_nat (List.length l)))%Q.
Proof.
  induction 1 as [| r l Hr Hl IH]; intros a.
  - exists a. cbn [fold_left List.length]. change (inject_Z (Z.of_nat 0)) with 0%Q.
    split; [reflexivity |]. split; lra.
  - cbn [fold_left List.length].
    destruct (ratio_in_marks r Hr) as (q & -> & Hq0 & Hq1). cbn [jsreal_add].
    destruct (IH (a + q)%Q) as (s & -> & Hs0 & Hs1).
    exists s. split; [reflexivity |]. split; [lra |].
    rewrite Nat2Z.inj_succ, <- Z.add_1_r, inject_Z_plus.
    change (inject_Z 1) with 1%Q. lra.
Qed.

(** X25.  For results whose marks lie between 0 and a positive total,
    the average score of the summary is a number between 0 and 100. *)
Theorem avgScore_bounds (l : list Result) :
  Forall in_marks l ->
  exists a, avgScore l = Finite a /\ (0 <= a)%Q /\ (a <= 100)%Q.
Proof.
  intros H. unfold avgScore, totalResults.
  destruct (Nat.ltb 0 (List.length l)) eqn:E.
  - apply Nat.ltb_lt in E.
    destruct (sum_in_marks l H 0%Q) as (s & -> & Hs0 & Hs1).
    cbn [over times]. eexists. split; [reflexivity |].
    apply share_bounds; [exact Hs0 | lra | apply count_positive; exact E].
  - exists 0%Q. split; [reflexivity |]. split; lra.
Qed.

Lemma avgScore_bounds_witness :
  Forall in_marks arrived_results /\
  exists a, avgScore arrived_results = Finite a /\ (0 <= a)%Q /\ (a <= 100)%Q.
Proof.
  assert (H : Forall in_marks arrived_results).
  { repeat constructor; cbn; unfold Qle, Qlt; cbn; lia. }
  split; [exact H |]. apply (avgScore_bounds arrived_results H).
Defined.

(** X26.  Every result that the summary counts as passed is shown as
    passed in its row: the pass count is at most the number of rows shown
    as passed. *)
Theorem passedCount_at_most_rows (l : list Result) :
  passedCount l <= List.length (filter isPassed l) /\
  forallb isPassed (filter passes_by_ratio l) = true.
Proof.
  split.
  - unfold passedCount. induction l as [| r l IH]; [apply le_n |].
    cbn [filter]. destruct (passes_by_ratio r) eqn:E.
    + rewrite (passes_by_ratio_isPassed r E). cbn [List.length]. lia.
    + destruct (isPassed r); cbn [List.length]; lia.
  - apply forallb_forall. intros r Hr. apply filter_In in Hr.
    apply passes_by_ratio_isPassed. apply Hr.
Qed.

Lemma greater_than_irrefl (x : jsreal) : greater_than x x = false.
Proof.
  destruct x as [| [|] | q]; try reflexivity. cbn.
  apply negb_false_iff. apply Qle_bool_iff. apply Qle_refl.
Qed.

Lemma not_le_lt (x y : Q) : negb (Qle_bool x y) = true <-> (y < x)%Q.
Proof.
  rewrite negb_true_iff. split.
  - intros H. apply Qnot_le_lt. intros Hle. apply Qle_bool_iff in Hle. congruence.
  - intros H. destruct (Qle_bool x y) eqn:E; [| reflexivity].
    apply Qle_bool_iff in E. lra.
Qed.

Lemma not_le_false (x y : Q) : negb (Qle_bool x y) = false <-> (x <= y)%Q.
Proof. rewrite negb_false_iff. apply Qle_bool_iff. Qed.

Lemma greater_than_trans (a b c : jsreal) :
  greater_than a b = true -> greater_than b c = true -> greater_than a c = true.
Proof.
  destruct a as [| [|] | x]; destruct b as [| [|] | y]; destruct c as [| [|] | z];
    cbn [greater_than andb negb]; intros H1 H2; try discriminate; try reflexivity.
  rewrite not_le_lt in *. lra.
Qed.

Lemma greater_than_below (r b c : jsreal) :
  greater_than c b = true -> greater_than r b = false -> greater_than r c = false.
Proof.
  destruct r as [| [|] | x]; destruct b as [| [|] | y]; destruct c as [| [|] | z];
    cbn [greater_than andb negb]; intros H1 H2; try discriminate; try reflexivity.
  rewrite not_le_lt in H1. rewrite not_le_false in *. lra.
Qed.

Lemma topPerformer_from (l : list Result) : forall (prev : option Result) (seen : list Result),
  match prev with
  | Some p => In p seen /\ greater_than (ratio p) (Finite (-1)) = true
  | None => True
  end ->
  Forall (fun r => greater_than (ratio r)
                     (match prev with Some p => ratio p | None => Finite (-1) end) = false)
         seen ->
  let top :=
    fold_left
      (fun prev current =>
         if greater_than (ratio current)
              (match prev with Some p => ratio p | None => Finite (-1) end)
         then Some current else prev) l prev in
  match top with
  | Some p => In p (seen ++ l) /\ greater_than (ratio p) (Finite (-1)) = true
  | None => True
  end /\
  Forall (fun r => greater_than (ratio r)
                     (match top with Some p => ratio p | None => Finite (-1) end) = false)
         (seen ++ l).
Proof.
  induction l as [| c l IH]; intros prev seen Hprev Hseen.
  - cbn [fold_left]. rewrite app_nil_r. split; assumption.
  - cbn [fold_left].
    replace (seen ++ c :: l) with ((seen ++ [c]) ++ l) by (rewrite <- app_assoc; reflexivity).
    destruct (greater_than (ratio c)
                (match prev with Some p => ratio p | None => Finite (-1) end)) eqn:E.
    + apply IH.
      * split; [apply in_or_app; right; left; reflexivity |].
        destruct prev as [p |]; [| exact E].
        destruct Hprev as [_ Hp]. exact (greater_than_trans _ _ _ E Hp).
      * apply Forall_app. split.
        -- revert Hseen. apply Forall_impl. intros r Hr.
           exact (greater_than_below _ _ _ E Hr).
        -- constructor; [apply greater_than_irrefl | constructor].
    + apply IH.
      * destruct prev as [p |]; [| exact I].
        destruct Hprev as [Hin Hp]. split; [apply in_or_app; left; exact Hin | exact Hp].
      * apply Forall_app. split; [exact Hseen |].
        constructor; [exact E | constructor].
Qed.

(** X27.  The top performer of the summary is one of the results, has a
    ratio above -1, and no result has a greater ratio; there is none
    exactly when no result has a ratio above -1. *)
Theorem topPerformer_maximal (l : list Result) :
  match topPerformer l with
  | Some t =>
      In t l /\ greater_than (ratio t) (Finite (-1)) = true /\
      forallb (fun r => negb (greater_than (ratio r) (ratio t))) l = true
  | None => forallb (fun r => negb (greater_than (ratio r) (Finite (-1)))) l = true
  end.
Proof.
  destruct (topPerformer_from l None [] I (Forall_nil _)) as [H1 H2].
  cbn [app] in *. fold (topPerformer l) in H1, H2.
  destruct (topPerformer l) as [t |].
  - destruct H1 as [Hin Ht]. split; [exact Hin |]. split; [exact Ht |].
    apply forallb_forall. intros r Hr. rewrite Forall_forall in H2.
    rewrite (H2 r Hr). reflexivity.
  - apply forallb_forall. intros r Hr. rewrite Forall_forall in H2.
    rewrite (H2 r Hr). reflexivity.
Qed.





Lemma code_unit_leb_total (a : jsstring) : forall b,
  code_unit_leb a b = false -> code_unit_leb b a = true.
Proof.
  induction a as [| x a IH]; intros [| y b]; cbn [code_unit_leb]; try discriminate;
    try reflexivity.
  destruct (N.ltb_spec x y); [discriminate |].
  destruct (N.ltb_spec y x); [reflexivity |]. apply IH.
Qed.

Lemma code_unit_leb_trans (a : jsstring) : forall b c,
  code_unit_leb a b = true -> code_unit_leb b c = true -> code_unit_leb a c = true.
Proof.
  induction a as [| x a IH]; intros [| y b] [| z c]; cbn [code_unit_leb];
    try discriminate; try reflexivity.
  destruct (N.ltb_spec x y), (N.ltb_spec y z), (N.ltb_spec x z); try reflexivity;
    try lia; destruct (N.ltb_spec y x), (N.ltb_spec z y), (N.ltb_spec z x);
    try discriminate; try lia; try reflexivity.
  apply IH.
Qed.

Lemma title_leb_total (a b : option jsstring) :
  title_leb a b = false -> title_leb b a = true.
Proof.
  destruct a, b; cbn; try discriminate; try reflexivity. apply code_unit_leb_total.
Qed.

Lemma title_leb_trans (a b c : option jsstring) :
  title_leb a b = true -> title_leb b c = true -> title_leb a c = true.
Proof.
  destruct a, b, c; cbn; try discriminate; try reflexivity. apply code_unit_leb_trans.
Qed.

Lemma title_eqb_eq (a b : option jsstring) : title_eqb a b = true <-> a = b.
Proof.
  destruct a, b; cbn; split; try discriminate; try reflexivity.
  - intros H. apply jsstring_eqb_eq in H. congruence.
  - intros H. injection H as ->. apply jsstring_eqb_refl.
Qed.

Lemma distinct_titles_In (l : list (option jsstring)) (t : option jsstring) :
  In t (distinct_titles l) <-> In t l.
Proof.
  induction l as [| x l IH]; cbn [distinct_titles]; [reflexivity |].
  cbn [In]. rewrite filter_In, IH. split.
  - intros [H | [H _]]; auto.
  - intros [H | H]; [left; exact H |].
    destruct (title_eqb t x) eqn:E.
    + apply title_eqb_eq in E. left. congruence.
    + right. split; [exact H | reflexivity].
Qed.

Lemma distinct_titles_NoDup (l : list (option jsstring)) : NoDup (distinct_titles l).
Proof.
  induction l as [| x l IH]; cbn [distinct_titles]; constructor.
  - rewrite filter_In. intros [_ H].
    rewrite (proj2 (title_eqb_eq x x) eq_refl) in H. discriminate.
  - apply NoDup_filter. exact IH.
Qed.

Lemma insert_title_perm (t : option jsstring) (l : list (option jsstring)) :
  Permutation (insert_title t l) (t :: l).
Proof.
  induction l as [| x l IH]; cbn; [reflexivity |].
  destruct (title_leb t x); [reflexivity |].
  rewrite IH. apply perm_swap.
Qed.

Lemma sort_titles_perm (l : list (option jsstring)) : Permutation (sort_titles l) l.
Proof.
  induction l as [| t l IH]; cbn; [reflexivity |].
  rewrite insert_title_perm. apply perm_skip. exact IH.
Qed.

Lemma insert_title_sorted (t : option jsstring) (l : list (option jsstring)) :
  StronglySorted (fun a b => title_leb a b = true) l ->
  StronglySorted (fun a b => title_leb a b = true) (insert_title t l).
Proof.
  induction 1 as [| x l Hl IH Hx]; cbn.
  - constructor; constructor.
  - destruct (title_leb t x) eqn:E.
    + constructor; [constructor; assumption |].
      constructor; [exact E |].
      revert Hx. apply Forall_impl. intros a Ha. exact (title_leb_trans _ _ _ E Ha).
    + constructor; [exact IH |].
      apply Forall_forall. intros y Hy.
      apply (Permutation_in _ (insert_title_perm t l)) in Hy.
      destruct Hy as [<- | Hy]; [apply title_leb_total; exact E |].
      exact (proj1 (Forall_forall _ _) Hx y Hy).
Qed.

Lemma sort_titles_sorted (l : list (option jsstring)) :
  StronglySorted (fun a b => title_leb a b = true) (sort_titles l).
Proof.
  induction l as [| t l IH]; cbn; [constructor |].
  apply insert_title_sorted. exact IH.
Qed.

(** X29.  The exam titles offered by the filter are the titles of the
    results, each one once, in the order of their code units. *)
Theorem uniqueExams_sorted_distinct (l : list ExtendedResult) :
  NoDup (uniqueExams l) /\
  StronglySorted (fun a b => title_leb a b = true) (uniqueExams l) /\
  forall t, In t (uniqueExams l) <-> In t (map examTitle l).
Proof.
  unfold uniqueExams. split; [| split].
  - apply (Permutation_NoDup (Permutation_sym (sort_titles_perm _))).
    apply distinct_titles_NoDup.
  - apply sort_titles_sorted.
  - intros t. etransitivity; [| apply (distinct_titles_In (map examTitle l) t)]. split.
    + apply Permutation_in. apply sort_titles_perm.
    + apply Permutation_in. apply Permutation_sym. apply sort_titles_perm.
Qed.
